(** * PYRO artifact pack analysis: extraction, aggregation and scoring

    A shallow embedding of [PYRO_ARTIFACT_PACK_ANALYSIS.py]
    (class [PyroArtifactPackAnalyzer]) and the properties of its
    extraction-and-scoring pipeline.

    Conventions of the embedding.
    - Text is a [string] of 8-bit characters and is read as ASCII: the
      character classes [\w], [\s] and case folding are the ASCII ones.
    - The Python dictionaries [repositories_found], [tools_found] and
      [dependencies_found] keep insertion order, which the scorer's buckets
      depend on; they are association lists ([dict]).  Python sets are
      [gset string].
    - The analyzer mutates [self.analysis_results] in place; here every method
      takes the analysis state and returns the new one.  A method that can
      raise returns the state reached together with the fact that it raised.
    - The outside world (which bundles exist, whether they extract, which
      files they contain, what [yaml.safe_load] makes of each file) is an
      explicit input, see [FileSystem]. *)

From Stdlib Require Import Ascii String ZArith List Lia Sorted Permutation Bool.
From stdpp Require Import gmap strings list.

Open Scope string_scope.
Open Scope list_scope.

(** ** Characters and Python string primitives *)

Module Text.

Definition code (c : ascii) : N := N_of_ascii c.

Definition between (lo hi : N) (c : ascii) : bool :=
  ((lo <=? code c) && (code c <=? hi))%N.

Definition is_upper : ascii -> bool := between 65 90.
Definition is_lower : ascii -> bool := between 97 122.
Definition is_digit : ascii -> bool := between 48 57.

(** [\w]: letters, digits and the underscore. *)
Definition is_word (c : ascii) : bool :=
  is_upper c || is_lower c || is_digit c || Ascii.eqb c "_".

(** [\s]: tab, newline, vertical tab, form feed, carriage return, the four
    separators 28..31, and the space. *)
Definition is_space (c : ascii) : bool :=
  between 9 13 c || between 28 32 c.

Definition lower_char (c : ascii) : ascii :=
  if is_upper c then ascii_of_N (code c + 32) else c.

(** [s.lower()] *)
Fixpoint lower (s : string) : string :=
  match s with
  | EmptyString => EmptyString
  | String c s' => String (lower_char c) (lower s')
  end.

Fixpoint starts_with (p s : string) : bool :=
  match p, s with
  | EmptyString, _ => true
  | String a p', String b s' => Ascii.eqb a b && starts_with p' s'
  | String _ _, EmptyString => false
  end.

(** [needle in hay] on two strings. *)
Fixpoint contains (needle hay : string) : bool :=
  starts_with needle hay ||
  match hay with
  | EmptyString => false
  | String _ hay' => contains needle hay'
  end.

(** [s.split(sep)[0]]: the text before the first [sep]. *)
Fixpoint before_first (sep : ascii) (s : string) : string :=
  match s with
  | EmptyString => EmptyString
  | String c s' => if Ascii.eqb c sep then EmptyString else String c (before_first sep s')
  end.

Definition char_in (chars : string) (c : ascii) : bool :=
  existsb (Ascii.eqb c) (list_ascii_of_string chars).

(** [s.rstrip(chars)] *)
Fixpoint rstrip (chars : string) (s : string) : string :=
  match s with
  | EmptyString => EmptyString
  | String c s' =>
      match rstrip chars s' with
      | EmptyString => if char_in chars c then EmptyString else String c EmptyString
      | t => String c t
      end
  end.

(** [all(c in chars for c in s)] *)
Definition all_in (chars : string) (s : string) : bool :=
  forallb (char_in chars) (list_ascii_of_string s).

Definition text_of (reversed : list ascii) : string :=
  string_of_list_ascii (rev reversed).

End Text.

(** ** The fragment of Python's [re] that the analyzer's patterns use

    Every pattern of the source is a sequence of single-character atoms,
    each with an optional quantifier [?], [*] or [+] (all greedy), the word
    boundary [\b], and capture groups that are not nested.  [compile]
    accepts exactly that fragment; the matcher is the backtracking one of
    [re]: a quantifier takes as many characters as it can and gives them
    back one at a time. *)

Module Re.

Inductive member : Type :=
| MChar (c : ascii)
| MSpace
| MWord.

Inductive atom : Type :=
| AChar (c : ascii)
| ADot
| AWord
| ASpace
| ASet (negated : bool) (members : list member).

Inductive quant : Type := Once | Optional | ZeroOrMore | OneOrMore.

Inductive node : Type :=
| NAtom (a : atom) (q : quant)
| NBoundary
| NOpen
| NClose.

Definition regex : Type := list node.

(** *** Parsing a pattern string *)

Definition is_meta (c : ascii) : bool := Text.char_in "\*+?{}|^$[]()" c.

(** The character after a backslash, outside a set. *)
Inductive escape : Type := EBoundary | EAtom (a : atom).

Definition parse_escape (c : ascii) : option escape :=
  if Ascii.eqb c "b" then Some EBoundary
  else if Ascii.eqb c "w" then Some (EAtom AWord)
  else if Ascii.eqb c "s" then Some (EAtom ASpace)
  else if Text.is_word c then None
  else Some (EAtom (AChar c)).

Definition parse_member_escape (c : ascii) : option member :=
  if Ascii.eqb c "w" then Some MWord
  else if Ascii.eqb c "s" then Some MSpace
  else if Text.is_word c then None
  else Some (MChar c).

(** The members of a set, up to the closing bracket. *)
Fixpoint parse_members (p : string) : option (list member * string) :=
  match p with
  | EmptyString => None
  | String "]" p' => Some ([], p')
  | String "\" (String c p') =>
      match parse_member_escape c, parse_members p' with
      | Some m, Some (ms, rest) => Some (m :: ms, rest)
      | _, _ => None
      end
  | String c p' =>
      if Ascii.eqb c "-" then None
      else match parse_members p' with
           | Some (ms, rest) => Some (MChar c :: ms, rest)
           | None => None
           end
  end.

Definition parse_quant (p : string) : quant * string :=
  match p with
  | String "?" p' => (Optional, p')
  | String "*" p' => (ZeroOrMore, p')
  | String "+" p' => (OneOrMore, p')
  | _ => (Once, p)
  end.

Definition parse_item (p : string) : option (escape * string) :=
  match p with
  | EmptyString => None
  | String "\" (String c p') =>
      match parse_escape c with
      | Some e => Some (e, p')
      | None => None
      end
  | String "." p' => Some (EAtom ADot, p')
  | String "[" (String "^" p') =>
      match parse_members p' with
      | Some (ms, rest) => Some (EAtom (ASet true ms), rest)
      | None => None
      end
  | String "[" p' =>
      match parse_members p' with
      | Some (ms, rest) => Some (EAtom (ASet false ms), rest)
      | None => None
      end
  | String c p' => if is_meta c then None else Some (EAtom (AChar c), p')
  end.

Fixpoint parse (fuel : nat) (in_group : bool) (p : string) : option regex :=
  match fuel with
  | O => None
  | S fuel' =>
      match p with
      | EmptyString => if in_group then None else Some []
      | String "(" p' =>
          if in_group then None else cons NOpen <$> parse fuel' true p'
      | String ")" p' =>
          if in_group then cons NClose <$> parse fuel' false p' else None
      | _ =>
          match parse_item p with
          | Some (EBoundary, rest) => cons NBoundary <$> parse fuel' in_group rest
          | Some (EAtom a, rest) =>
              let (q, rest') := parse_quant rest in
              cons (NAtom a q) <$> parse fuel' in_group rest'
          | None => None
          end
      end
  end.

(** [re.compile(pattern)]; [None] stands for a pattern outside the
    fragment. *)
Definition compile (pattern : string) : option regex :=
  parse (S (String.length pattern)) false pattern.

(** *** Matching *)

Definition char_eq (ignorecase : bool) (a b : ascii) : bool :=
  if ignorecase then Ascii.eqb (Text.lower_char a) (Text.lower_char b)
  else Ascii.eqb a b.

Definition member_ok (ignorecase : bool) (m : member) (c : ascii) : bool :=
  match m with
  | MChar a => char_eq ignorecase a c
  | MSpace => Text.is_space c
  | MWord => Text.is_word c
  end.

Definition atom_ok (ignorecase : bool) (a : atom) (c : ascii) : bool :=
  match a with
  | AChar a => char_eq ignorecase a c
  | ADot => negb (Ascii.eqb c "010")
  | AWord => Text.is_word c
  | ASpace => Text.is_space c
  | ASet negated ms => xorb negated (existsb (fun m => member_ok ignorecase m c) ms)
  end.

(** The state of one match attempt: the character before the cursor, the
    text matched so far, the group being captured and the finished
    groups (the three texts most recent character first). *)
Record cursor : Type := {
  prev : option ascii;
  whole : list ascii;
  cur : option (list ascii);
  closed : list string
}.

Definition start (before : option ascii) : cursor :=
  {| prev := before; whole := []; cur := None; closed := [] |}.

Definition consume (c : ascii) (s : cursor) : cursor :=
  {| prev := Some c; whole := c :: whole s;
     cur := cons c <$> cur s; closed := closed s |}.

Definition open_group (s : cursor) : cursor :=
  {| prev := prev s; whole := whole s; cur := Some []; closed := closed s |}.

Definition close_group (s : cursor) : cursor :=
  {| prev := prev s; whole := whole s; cur := None;
     closed := match cur s with
               | Some g => Text.text_of g :: closed s
               | None => closed s
               end |}.

Definition word_side (c : option ascii) : bool :=
  match c with Some c => Text.is_word c | None => false end.

Definition next_char (rest : string) : option ascii :=
  match rest with String c _ => Some c | EmptyString => None end.

(** [\b]: exactly one side of the cursor is a word character. *)
Definition at_boundary (s : cursor) (rest : string) : bool :=
  xorb (word_side (prev s)) (word_side (next_char rest)).

(** A greedy run of characters satisfying [ok], then the continuation
    [k]; the run gives back one character at a time. *)
Fixpoint greedy (ok : ascii -> bool) (k : cursor -> string -> option cursor)
    (s : cursor) (rest : string) : option cursor :=
  match rest with
  | String c rest' =>
      if ok c then
        match greedy ok k (consume c s) rest' with
        | Some r => Some r
        | None => k s rest
        end
      else k s rest
  | EmptyString => k s rest
  end.

Fixpoint match_here (ignorecase : bool) (r : regex) (s : cursor) (rest : string)
    : option cursor :=
  match r with
  | [] => Some s
  | NAtom a Once :: r' =>
      match rest with
      | String c rest' =>
          if atom_ok ignorecase a c then match_here ignorecase r' (consume c s) rest'
          else None
      | EmptyString => None
      end
  | NAtom a Optional :: r' =>
      match rest with
      | String c rest' =>
          if atom_ok ignorecase a c then
            match match_here ignorecase r' (consume c s) rest' with
            | Some e => Some e
            | None => match_here ignorecase r' s rest
            end
          else match_here ignorecase r' s rest
      | EmptyString => match_here ignorecase r' s rest
      end
  | NAtom a ZeroOrMore :: r' =>
      greedy (atom_ok ignorecase a) (match_here ignorecase r') s rest
  | NAtom a OneOrMore :: r' =>
      match rest with
      | String c rest' =>
          if atom_ok ignorecase a c then
            greedy (atom_ok ignorecase a) (match_here ignorecase r') (consume c s) rest'
          else None
      | EmptyString => None
      end
  | NBoundary :: r' =>
      if at_boundary s rest then match_here ignorecase r' s rest else None
  | NOpen :: r' => match_here ignorecase r' (open_group s) rest
  | NClose :: r' => match_here ignorecase r' (close_group s) rest
  end.

(** A match object: [group(0)] and [groups()]. *)
Record re_match : Type := {
  group0 : string;
  groups : list string
}.

Definition finish (s : cursor) : re_match :=
  {| group0 := Text.text_of (whole s); groups := rev (closed s) |}.

(** The scan of [finditer]: leftmost matches, not overlapping.  [skip]
    counts the characters of the last match still to step over.  (No
    pattern of the source matches the empty string.) *)
Fixpoint scan (ignorecase : bool) (r : regex) (before : option ascii)
    (rest : string) (skip : nat) : list re_match :=
  match skip with
  | S n =>
      match rest with
      | String c rest' => scan ignorecase r (Some c) rest' n
      | EmptyString => []
      end
  | O =>
      match match_here ignorecase r (start before) rest with
      | Some e =>
          finish e ::
          match rest with
          | String c rest' =>
              scan ignorecase r (Some c) rest' (Nat.pred (List.length (whole e)))
          | EmptyString => []
          end
      | None =>
          match rest with
          | String c rest' => scan ignorecase r (Some c) rest' O
          | EmptyString => []
          end
      end
  end.

(** [re.finditer(pattern, text, flags)] *)
Definition finditer (ignorecase : bool) (pattern text : string) : list re_match :=
  match compile pattern with
  | Some r => scan ignorecase r None text O
  | None => []
  end.

(** [re.search(pattern, text, flags)] *)
Definition search (ignorecase : bool) (pattern text : string) : option re_match :=
  head (finditer ignorecase pattern text).

Definition found (ignorecase : bool) (pattern text : string) : bool :=
  match search ignorecase pattern text with Some _ => true | None => false end.

End Re.

(** ** Python dictionaries with string keys, in insertion order *)

(** A dictionary is the list of its items. *)
Abbreviation dict V := (list (string * V)).

Module Dict.
Section Dict.
  Context {V : Type}.

(** [d.get(k)] *)
Fixpoint get (k : string) (d : dict V) : option V :=
  match d with
  | [] => None
  | (k', v) :: d' => if decide (k = k') then Some v else get k d'
  end.

(** [k in d] *)
Definition mem (k : string) (d : dict V) : bool :=
  match get k d with Some _ => true | None => false end.

(** [if k not in d: d[k] = v]; a new key goes last. *)
Definition setdefault (k : string) (v : V) (d : dict V) : dict V :=
  if mem k d then d else d ++ [(k, v)].

(** In-place change of the object stored under [k]. *)
Fixpoint alter (f : V -> V) (k : string) (d : dict V) : dict V :=
  match d with
  | [] => []
  | (k', v) :: d' =>
      if decide (k = k') then (k', f v) :: d' else (k', v) :: alter f k d'
  end.

Definition keys (d : dict V) : list string := fst <$> d.
End Dict.
End Dict.

(** ** Data model *)

(** [if x not in l: l.append(x)] *)
Definition append_new (x : string) (l : list string) : list string :=
  if bool_decide (x ∈ l) then l else l ++ [x].


(** The priority tier of a catalog tool and of a repository record
    (['critical'], ['high'], ['medium'], ['low'], ['unknown']). *)
Inductive Priority : Type := critical | high | medium | low | unknown.

(** The three buckets of [fork_candidates]. *)
Inductive Category : Type := HighPriority | MediumPriority | LowPriority.

#[global] Instance Priority_eq_dec : EqDecision Priority.
Proof. solve_decision. Defined.
#[global] Instance Category_eq_dec : EqDecision Category.
Proof. solve_decision. Defined.

(** A value of [repositories_found].  The last five fields are keys that
    a record may lack: [tool_name] exists only on a record created by
    [find_known_tools], the others are added by post-processing. *)
Module Repo.
Record t : Type := {
  organization : string;
  repository_name : string;
  repository_url : string;
  referenced_in_artifacts : list string;
  referenced_in_packs : gset string;
  full_urls_found : gset string;
  priority : Priority;
  language : string;
  stars : Z;
  license : string;
  tool_name : option string;
  priority_score : option Z;
  priority_category : option Category;
  estimated_importance : option nat;
  fork_recommended : option bool
}.

(** [if artifact_name not in r['referenced_in_artifacts']: append];
    [r['referenced_in_packs'].add(pack_name)] *)
Definition add_reference (artifact_name pack_name : string) (r : t) : t :=
  {| organization := organization r;
     repository_name := repository_name r;
     repository_url := repository_url r;
     referenced_in_artifacts :=
       append_new artifact_name (referenced_in_artifacts r);
     referenced_in_packs := referenced_in_packs r ∪ {[pack_name]};
     full_urls_found := full_urls_found r;
     priority := priority r;
     language := language r;
     stars := stars r;
     license := license r;
     tool_name := tool_name r;
     priority_score := priority_score r;
     priority_category := priority_category r;
     estimated_importance := estimated_importance r;
     fork_recommended := fork_recommended r |}.

(** [r['full_urls_found'].add(url)] *)
Definition add_url (url : string) (r : t) : t :=
  {| organization := organization r;
     repository_name := repository_name r;
     repository_url := repository_url r;
     referenced_in_artifacts := referenced_in_artifacts r;
     referenced_in_packs := referenced_in_packs r;
     full_urls_found := full_urls_found r ∪ {[url]};
     priority := priority r;
     language := language r;
     stars := stars r;
     license := license r;
     tool_name := tool_name r;
     priority_score := priority_score r;
     priority_category := priority_category r;
     estimated_importance := estimated_importance r;
     fork_recommended := fork_recommended r |}.

(** [r['priority'] = p; r['language'] = l] *)
Definition set_tier (p : Priority) (l : string) (r : t) : t :=
  {| organization := organization r;
     repository_name := repository_name r;
     repository_url := repository_url r;
     referenced_in_artifacts := referenced_in_artifacts r;
     referenced_in_packs := referenced_in_packs r;
     full_urls_found := full_urls_found r;
     priority := p;
     language := l;
     stars := stars r;
     license := license r;
     tool_name := tool_name r;
     priority_score := priority_score r;
     priority_category := priority_category r;
     estimated_importance := estimated_importance r;
     fork_recommended := fork_recommended r |}.

(** [r['priority_score'] = s; r['priority_category'] = c] *)
Definition set_score (s : Z) (c : Category) (r : t) : t :=
  {| organization := organization r;
     repository_name := repository_name r;
     repository_url := repository_url r;
     referenced_in_artifacts := referenced_in_artifacts r;
     referenced_in_packs := referenced_in_packs r;
     full_urls_found := full_urls_found r;
     priority := priority r;
     language := language r;
     stars := stars r;
     license := license r;
     tool_name := tool_name r;
     priority_score := Some s;
     priority_category := Some c;
     estimated_importance := estimated_importance r;
     fork_recommended := fork_recommended r |}.

(** [r['estimated_importance'] = n; r['fork_recommended'] = b] *)
Definition set_enrichment (n : nat) (b : bool) (r : t) : t :=
  {| organization := organization r;
     repository_name := repository_name r;
     repository_url := repository_url r;
     referenced_in_artifacts := referenced_in_artifacts r;
     referenced_in_packs := referenced_in_packs r;
     full_urls_found := full_urls_found r;
     priority := priority r;
     language := language r;
     stars := stars r;
     license := license r;
     tool_name := tool_name r;
     priority_score := priority_score r;
     priority_category := priority_category r;
     estimated_importance := Some n;
     fork_recommended := Some b |}.
End Repo.

(** An entry of the catalog [self.known_tools]. *)
Module ToolInfo.
Record t : Type := {
  repo_url : string;
  patterns : list string;
  priority : Priority;
  language : string;
  description : string
}.
End ToolInfo.

(** A value of [tools_found]. *)
Module Tool.
Record t : Type := {
  tool_name : string;
  repository_url : string;
  priority : Priority;
  language : string;
  description : string;
  referenced_in_artifacts : list string;
  referenced_in_packs : gset string;
  patterns_matched : gset string
}.

Definition create (name : string) (info : ToolInfo.t) : t :=
  {| tool_name := name;
     repository_url := ToolInfo.repo_url info;
     priority := ToolInfo.priority info;
     language := ToolInfo.language info;
     description := ToolInfo.description info;
     referenced_in_artifacts := [];
     referenced_in_packs := ∅;
     patterns_matched := ∅ |}.

(** The three updates every tool sighting makes, [matched] being the
    pattern or the token added to [patterns_matched]. *)
Definition add_reference (artifact_name pack_name matched : string) (r : t) : t :=
  {| tool_name := tool_name r;
     repository_url := repository_url r;
     priority := priority r;
     language := language r;
     description := description r;
     referenced_in_artifacts :=
       append_new artifact_name (referenced_in_artifacts r);
     referenced_in_packs := referenced_in_packs r ∪ {[pack_name]};
     patterns_matched := patterns_matched r ∪ {[matched]} |}.
End Tool.

(** A value of [dependencies_found]. *)
Module Dep.
Record t : Type := {
  domain : string;
  urls_found : gset string;
  referenced_in_artifacts : list string;
  referenced_in_packs : gset string
}.

Definition create (d : string) : t :=
  {| domain := d; urls_found := ∅;
     referenced_in_artifacts := []; referenced_in_packs := ∅ |}.

Definition add_reference (url artifact_name pack_name : string) (r : t) : t :=
  {| domain := domain r;
     urls_found := urls_found r ∪ {[url]};
     referenced_in_artifacts :=
       append_new artifact_name (referenced_in_artifacts r);
     referenced_in_packs := referenced_in_packs r ∪ {[pack_name]} |}.
End Dep.

(** An element of [artifact_packs_analyzed]. *)
Record PackInfo : Type := {
  file_name : string;
  file_size : nat;
  artifacts_count : nat;
  extraction_path : string
}.

(** [fork_candidates].  A bucket holds the record objects themselves, the
    same objects that [repositories_found] holds; an object is identified
    by its key, which is never bound to another object, so a bucket is the
    list of the keys of its records and a record is read through
    [repositories_found]. *)
Record ForkCandidates : Type := {
  high_priority : list string;
  medium_priority : list string;
  low_priority : list string
}.

Definition bucket (c : Category) (fc : ForkCandidates) : list string :=
  match c with
  | HighPriority => high_priority fc
  | MediumPriority => medium_priority fc
  | LowPriority => low_priority fc
  end.

Definition set_bucket (c : Category) (l : list string) (fc : ForkCandidates)
    : ForkCandidates :=
  match c with
  | HighPriority =>
      {| high_priority := l; medium_priority := medium_priority fc;
         low_priority := low_priority fc |}
  | MediumPriority =>
      {| high_priority := high_priority fc; medium_priority := l;
         low_priority := low_priority fc |}
  | LowPriority =>
      {| high_priority := high_priority fc; medium_priority := medium_priority fc;
         low_priority := l |}
  end.

(** [self.analysis_results] (without [analysis_metadata], the date and
    version of the run, which no method reads). *)
Record AnalysisState : Type := {
  artifact_packs_analyzed : list PackInfo;
  total_artifacts : nat;
  repositories_found : dict Repo.t;
  tools_found : dict Tool.t;
  dependencies_found : dict Dep.t;
  organizations_found : gset string;
  fork_candidates : ForkCandidates
}.

Definition initial_results : AnalysisState :=
  {| artifact_packs_analyzed := [];
     total_artifacts := 0;
     repositories_found := [];
     tools_found := [];
     dependencies_found := [];
     organizations_found := ∅;
     fork_candidates :=
       {| high_priority := []; medium_priority := []; low_priority := [] |} |}.

Definition with_repositories (f : dict Repo.t -> dict Repo.t) (st : AnalysisState)
    : AnalysisState :=
  {| artifact_packs_analyzed := artifact_packs_analyzed st;
     total_artifacts := total_artifacts st;
     repositories_found := f (repositories_found st);
     tools_found := tools_found st;
     dependencies_found := dependencies_found st;
     organizations_found := organizations_found st;
     fork_candidates := fork_candidates st |}.

Definition with_tools (f : dict Tool.t -> dict Tool.t) (st : AnalysisState)
    : AnalysisState :=
  {| artifact_packs_analyzed := artifact_packs_analyzed st;
     total_artifacts := total_artifacts st;
     repositories_found := repositories_found st;
     tools_found := f (tools_found st);
     dependencies_found := dependencies_found st;
     organizations_found := organizations_found st;
     fork_candidates := fork_candidates st |}.

Definition with_dependencies (f : dict Dep.t -> dict Dep.t) (st : AnalysisState)
    : AnalysisState :=
  {| artifact_packs_analyzed := artifact_packs_analyzed st;
     total_artifacts := total_artifacts st;
     repositories_found := repositories_found st;
     tools_found := tools_found st;
     dependencies_found := f (dependencies_found st);
     organizations_found := organizations_found st;
     fork_candidates := fork_candidates st |}.

Definition add_organization (org : string) (st : AnalysisState) : AnalysisState :=
  {| artifact_packs_analyzed := artifact_packs_analyzed st;
     total_artifacts := total_artifacts st;
     repositories_found := repositories_found st;
     tools_found := tools_found st;
     dependencies_found := dependencies_found st;
     organizations_found := organizations_found st ∪ {[org]};
     fork_candidates := fork_candidates st |}.

Definition with_fork_candidates (f : ForkCandidates -> ForkCandidates)
    (st : AnalysisState) : AnalysisState :=
  {| artifact_packs_analyzed := artifact_packs_analyzed st;
     total_artifacts := total_artifacts st;
     repositories_found := repositories_found st;
     tools_found := tools_found st;
     dependencies_found := dependencies_found st;
     organizations_found := organizations_found st;
     fork_candidates := f (fork_candidates st) |}.

(** [total_artifacts += n] *)
Definition count_artifacts (n : nat) (st : AnalysisState) : AnalysisState :=
  {| artifact_packs_analyzed := artifact_packs_analyzed st;
     total_artifacts := total_artifacts st + n;
     repositories_found := repositories_found st;
     tools_found := tools_found st;
     dependencies_found := dependencies_found st;
     organizations_found := organizations_found st;
     fork_candidates := fork_candidates st |}.

(** [artifact_packs_analyzed.append(info)] *)
Definition append_pack_info (info : PackInfo) (st : AnalysisState) : AnalysisState :=
  {| artifact_packs_analyzed := artifact_packs_analyzed st ++ [info];
     total_artifacts := total_artifacts st;
     repositories_found := repositories_found st;
     tools_found := tools_found st;
     dependencies_found := dependencies_found st;
     organizations_found := organizations_found st;
     fork_candidates := fork_candidates st |}.

(** ** The analyzer's tables *)

Definition tool (url : string) (pats : list string) (p : Priority)
    (lang descr : string) : ToolInfo.t :=
  {| ToolInfo.repo_url := url; ToolInfo.patterns := pats;
     ToolInfo.priority := p; ToolInfo.language := lang;
     ToolInfo.description := descr |}.

(** [self.known_tools], in the order of the source. *)
Definition known_tools : list (string * ToolInfo.t) :=
  [ ("hayabusa", tool "https://github.com/Yamato-Security/hayabusa"
       ["hayabusa"; "Hayabusa"] critical "rust"
       "Windows event log fast forensics timeline generator");
    ("uac", tool "https://github.com/tclahr/uac"
       ["\buac\b"; "UAC"; "unix.*artifacts.*collector"] high "shell"
       "Unix-like Artifacts Collector");
    ("chainsaw", tool "https://github.com/countercept/chainsaw"
       ["chainsaw"; "Chainsaw"] high "rust"
       "Rapidly Search and Hunt through Windows Event Logs");
    ("sigma", tool "https://github.com/SigmaHQ/sigma"
       ["sigma"; "Sigma"; "sigma.*rule"] critical "python"
       "Generic Signature Format for SIEM Systems");
    ("yara", tool "https://github.com/VirusTotal/yara"
       ["yara"; "YARA"; "\.yar\b"; "\.yara\b"] critical "c"
       "Pattern matching engine for malware research");
    ("volatility", tool "https://github.com/volatilityfoundation/volatility3"
       ["volatility"; "Volatility"; "vol\.py"] critical "python"
       "Advanced memory forensics framework");
    ("plaso", tool "https://github.com/log2timeline/plaso"
       ["plaso"; "Plaso"; "log2timeline"] high "python"
       "Super timeline all the things");
    ("autopsy", tool "https://github.com/sleuthkit/autopsy"
       ["autopsy"; "Autopsy"] high "java"
       "Digital forensics platform");
    ("sleuthkit", tool "https://github.com/sleuthkit/sleuthkit"
       ["sleuthkit"; "SleuthKit"; "tsk_"] high "c"
       "Library and collection of command line tools");
    ("capa", tool "https://github.com/mandiant/capa"
       ["\bcapa\b"; "CAPA"] high "python"
       "Automatically identify capabilities in executable files");
    ("osquery", tool "https://github.com/osquery/osquery"
       ["osquery"; "OSQuery"] high "cpp"
       "SQL powered operating system instrumentation framework");
    ("regripper", tool "https://github.com/keydet89/RegRipper3.0"
       ["regripper"; "RegRipper"; "rip\.pl"] medium "perl"
       "Windows Registry data extraction tool");
    ("evtx", tool "https://github.com/omerbenamram/evtx"
       ["evtx"; "EVTX"; "\.evtx"] high "rust"
       "Windows XML Event Log parser");
    ("loki", tool "https://github.com/Neo23x0/Loki"
       ["\bloki\b"; "Loki"] medium "python"
       "Simple IOC and YARA Scanner");
    ("thor", tool "https://github.com/NextronSystems/thor-lite"
       ["thor"; "THOR"] medium "go"
       "Compromise Assessment Scanner");
    ("densityscout", tool "https://github.com/cert-ee/densityscout"
       ["densityscout"; "DensityScout"] low "c"
       "Entropy analysis tool");
    ("pe-sieve", tool "https://github.com/hasherezade/pe-sieve"
       ["pe-sieve"; "pesieve"] medium "cpp"
       "Scans a given process for various types of in-memory modifications");
    ("hollows_hunter", tool "https://github.com/hasherezade/hollows_hunter"
       ["hollows_hunter"; "hollows-hunter"] medium "cpp"
       "Scans all running processes for various types of in-memory modifications");
    ("winpmem", tool "https://github.com/Velocidx/WinPmem"
       ["winpmem"; "WinPmem"] high "cpp"
       "Windows physical memory acquisition tool");
    ("linpmem", tool "https://github.com/Velocidx/Linpmem"
       ["linpmem"; "Linpmem"] high "cpp"
       "Linux physical memory acquisition tool") ].

Definition github_patterns : list string :=
  [ "https?://github\.com/([^/]+)/([^/\s\)]+)";
    "github\.com/([^/]+)/([^/\s\)]+)";
    "raw\.githubusercontent\.com/([^/]+)/([^/]+)";
    "api\.github\.com/repos/([^/]+)/([^/]+)" ].

Definition download_patterns : list string :=
  [ "https?://[^\s]+\.exe";
    "https?://[^\s]+\.zip";
    "https?://[^\s]+\.tar\.gz";
    "https?://[^\s]+\.deb";
    "https?://[^\s]+\.rpm";
    "https?://releases\.github\.com/[^\s]+" ].

(** [exe_patterns] of [analyze_vql_query]. *)
Definition exe_patterns : list string :=
  [ "(\w+\.exe)";
    "(\w+\.dll)";
    "(\w+\.sys)";
    "/usr/bin/(\w+)";
    "/bin/(\w+)";
    "C:\\Windows\\System32\\(\w+\.exe)" ].

(** The pattern with which [find_known_tools] takes a catalog URL apart. *)
Definition repo_url_pattern : string := "github\.com/([^/]+)/([^/]+)".

(** ** Extraction and aggregation *)

(** [repo.split('?')[0].split('#')[0].rstrip('.,;)')] *)
Definition clean_repository_name (repo : string) : string :=
  Text.rstrip ".,;)" (Text.before_first "#" (Text.before_first "?" repo)).

(** [f"{org}/{repo}"] *)
Definition repo_key (org repo : string) : string := org +:+ "/" +:+ repo.

(** The record that [find_github_repositories] creates. *)
Definition new_repository (org repo : string) : Repo.t :=
  {| Repo.organization := org;
     Repo.repository_name := repo;
     Repo.repository_url := "https://github.com/" +:+ org +:+ "/" +:+ repo;
     Repo.referenced_in_artifacts := [];
     Repo.referenced_in_packs := ∅;
     Repo.full_urls_found := ∅;
     Repo.priority := unknown;
     Repo.language := "unknown";
     Repo.stars := 0;
     Repo.license := "unknown";
     Repo.tool_name := None;
     Repo.priority_score := None;
     Repo.priority_category := None;
     Repo.estimated_importance := None;
     Repo.fork_recommended := None |}.

(** The record that [find_known_tools] creates, with the back-reference
    [tool_name]. *)
Definition new_tool_repository (org repo name : string) (info : ToolInfo.t) : Repo.t :=
  {| Repo.organization := org;
     Repo.repository_name := repo;
     Repo.repository_url := ToolInfo.repo_url info;
     Repo.referenced_in_artifacts := [];
     Repo.referenced_in_packs := ∅;
     Repo.full_urls_found := ∅;
     Repo.priority := ToolInfo.priority info;
     Repo.language := ToolInfo.language info;
     Repo.stars := 0;
     Repo.license := "unknown";
     Repo.tool_name := Some name;
     Repo.priority_score := None;
     Repo.priority_category := None;
     Repo.estimated_importance := None;
     Repo.fork_recommended := None |}.

(** The body of the inner loop of [find_github_repositories], for one
    match object. *)
Definition record_github_match (artifact_name pack_name : string)
    (st : AnalysisState) (m : Re.re_match) : AnalysisState :=
  match Re.groups m with
  | org :: repo :: _ =>
      let repo := clean_repository_name repo in
      let key := repo_key org repo in
      add_organization org
        (with_repositories
           (fun repos =>
              Dict.alter
                (fun r => Repo.add_url (Re.group0 m)
                            (Repo.add_reference artifact_name pack_name r))
                key
                (Dict.setdefault key (new_repository org repo) repos))
           st)
  | _ => st
  end.

Definition find_github_repositories (content artifact_name pack_name : string)
    (st : AnalysisState) : AnalysisState :=
  fold_left
    (fun st pattern =>
       fold_left (record_github_match artifact_name pack_name)
         (Re.finditer true pattern content) st)
    github_patterns st.

(** The part of [find_known_tools] under
    [if 'github.com' in tool_info['repo_url']]. *)
Definition record_tool_repository (name : string) (info : ToolInfo.t)
    (artifact_name pack_name : string) (st : AnalysisState) : AnalysisState :=
  if Text.contains "github.com" (ToolInfo.repo_url info) then
    match Re.search false repo_url_pattern (ToolInfo.repo_url info) with
    | Some m =>
        match Re.groups m with
        | [org; repo] =>
            let key := repo_key org repo in
            with_repositories
              (fun repos =>
                 Dict.alter
                   (fun r => Repo.set_tier (ToolInfo.priority info) (ToolInfo.language info)
                               (Repo.add_reference artifact_name pack_name r))
                   key
                   (Dict.setdefault key (new_tool_repository org repo name info) repos))
              st
        | _ => st
        end
    | None => st
    end
  else st.

(** Create-or-update of the tool record, shared by [find_known_tools] and
    [analyze_vql_query]. *)
Definition record_tool (name : string) (info : ToolInfo.t)
    (artifact_name pack_name matched : string) (st : AnalysisState) : AnalysisState :=
  with_tools
    (fun tools =>
       Dict.alter (Tool.add_reference artifact_name pack_name matched) name
         (Dict.setdefault name (Tool.create name info) tools))
    st.

(** The body of [find_known_tools] for one pattern that was found. *)
Definition record_tool_hit (name : string) (info : ToolInfo.t)
    (artifact_name pack_name pattern : string) (st : AnalysisState) : AnalysisState :=
  record_tool_repository name info artifact_name pack_name
    (record_tool name info artifact_name pack_name pattern st).

Definition find_known_tools (content artifact_name pack_name : string)
    (st : AnalysisState) : AnalysisState :=
  fold_left
    (fun st '(name, info) =>
       fold_left
         (fun st pattern =>
            if Re.found true pattern content
            then record_tool_hit name info artifact_name pack_name pattern st
            else st)
         (ToolInfo.patterns info) st)
    known_tools st.

(** [executable] of [analyze_vql_query]:
    [match.group(1) if match.groups() else match.group(0)] *)
Definition executable_of (m : Re.re_match) : string :=
  match Re.groups m with
  | g :: _ => g
  | [] => Re.group0 m
  end.

Definition check_executable (artifact_name pack_name : string)
    (st : AnalysisState) (executable : string) : AnalysisState :=
  fold_left
    (fun st '(name, info) =>
       if existsb (fun p => Re.found true p executable) (ToolInfo.patterns info)
       then record_tool name info artifact_name pack_name executable st
       else st)
    known_tools st.

Definition analyze_vql_query (vql_query artifact_name pack_name : string)
    (st : AnalysisState) : AnalysisState :=
  fold_left
    (fun st pattern =>
       fold_left (check_executable artifact_name pack_name)
         (map executable_of (Re.finditer true pattern vql_query)) st)
    exe_patterns st.

(** *** Download URLs *)

Fixpoint after_colon (s : string) : string :=
  match s with
  | EmptyString => EmptyString
  | String c s' => if Ascii.eqb c ":" then s' else after_colon s'
  end.

Fixpoint before_any (seps : string) (s : string) : string :=
  match s with
  | EmptyString => EmptyString
  | String c s' =>
      if Text.char_in seps c then EmptyString else String c (before_any seps s')
  end.

(** The host part of a URL that starts with a scheme, as every match of
    [download_patterns] does: what follows [scheme://] up to the first of
    [/], [?], [#]. *)
Definition netloc_of (url : string) : string :=
  match after_colon url with
  | String "/" (String "/" rest) => before_any "/?#" rest
  | _ => EmptyString
  end.

(** *** The validation of a bracketed host

    [urlsplit] of current CPython checks a host part that has both square
    brackets with [_check_bracketed_netloc]: the bracketed text must be an
    IPv6 address as [ipaddress.ip_address] reads it, or have the
    [IPvFuture] form, with nothing before the bracket and only a port
    after it.  (Releases before 3.11.4 did not validate the host.) *)

(** [sep in s] for a character. *)
Definition has_char (sep : ascii) (s : string) : bool := Text.char_in s sep.

(** [s.partition(sep)[2]]: the text after the first [sep], empty when
    there is none. *)
Fixpoint after_first (sep : ascii) (s : string) : string :=
  match s with
  | EmptyString => EmptyString
  | String c s' => if Ascii.eqb c sep then s' else after_first sep s'
  end.

(** [s.rpartition(sep)[2]]: the text after the last [sep], all of [s]
    when there is none. *)
Fixpoint after_last (sep : ascii) (s : string) : string :=
  match s with
  | EmptyString => EmptyString
  | String c s' =>
      if has_char sep s' then after_last sep s'
      else if Ascii.eqb c sep then s'
      else s
  end.

(** [s.split(sep)] *)
Fixpoint split (sep : ascii) (s : string) : list string :=
  match s with
  | EmptyString => [EmptyString]
  | String c s' =>
      if Ascii.eqb c sep then EmptyString :: split sep s'
      else match split sep s' with
           | part :: parts => String c part :: parts
           | [] => [String c EmptyString]
           end
  end.

Definition nonempty (s : string) : bool :=
  match s with EmptyString => false | String _ _ => true end.

(** [_DECIMAL_DIGITS] and [_HEX_DIGITS] of [ipaddress]. *)
Definition decimal_digits : string := "0123456789".
Definition hex_digits : string := "0123456789ABCDEFabcdef".

Definition is_hex (c : ascii) : bool := Text.char_in hex_digits c.

Fixpoint decimal_value (acc : N) (s : string) : N :=
  match s with
  | EmptyString => acc
  | String c s' => decimal_value (10 * acc + (Text.code c - 48))%N s'
  end.

(** [IPv4Address._parse_octet] succeeds: decimal digits, at most three,
    no leading zero, at most 255. *)
Definition valid_octet (s : string) : bool :=
  nonempty s
  && Text.all_in decimal_digits s
  && (String.length s <=? 3)%nat
  && (String.eqb s "0" || negb (Text.starts_with "0" s))
  && (decimal_value 0 s <=? 255)%N.

(** [IPv4Address(s)] succeeds. *)
Definition valid_ipv4 (s : string) : bool :=
  negb (has_char "/" s)
  && (length (split "." s) =? 4)%nat
  && forallb valid_octet (split "." s).

(** [_parse_hextet] succeeds: one to four hexadecimal digits. *)
Definition valid_hextet (s : string) : bool :=
  nonempty s && Text.all_in hex_digits s && (String.length s <=? 4)%nat.

(** The parts of an address between its colons, an IPv4-style last part
    replaced by the two hextets that stand for it ([None]: that part is
    not an IPv4 address). *)
Definition hextet_parts (parts : list string) : option (list string) :=
  match List.last parts EmptyString with
  | suffix =>
      if has_char "." suffix then
        if valid_ipv4 suffix then Some (List.removelast parts ++ ["0"; "0"]) else None
      else Some parts
  end.

(** The positions, counted from 1, of the empty parts that are neither
    the first nor the last: where a [::] stands. *)
Definition skip_indexes (parts : list string) : list nat :=
  omap (fun '(i, part) => if nonempty part then None else Some i)
    (List.removelast (List.tl (List.combine (List.seq 0 (length parts)) parts))).

(** The checks of [_BaseV6._ip_int_from_string] on the parts. *)
Definition valid_hextets (parts : list string) : bool :=
  let n := length parts in
  let first_empty := negb (nonempty (List.hd EmptyString parts)) in
  let last_empty := negb (nonempty (List.last parts EmptyString)) in
  (n <=? 9)%nat &&
  match skip_indexes parts with
  | [] =>
      (n =? 8)%nat && negb first_empty && negb last_empty
      && forallb valid_hextet parts
  | [skip_index] =>
      let parts_hi := if first_empty then Nat.pred skip_index else skip_index in
      let parts_lo :=
        if last_empty then Nat.pred (n - skip_index - 1) else n - skip_index - 1 in
      (if first_empty then (parts_hi =? 0)%nat else true)
      && (if last_empty then (parts_lo =? 0)%nat else true)
      && (parts_hi + parts_lo <=? 7)%nat
      && forallb valid_hextet (List.firstn parts_hi parts)
      && forallb valid_hextet (List.skipn (n - parts_lo) parts)
  | _ => false
  end.

(** [IPv6Address(s)] succeeds: no slash, a scope id after [%] that is
    not empty and has no [%], and at least three parts that pass the
    checks. *)
Definition valid_ipv6 (s : string) : bool :=
  let addr := Text.before_first "%" s in
  let scope_id := after_first "%" s in
  negb (has_char "/" s)
  && (if has_char "%" s then nonempty scope_id && negb (has_char "%" scope_id) else true)
  && nonempty addr
  && (3 <=? length (split ":" addr))%nat
  && match hextet_parts (split ":" addr) with
     | Some parts => valid_hextets parts
     | None => false
     end.

Fixpoint drop_hex (s : string) : string :=
  match s with
  | EmptyString => EmptyString
  | String c s' => if is_hex c then drop_hex s' else s
  end.

(** [re.match(r"\Av[a-fA-F0-9]+\..+\Z", hostname)] for a host name that
    starts with [v]. *)
Definition ipvfuture (rest : string) : bool :=
  match rest with
  | String c _ =>
      is_hex c
      && match drop_hex rest with
         | String "." more =>
             nonempty more && negb (has_char "010" more)
         | _ => false
         end
  | EmptyString => false
  end.

(** [_check_bracketed_host] does not raise. *)
Definition bracketed_host_ok (hostname : string) : bool :=
  match hostname with
  | String "v" rest => ipvfuture rest
  | _ => negb (valid_ipv4 hostname) && valid_ipv6 hostname
  end.

(** [_check_bracketed_netloc] does not raise. *)
Definition bracketed_netloc_ok (netloc : string) : bool :=
  let hostname_and_port := after_last "@" netloc in
  if has_char "[" hostname_and_port then
    let bracketed := after_first "[" hostname_and_port in
    let port := after_first "]" bracketed in
    negb (nonempty (Text.before_first "[" hostname_and_port))
    && (negb (nonempty port) || Text.starts_with ":" port)
    && bracketed_host_ok (Text.before_first "]" bracketed)
  else bracketed_host_ok (Text.before_first ":" hostname_and_port).

(** [urlparse(url).netloc] for a URL that starts with [http://] or
    [https://] and has no white space, as every match of
    [download_patterns] does.  [urlparse] raises [ValueError] ([None]
    here) when the host part has a square bracket without its partner, or
    has both and fails the validation above. *)
Definition urlparse_netloc (url : string) : option string :=
  let n := netloc_of url in
  if xorb (has_char "[" n) (has_char "]" n) then None
  else if has_char "[" n && negb (bracketed_netloc_ok n) then None
  else Some n.

(** How a method that can raise ends: normally, or by an exception that
    leaves the state as mutated so far. *)
Inductive Outcome : Type :=
| Done (st : AnalysisState)
| Raised (st : AnalysisState).

Definition state_of (o : Outcome) : AnalysisState :=
  match o with Done st => st | Raised st => st end.

Definition completed (o : Outcome) : bool :=
  match o with Done _ => true | Raised _ => false end.

(** A [for] loop whose body can raise. *)
Fixpoint for_each {A : Type} (body : AnalysisState -> A -> Outcome) (l : list A)
    (st : AnalysisState) : Outcome :=
  match l with
  | [] => Done st
  | x :: l' =>
      match body st x with
      | Done st' => for_each body l' st'
      | Raised st' => Raised st'
      end
  end.

(** The body of the inner loop of [find_download_urls], for one matched
    URL. *)
Definition record_download (artifact_name pack_name : string)
    (st : AnalysisState) (url : string) : Outcome :=
  match urlparse_netloc url with
  | None => Raised st
  | Some domain =>
      Done (with_dependencies
              (fun deps =>
                 Dict.alter (Dep.add_reference url artifact_name pack_name) domain
                   (Dict.setdefault domain (Dep.create domain) deps))
              st)
  end.

Definition find_download_urls (content artifact_name pack_name : string)
    (st : AnalysisState) : Outcome :=
  for_each
    (fun st pattern =>
       for_each (record_download artifact_name pack_name)
         (map Re.group0 (Re.finditer true pattern content)) st)
    download_patterns st.

(** ** Documents and bundles *)

(** An element of [artifact_data['sources']], by what the body of the
    loop over the sources does with it:
    - [WithQuery q]: a mapping whose [query] is the string [q];
    - [WithoutQuery]: a value for which ['query' in source] is false (a
      mapping without that key, a string that does not contain the word, a
      list that does not hold it);
    - [IllTyped]: a value on which the body raises [TypeError]: a number,
      a truth value or null (['query' in source] raises), a mapping whose
      [query] is not a string ([re.finditer] raises before anything is
      recorded), a string that contains the word or a list that holds it
      ([source['query']] raises). *)
Inductive SourceEntry : Type :=
| WithQuery (q : string)
| WithoutQuery
| IllTyped.

(** [source['query']], when the loop reads one. *)
Definition query (source : SourceEntry) : option string :=
  match source with
  | WithQuery q => Some q
  | _ => None
  end.

(** What [yaml.safe_load] makes of a file.  [Mapping name sources] is a
    non-empty mapping: [name] is its value under ['name'] ([None]: no such
    key; a value that is not a string is only stored and compared, and is
    read as a string of its own), [sources] what iterating its value under
    ['sources'] gives ([None]: no such key; a value that cannot be
    iterated, a number or null, raises at once and is [Some [IllTyped]]).
    [OtherValue] is every value that is not a non-empty mapping (a scalar,
    a list, the empty document, the empty mapping). *)
Inductive StructuredForm : Type :=
| ParseFails
| OtherValue
| Mapping (name : option string) (sources : option (list SourceEntry)).

(** A configuration file found in an extracted bundle: [stem] is
    [artifact_file.stem], [content] what reading it gives ([None]: the file
    cannot be read). *)
Record ArtifactFile : Type := {
  stem : string;
  content : option string;
  parsed : StructuredForm
}.

(** The lines the analyzer prints about a bundle or a document. *)
Inductive Event : Type :=
| Found (pack_name : string)
| Missing (pack_name : string)
| NoPacksFound
| Analyzing (pack_name : string)
| ExtractedTo (path : string)
| ExtractFailed (pack_name : string)
| FoundArtifacts (n : nat)
| ArtifactError (file_stem : string).

(** [artifact_name] and the parsed data of [analyze_artifact_file]: a
    value that is not a mapping is either falsy or has no [get], which the
    bare [except] turns into the file's stem and no data. *)
Definition artifact_name_of (f : ArtifactFile) : string :=
  match parsed f with
  | Mapping (Some name) _ => name
  | _ => stem f
  end.

Definition sources_of (f : ArtifactFile) : list SourceEntry :=
  match parsed f with
  | Mapping _ (Some sources) => sources
  | _ => []
  end.

(** The body of the loop over [artifact_data['sources']]. *)
Definition analyze_source (artifact_name pack_name : string)
    (st : AnalysisState) (source : SourceEntry) : Outcome :=
  match source with
  | WithQuery q => Done (analyze_vql_query q artifact_name pack_name st)
  | WithoutQuery => Done st
  | IllTyped => Raised st
  end.

(** The loop over [artifact_data['sources']]; it has no [try] of its
    own, so an entry that raises ends it. *)
Definition analyze_sources (sources : list SourceEntry)
    (artifact_name pack_name : string) (st : AnalysisState) : Outcome :=
  for_each (analyze_source artifact_name pack_name) sources st.

Definition analyze_artifact_file (f : ArtifactFile) (pack_name : string)
    (st : AnalysisState) : AnalysisState * list Event :=
  match content f with
  | None => (st, [ArtifactError (stem f)])
  | Some text =>
      let artifact_name := artifact_name_of f in
      let st := find_github_repositories text artifact_name pack_name st in
      let st := find_known_tools text artifact_name pack_name st in
      match find_download_urls text artifact_name pack_name st with
      | Raised st => (st, [ArtifactError (stem f)])
      | Done st =>
          match analyze_sources (sources_of f) artifact_name pack_name st with
          | Raised st => (st, [ArtifactError (stem f)])
          | Done st => (st, [])
          end
      end
  end.

(** What [extractall] and the two [rglob] calls give for a bundle. *)
Inductive Extraction : Type :=
| ExtractionFails
| Extracted (yaml_files yml_files : list ArtifactFile).

Record PackFile : Type := {
  st_size : nat;
  extraction : Extraction
}.

(** [Path(name).stem] of a file name with one suffix. *)
Fixpoint without_suffix (s : string) : option string :=
  match s with
  | EmptyString => None
  | String c s' =>
      match without_suffix s' with
      | Some t => Some (String c t)
      | None => if Ascii.eqb c "." then Some EmptyString else None
      end
  end.

Definition path_stem (name : string) : string :=
  match name with
  | EmptyString => EmptyString
  | String c s' =>
      match without_suffix s' with
      | Some t => String c t
      | None => name
      end
  end.

(** Running the per-document method over a list of files, with its
    printed lines. *)
Definition analyze_files (files : list ArtifactFile) (pack_name : string)
    (st : AnalysisState) : AnalysisState * list Event :=
  fold_left
    (fun '(st, log) f =>
       let '(st', lines) := analyze_artifact_file f pack_name st in
       (st', log ++ lines))
    files (st, []).

Definition analyze_artifact_pack (pack_name : string) (pack : PackFile)
    (st : AnalysisState) : AnalysisState * list Event :=
  let path := "extracted_" +:+ path_stem pack_name in
  match extraction pack with
  | ExtractionFails => (st, [ExtractFailed pack_name])
  | Extracted yaml_files yml_files =>
      let artifact_files := yaml_files ++ yml_files in
      let '(st', log) :=
        analyze_files artifact_files pack_name
          (count_artifacts (length artifact_files) st) in
      (append_pack_info
         {| file_name := pack_name; file_size := st_size pack;
            artifacts_count := length artifact_files;
            extraction_path := path |} st',
       ExtractedTo path :: FoundArtifacts (length artifact_files) :: log)
  end.

(** ** Scoring *)

(** The attributes of a [dict] object.  [hasattr(d, name)] asks for an
    attribute of the object [d], not for a key of the dictionary. *)
Definition dict_attributes : list string :=
  [ "__class__"; "__class_getitem__"; "__contains__"; "__delattr__";
    "__delitem__"; "__dir__"; "__doc__"; "__eq__"; "__format__"; "__ge__";
    "__getattribute__"; "__getitem__"; "__getstate__"; "__gt__"; "__hash__";
    "__init__"; "__init_subclass__"; "__ior__"; "__iter__"; "__le__";
    "__len__"; "__lt__"; "__ne__"; "__new__"; "__or__"; "__reduce__";
    "__reduce_ex__"; "__repr__"; "__reversed__"; "__ror__"; "__setattr__";
    "__setitem__"; "__sizeof__"; "__str__"; "__subclasshook__"; "clear";
    "copy"; "fromkeys"; "get"; "items"; "keys"; "pop"; "popitem";
    "setdefault"; "update"; "values" ].

(** [hasattr(repo_info, name)] for the dictionary [repo_info]. *)
Definition hasattr (name : string) : bool :=
  bool_decide (name ∈ dict_attributes).

(** Truth value of [repo_info.get('tool_name')]. *)
Definition truthy (v : option string) : bool :=
  match v with
  | Some (String _ _) => true
  | _ => false
  end.

(** Factor 2 of [prioritize_fork_candidates]. *)
Definition tier_bonus (r : Repo.t) : Z :=
  if hasattr "tool_name" && truthy (Repo.tool_name r) then
    match Repo.priority r with
    | critical => 100
    | high => 50
    | medium => 25
    | _ => 0
    end
  else 0.

(** Factor 3. *)
Definition organization_bonus (r : Repo.t) : Z :=
  let org := Text.lower (Repo.organization r) in
  if bool_decide (org ∈ ["velocidx"; "microsoft"; "google"; "mandiant"; "fireeye"])
  then 30
  else if bool_decide (org ∈ ["yamato-security"; "countercept"; "sigmahq"])
  then 20
  else 0.

(** Factor 4. *)
Definition keyword_bonus (r : Repo.t) : Z :=
  let repo_name := Text.lower (Repo.repository_name r) in
  if existsb (fun keyword => Text.contains keyword repo_name)
       ["forensic"; "security"; "malware"; "incident"]
  then 15 else 0.

(** [priority_score] at the end of one iteration of the scoring loop. *)
Definition score (r : Repo.t) : Z :=
  (Z.of_nat (length (Repo.referenced_in_artifacts r)) * 10
   + tier_bonus r + organization_bonus r + keyword_bonus r)%Z.

Definition categorize (s : Z) : Category :=
  if (80 <=? s)%Z then HighPriority
  else if (40 <=? s)%Z then MediumPriority
  else LowPriority.

Definition score_record (r : Repo.t) : Repo.t :=
  Repo.set_score (score r) (categorize (score r)) r.

(** [fork_candidates[c].append(repo_info)] *)
Definition push (c : Category) (key : string) (fc : ForkCandidates) : ForkCandidates :=
  set_bucket c (bucket c fc ++ [key]) fc.

(** [x['priority_score']] of a bucket entry. *)
Definition score_of (repos : dict Repo.t) (key : string) : Z :=
  match Dict.get key repos with
  | Some r => default 0%Z (Repo.priority_score r)
  | None => 0%Z
  end.

(** [l.sort(key=..., reverse=True)]: Python's sort is stable, also with
    [reverse=True]; an element goes before the first one whose key is not
    larger than its own. *)
Fixpoint insert_desc (key : string -> Z) (x : string) (l : list string) : list string :=
  match l with
  | [] => [x]
  | y :: l' =>
      if (key x <? key y)%Z then y :: insert_desc key x l' else x :: y :: l'
  end.

Definition sort_desc (key : string -> Z) (l : list string) : list string :=
  foldr (insert_desc key) [] l.

(** The scoring loop runs over the items in insertion order; an iteration
    changes the record it visits and appends it to one bucket. *)
Definition prioritize_fork_candidates (st : AnalysisState) : AnalysisState :=
  let repos := prod_map id score_record <$> repositories_found st in
  let fc :=
    fold_left
      (fun fc '(key, r) => push (categorize (score r)) key fc)
      (repositories_found st) (fork_candidates st) in
  let sorted (c : Category) := sort_desc (score_of repos) (bucket c fc) in
  with_fork_candidates
    (fun _ =>
       {| high_priority := sorted HighPriority;
          medium_priority := sorted MediumPriority;
          low_priority := sorted LowPriority |})
    (with_repositories (fun _ => repos) st).

Definition enrich_record (r : Repo.t) : Repo.t :=
  Repo.set_enrichment (length (Repo.referenced_in_artifacts r))
    (40 <=? default 0 (Repo.priority_score r))%Z r.

Definition enrich_repository_info (st : AnalysisState) : AnalysisState :=
  with_repositories (fmap (prod_map id enrich_record)) st.

(** The conversion of the sets to lists keeps their members and is left
    out. *)
Definition post_process_analysis (st : AnalysisState) : AnalysisState :=
  enrich_repository_info (prioritize_fork_candidates st).

(** ** The run *)

(** The bundles under [artifact_packs_dir], by file name. *)
Definition FileSystem : Type := string -> option PackFile.

Definition expected_packs : list string :=
  ["artifact_pack.zip"; "artifact_pack_v2.zip"].

Definition report_presence (fs : FileSystem) (pack_name : string) : Event :=
  match fs pack_name with
  | Some _ => Found pack_name
  | None => Missing pack_name
  end.

Definition present_packs (fs : FileSystem) : list (string * PackFile) :=
  omap (fun pack_name => pair pack_name <$> fs pack_name) expected_packs.

Definition analyze_packs (packs : list (string * PackFile)) (st : AnalysisState)
    : AnalysisState * list Event :=
  fold_left
    (fun '(st, log) '(pack_name, pack) =>
       let '(st', lines) := analyze_artifact_pack pack_name pack st in
       (st', log ++ Analyzing pack_name :: lines))
    packs (st, []).

(** [analyze_all_packs] up to and including post-processing; what follows
    in the source only writes the reports. *)
Definition analyze_all_packs (fs : FileSystem) (st : AnalysisState)
    : AnalysisState * list Event :=
  let log := report_presence fs <$> expected_packs in
  match present_packs fs with
  | [] => (st, log ++ [NoPacksFound])
  | pack_files =>
      let '(st', lines) := analyze_packs pack_files st in
      (post_process_analysis st', log ++ lines)
  end.

(** A run of the script: a fresh analyzer, then [analyze_all_packs]. *)
Definition run (fs : FileSystem) : AnalysisState * list Event :=
  analyze_all_packs fs initial_results.

(** * Vocabulary of the properties *)

Module DictSpec.
Section DictSpec.
Context {V : Type}.
Implicit Types (d : dict V).

(** A property of all values. *)
Definition all (P : V -> Prop) d : Prop := forall k v, (k, v) ∈ d -> P v.

(** [d'] has every key of [d], with a value related by [R]. *)
Definition lifts (R : V -> V -> Prop) d d' : Prop :=
  forall k v, Dict.get k d = Some v ->
    exists v', Dict.get k d' = Some v' /\ R v v'.
End DictSpec.
End DictSpec.

Module RepoSpec.
Definition refs_nodup (r : Repo.t) : Prop := NoDup (Repo.referenced_in_artifacts r).

(** [r'] is [r] after more sightings: nothing that was recorded is
    lost. *)
Record grows (r r' : Repo.t) : Prop := {
  grows_artifacts : Repo.referenced_in_artifacts r ⊆ Repo.referenced_in_artifacts r';
  grows_packs : Repo.referenced_in_packs r ⊆ Repo.referenced_in_packs r';
  grows_urls : Repo.full_urls_found r ⊆ Repo.full_urls_found r'
}.

(** [r'] is [r] after sightings that only add references. *)
Record keeps (r r' : Repo.t) : Prop := {
  keeps_organization : Repo.organization r' = Repo.organization r;
  keeps_repository_name : Repo.repository_name r' = Repo.repository_name r;
  keeps_repository_url : Repo.repository_url r' = Repo.repository_url r;
  keeps_priority : Repo.priority r' = Repo.priority r;
  keeps_language : Repo.language r' = Repo.language r;
  keeps_stars : Repo.stars r' = Repo.stars r;
  keeps_license : Repo.license r' = Repo.license r;
  keeps_tool_name : Repo.tool_name r' = Repo.tool_name r;
  keeps_artifacts :
    Repo.referenced_in_artifacts r `prefix_of` Repo.referenced_in_artifacts r';
  keeps_packs : Repo.referenced_in_packs r ⊆ Repo.referenced_in_packs r';
  keeps_urls : Repo.full_urls_found r ⊆ Repo.full_urls_found r'
}.
End RepoSpec.

Module ToolSpec.
Definition refs_nodup (r : Tool.t) : Prop := NoDup (Tool.referenced_in_artifacts r).

Record grows (r r' : Tool.t) : Prop := {
  grows_artifacts : Tool.referenced_in_artifacts r ⊆ Tool.referenced_in_artifacts r';
  grows_packs : Tool.referenced_in_packs r ⊆ Tool.referenced_in_packs r';
  grows_patterns : Tool.patterns_matched r ⊆ Tool.patterns_matched r'
}.
End ToolSpec.

Module DepSpec.
Definition refs_nodup (r : Dep.t) : Prop := NoDup (Dep.referenced_in_artifacts r).

Record grows (r r' : Dep.t) : Prop := {
  grows_artifacts : Dep.referenced_in_artifacts r ⊆ Dep.referenced_in_artifacts r';
  grows_packs : Dep.referenced_in_packs r ⊆ Dep.referenced_in_packs r';
  grows_urls : Dep.urls_found r ⊆ Dep.urls_found r'
}.
End DepSpec.

Definition source_patterns : list string :=
  github_patterns ++ download_patterns ++ exe_patterns ++ [repo_url_pattern]
  ++ concat (map (fun entry => ToolInfo.patterns entry.2) known_tools).

(** The state between two steps of the analysis: the keys of the
    registry are distinct (a Python dictionary has no two equal keys), no
    record lists a document twice, and the buckets are still empty. *)
Record well_formed (st : AnalysisState) : Prop := {
  wf_repo_keys : NoDup (Dict.keys (repositories_found st));
  wf_repos : DictSpec.all RepoSpec.refs_nodup (repositories_found st);
  wf_tools : DictSpec.all ToolSpec.refs_nodup (tools_found st);
  wf_deps : DictSpec.all DepSpec.refs_nodup (dependencies_found st);
  wf_buckets : fork_candidates st = fork_candidates initial_results
}.

(** [st'] is [st] after some steps of the analysis. *)
Record evolves (st st' : AnalysisState) : Prop := {
  ev_well_formed : well_formed st -> well_formed st';
  ev_repos :
    DictSpec.lifts RepoSpec.grows (repositories_found st) (repositories_found st');
  ev_tools : DictSpec.lifts ToolSpec.grows (tools_found st) (tools_found st');
  ev_deps :
    DictSpec.lifts DepSpec.grows (dependencies_found st) (dependencies_found st')
}.

(** The order of a bucket after its sort: no key is larger than the one
    before it. *)
Definition descending (key : string -> Z) (a b : string) : Prop :=
  (key b <= key a)%Z.

(** The keys that the scoring loop appends to bucket [c], in the order
    in which it meets them. *)
Definition bucketed (c : Category) (repos : dict Repo.t) : list string :=
  (filter (fun item => categorize (score item.2) = c) repos).*1.

(** A bundle whose archive extracts. *)
Definition extractable (p : PackFile) : bool :=
  match extraction p with
  | Extracted _ _ => true
  | ExtractionFails => false
  end.

(** The bundles that are present and extract. *)
Definition usable (fs : FileSystem) (pack_name : string) : bool :=
  match fs pack_name with
  | Some p => extractable p
  | None => false
  end.

(** The directory without the bundles that fail to extract. *)
Definition without_failed (fs : FileSystem) : FileSystem :=
  fun pack_name =>
    match fs pack_name with
    | Some p => if extractable p then Some p else None
    | None => None
    end.

(** A step of the analysis of one document: it leaves the list of
    analyzed bundles and the artifact count alone. *)
Definition same_bundles (st st' : AnalysisState) : Prop :=
  artifact_packs_analyzed st' = artifact_packs_analyzed st
  /\ total_artifacts st' = total_artifacts st.

(** The decoration that [clean_repository_name] strips from a captured
    repository name [repo +:+ punct +:+ tail]: [repo] is [plain] (no [?],
    no [#], no trailing one of [. , ; )]), [punct] consists of those four
    characters, and [tail] is empty or starts a query string or a
    fragment. *)
Fixpoint lacks (c : ascii) (s : string) : bool :=
  match s with
  | EmptyString => true
  | String a s' => negb (Ascii.eqb a c) && lacks c s'
  end.

Definition plain (repo : string) : bool :=
  lacks "?" repo && lacks "#" repo
  && bool_decide (Text.rstrip ".,;)" repo = repo).

Definition trailing_punctuation (punct : string) : bool :=
  Text.all_in ".,;)" punct.

Definition query_or_fragment (tail : string) : bool :=
  match tail with
  | EmptyString => true
  | String c _ => Text.char_in "?#" c
  end.


Definition tool_has (key artifact_name pack_name matched : string)
    (st : AnalysisState) : Prop :=
  exists t,
    Dict.get key (tools_found st) = Some t
    /\ artifact_name ∈ Tool.referenced_in_artifacts t
    /\ pack_name ∈ Tool.referenced_in_packs t
    /\ matched ∈ Tool.patterns_matched t.


(** * Inputs of the worked examples *)

(** The state after a document that only names the tool [sigma], and the
    record this leaves for the tool's repository. *)
Definition sigma_named : AnalysisState :=
  find_known_tools "uses sigma rules" "Doc.One" "artifact_pack.zip" initial_results.

Definition sigma_record : Repo.t :=
  {| Repo.organization := "SigmaHQ";
     Repo.repository_name := "sigma";
     Repo.repository_url := "https://github.com/SigmaHQ/sigma";
     Repo.referenced_in_artifacts := ["Doc.One"];
     Repo.referenced_in_packs := {["artifact_pack.zip"]};
     Repo.full_urls_found := ∅;
     Repo.priority := critical;
     Repo.language := "python";
     Repo.stars := 0;
     Repo.license := "unknown";
     Repo.tool_name := Some "sigma";
     Repo.priority_score := None;
     Repo.priority_category := None;
     Repo.estimated_importance := None;
     Repo.fork_recommended := None |}.

(** A file that is not valid YAML (the flow sequence is never closed). *)
Definition broken_file : ArtifactFile :=
  {| stem := "Broken.Artifact";
     content := Some "name: [unclosed
see https://github.com/Velocidx/velociraptor and yara, from http://example.org/tool.zip";
     parsed := ParseFails |}.


(** A directory with the first bundle only, holding one [.yaml] file. *)
Definition one_document (f : ArtifactFile) : FileSystem :=
  fun pack_name =>
    if decide (pack_name = "artifact_pack.zip")
    then Some {| st_size := 1024; extraction := Extracted [f] [] |}
    else None.

(** A document with a link into the sigma repository and the word
    [sigma]. *)
Definition sigma_document : ArtifactFile :=
  {| stem := "sigma_rules";
     content := Some "name: Custom.Sigma.Rules
description: see https://github.com/SigmaHQ/sigma/blob/master/rules/x.yml for sigma
";
     parsed := Mapping (Some "Custom.Sigma.Rules") None |}.

(** A document that names the tool [yara] and has no link. *)
Definition yara_document : ArtifactFile :=
  {| stem := "yara_scan";
     content := Some "name: Custom.Yara.Scan
description: scans files with yara
";
     parsed := Mapping (Some "Custom.Yara.Scan") None |}.

(** The record of [key] after a run ([sigma_record] when there is none). *)
Definition record_after (fs : FileSystem) (key : string) : Repo.t :=
  default sigma_record (Dict.get key (repositories_found (run fs).1)).

(** * Vocabulary of the matcher's properties *)

(** Every character of [s] satisfies [ok]. *)
Fixpoint every (ok : ascii -> bool) (s : string) : bool :=
  match s with
  | EmptyString => true
  | String c s' => ok c && every ok s'
  end.

(** Some atom of the expression accepts the character. *)
Definition accepted (ignorecase : bool) (r : Re.regex) (c : ascii) : bool :=
  existsb
    (fun n => match n with
              | Re.NAtom a _ => Re.atom_ok ignorecase a c
              | _ => false
              end)
    r.

(** The first of [exe_patterns], compiled. *)
Definition exe_regex : Re.regex :=
  [ Re.NOpen; Re.NAtom Re.AWord Re.OneOrMore; Re.NAtom (Re.AChar ".") Re.Once;
    Re.NAtom (Re.AChar "e") Re.Once; Re.NAtom (Re.AChar "x") Re.Once;
    Re.NAtom (Re.AChar "e") Re.Once; Re.NClose ].

Definition osqueryi_path : string := "C:\Windows\System32\osqueryi.exe".

(** The structured form has a source entry whose query string contains
    [needle]. *)
Definition has_query_with (needle : string) (f : ArtifactFile) : Prop :=
  exists source before after,
    source ∈ sources_of f
    /\ query source = Some (before +:+ needle +:+ after).

(** The loop over the sources reaches such an entry: no entry before it
    makes the loop raise. *)
Definition reaches_query_with (needle : string) (f : ArtifactFile) : Prop :=
  exists earlier later before after,
    sources_of f = earlier ++ WithQuery (before +:+ needle +:+ after) :: later
    /\ IllTyped ∉ earlier.

(** [urlparse] accepts every URL that the download pass matches in
    [text]. *)
Definition parses_all_urls (text : string) : bool :=
  forallb
    (fun pattern =>
       forallb (fun url => bool_decide (is_Some (urlparse_netloc url)))
         (map Re.group0 (Re.finditer true pattern text)))
    download_patterns.

(** What a successful attempt has consumed. *)
Definition consumed (ignorecase : bool) (r : Re.regex) (s : Re.cursor) (rest : string)
    (e : Re.cursor) : Prop :=
  exists taken left,
    rest = taken +:+ left
    /\ every (accepted ignorecase r) taken = true
    /\ length (Re.whole e) = length (Re.whole s) + String.length taken.

(** The double quote and the line feed. *)
Definition dq : string := String "034" EmptyString.
Definition nl : string := String "010" EmptyString.

(** The query string of the two documents below, as [yaml.safe_load]
    returns it. *)
Definition inventory_query : string :=
  "SELECT * FROM execve(argv=['C:\Windows\System32\osqueryi.exe', '--json'])".

(** A document whose query is a double-quoted YAML scalar, in which the
    path is written with escapes ([\\] for the backslash, [\x75] for [u]):
    the raw text does not have the word [osquery]. *)
Definition inventory_text : string :=
  "name: Custom.Windows.Inventory" +:+ nl
  +:+ "sources:" +:+ nl
  +:+ "- query: " +:+ dq
  +:+ "SELECT * FROM execve(argv=['C:\\Windows\\System32\\osq\x75eryi.exe', '--json'])"
  +:+ dq +:+ nl.

Definition inventory_document : ArtifactFile :=
  {| stem := "inventory";
     content := Some inventory_text;
     parsed := Mapping (Some "Custom.Windows.Inventory")
                 (Some [ WithQuery inventory_query ]) |}.

(** The same document with one more entry, a description that has a
    download link whose host part opens a square bracket and never closes
    it. *)
Definition bracket_text : string :=
  "name: Custom.Windows.Inventory" +:+ nl
  +:+ "description: the installer is at http://[mirror/setup.exe" +:+ nl
  +:+ "sources:" +:+ nl
  +:+ "- query: " +:+ dq
  +:+ "SELECT * FROM execve(argv=['C:\\Windows\\System32\\osq\x75eryi.exe', '--json'])"
  +:+ dq +:+ nl.

Definition bracket_document : ArtifactFile :=
  {| stem := "inventory";
     content := Some bracket_text;
     parsed := Mapping (Some "Custom.Windows.Inventory")
                 (Some [ WithQuery inventory_query ]) |}.

(** The first document with one more source entry before the one with
    the query, a bare number ([- 5] in the file): the loop over the sources
    raises on it. *)
Definition number_text : string :=
  "name: Custom.Windows.Inventory" +:+ nl
  +:+ "sources:" +:+ nl
  +:+ "- 5" +:+ nl
  +:+ "- query: " +:+ dq
  +:+ "SELECT * FROM execve(argv=['C:\\Windows\\System32\\osq\x75eryi.exe', '--json'])"
  +:+ dq +:+ nl.

Definition number_document : ArtifactFile :=
  {| stem := "inventory";
     content := Some number_text;
     parsed := Mapping (Some "Custom.Windows.Inventory")
                 (Some [ IllTyped; WithQuery inventory_query ]) |}.

(** A text that names one repository four times: in double quotes,
    before an exclamation mark, before a colon, and bare. *)
Definition punctuated_text : string :=
  "see " +:+ dq +:+ "https://github.com/VirusTotal/yara" +:+ dq
  +:+ " or https://github.com/VirusTotal/yara! or https://github.com/VirusTotal/yara:"
  +:+ " or https://github.com/VirusTotal/yara" +:+ nl.

(** The tool record of [key] after a run (an empty one when there is
    none). *)
Definition tool_after (fs : FileSystem) (key : string) : Tool.t :=
  default (Tool.create key (tool "" [] unknown "" ""))
    (Dict.get key (tools_found (run fs).1)).

(** * Vocabulary of the further properties *)

(** A property of all items of a dictionary. *)
Definition every_item {V : Type} (P : string -> V -> Prop) (d : dict V) : Prop :=
  forall k v, (k, v) ∈ d -> P k v.

(** The catalog URL of a tool, taken apart as [find_known_tools] does:
    the organization and the repository name, when the URL is a GitHub
    one. *)
Definition tool_repository (info : ToolInfo.t) : option (string * string) :=
  if Text.contains "github.com" (ToolInfo.repo_url info) then
    match Re.search false repo_url_pattern (ToolInfo.repo_url info) with
    | Some m =>
        match Re.groups m with
        | [org; repo] => Some (org, repo)
        | _ => None
        end
    | None => None
    end
  else None.

(** A catalog entry whose URL is [https://github.com/org/repo] for the
    organization and name read from it. *)
Definition catalog_entry_ok (entry : string * ToolInfo.t) : bool :=
  match tool_repository entry.2 with
  | Some (org, repo) =>
      bool_decide (ToolInfo.repo_url entry.2 = "https://github.com/" +:+ repo_key org repo)
  | None => false
  end.

(** What holds of a record of [repositories_found] under its key. *)
Record repo_sound (key : string) (r : Repo.t) : Prop := {
  sound_key : key = repo_key (Repo.organization r) (Repo.repository_name r);
  sound_url : Repo.repository_url r = "https://github.com/" +:+ key;
  sound_artifacts : Repo.referenced_in_artifacts r <> [];
  sound_packs : Repo.referenced_in_packs r <> ∅;
  sound_stars : Repo.stars r = 0%Z;
  sound_license : Repo.license r = "unknown"
}.

(** The key under which [find_known_tools] files the repository of a
    catalog tool. *)
Definition catalog_key (info : ToolInfo.t) : option string :=
  (fun '(org, repo) => repo_key org repo) <$> tool_repository info.

(** Where the tier, the language and the back-reference of a record come
    from: the record is untouched by the known-tool pass, or it has the
    tier and language of the catalog tool filed under its key, and no other
    back-reference than that tool's name. *)
Definition repo_tiered (key : string) (r : Repo.t) : Prop :=
  (Repo.priority r = unknown /\ Repo.language r = "unknown" /\ Repo.tool_name r = None)
  \/ exists name info,
       (name, info) ∈ known_tools
       /\ catalog_key info = Some key
       /\ Repo.priority r = ToolInfo.priority info
       /\ Repo.language r = ToolInfo.language info
       /\ (Repo.tool_name r = None \/ Repo.tool_name r = Some name).

(** What holds of a record of [tools_found] under its key. *)
Record tool_sound (key : string) (t : Tool.t) : Prop := {
  sound_catalog :
    exists info,
      (key, info) ∈ known_tools
      /\ Tool.repository_url t = ToolInfo.repo_url info
      /\ Tool.priority t = ToolInfo.priority info
      /\ Tool.language t = ToolInfo.language info
      /\ Tool.description t = ToolInfo.description info;
  sound_tool_name : Tool.tool_name t = key;
  sound_tool_artifacts : Tool.referenced_in_artifacts t <> [];
  sound_tool_packs : Tool.referenced_in_packs t <> ∅;
  sound_tool_patterns : Tool.patterns_matched t <> ∅
}.

(** What holds of a record of [dependencies_found] under its key. *)
Record dep_sound (key : string) (d : Dep.t) : Prop := {
  sound_domain : Dep.domain d = key;
  sound_dep_artifacts : Dep.referenced_in_artifacts d <> [];
  sound_dep_packs : Dep.referenced_in_packs d <> ∅;
  sound_dep_urls_nonempty : Dep.urls_found d <> ∅;
  sound_dep_urls : forall url, url ∈ Dep.urls_found d -> urlparse_netloc url = Some key
}.

(** The dependency record of [key] after a run (an empty one when there is
    none). *)
Definition dependency_after (fs : FileSystem) (key : string) : Dep.t :=
  default (Dep.create key) (Dict.get key (dependencies_found (run fs).1)).

(** The configuration files that the two [rglob] calls list for a bundle
    (none when the archive does not extract). *)
Definition files_of (p : PackFile) : list ArtifactFile :=
  match extraction p with
  | Extracted yaml_files yml_files => yaml_files ++ yml_files
  | ExtractionFails => []
  end.

(** * Saving the results *)

(** The Python values that the results are made of.  [PPath] is a
    [pathlib.Path] object. *)
#[warnings="-register-all"]
Inductive PyValue : Type :=
| PStr (s : string)
| PInt (z : Z)
| PBool (b : bool)
| PList (l : list PyValue)
| PDict (items : list (string * PyValue))
| PPath (p : string).

(** What [json.dump] accepts when it is given no [default]: strings,
    numbers, truth values, lists and dictionaries of such; for any other
    object it raises [TypeError]. *)
Fixpoint json_serializable (v : PyValue) : bool :=
  match v with
  | PStr _ | PInt _ | PBool _ => true
  | PList l => forallb json_serializable l
  | PDict items => forallb (fun item => json_serializable (snd item)) items
  | PPath _ => false
  end.

Definition priority_name (p : Priority) : string :=
  match p with
  | critical => "critical"
  | high => "high"
  | medium => "medium"
  | low => "low"
  | unknown => "unknown"
  end.

Definition category_name (c : Category) : string :=
  match c with
  | HighPriority => "high_priority"
  | MediumPriority => "medium_priority"
  | LowPriority => "low_priority"
  end.

Definition strings_value (l : list string) : PyValue := PList (PStr <$> l).

(** A set after [post_process_analysis] has turned it into a list. *)
Definition set_value (s : gset string) : PyValue := strings_value (elements s).

(** An entry that is there only when the key was assigned. *)
Definition optional_entry {A : Type} (key : string) (f : A -> PyValue) (v : option A)
    : list (string * PyValue) :=
  match v with
  | Some a => [(key, f a)]
  | None => []
  end.

Definition repo_value (r : Repo.t) : PyValue :=
  PDict
    ([ ("organization", PStr (Repo.organization r));
       ("repository_name", PStr (Repo.repository_name r));
       ("repository_url", PStr (Repo.repository_url r));
       ("referenced_in_artifacts", strings_value (Repo.referenced_in_artifacts r));
       ("referenced_in_packs", set_value (Repo.referenced_in_packs r));
       ("full_urls_found", set_value (Repo.full_urls_found r));
       ("priority", PStr (priority_name (Repo.priority r)));
       ("language", PStr (Repo.language r));
       ("stars", PInt (Repo.stars r));
       ("license", PStr (Repo.license r)) ]
     ++ optional_entry "tool_name" PStr (Repo.tool_name r)
     ++ optional_entry "priority_score" PInt (Repo.priority_score r)
     ++ optional_entry "priority_category" (fun c => PStr (category_name c))
          (Repo.priority_category r)
     ++ optional_entry "estimated_importance" (fun n => PInt (Z.of_nat n))
          (Repo.estimated_importance r)
     ++ optional_entry "fork_recommended" PBool (Repo.fork_recommended r)).

Definition tool_value (t : Tool.t) : PyValue :=
  PDict
    [ ("tool_name", PStr (Tool.tool_name t));
      ("repository_url", PStr (Tool.repository_url t));
      ("priority", PStr (priority_name (Tool.priority t)));
      ("language", PStr (Tool.language t));
      ("description", PStr (Tool.description t));
      ("referenced_in_artifacts", strings_value (Tool.referenced_in_artifacts t));
      ("referenced_in_packs", set_value (Tool.referenced_in_packs t));
      ("patterns_matched", set_value (Tool.patterns_matched t)) ].

Definition dep_value (d : Dep.t) : PyValue :=
  PDict
    [ ("domain", PStr (Dep.domain d));
      ("urls_found", set_value (Dep.urls_found d));
      ("referenced_in_artifacts", strings_value (Dep.referenced_in_artifacts d));
      ("referenced_in_packs", set_value (Dep.referenced_in_packs d)) ].

(** [pack_info]: its [extraction_path] is the [Path] object
    [self.output_dir / f"extracted_{pack_file.stem}"]. *)
Definition pack_value (info : PackInfo) : PyValue :=
  PDict
    [ ("file_name", PStr (file_name info));
      ("file_size", PInt (Z.of_nat (file_size info)));
      ("artifacts_count", PInt (Z.of_nat (artifacts_count info)));
      ("extraction_path", PPath (extraction_path info)) ].

(** The records of a bucket, read through the registry. *)
Definition bucket_value (repos : dict Repo.t) (keys : list string) : PyValue :=
  PList (omap (fun key => repo_value <$> Dict.get key repos) keys).

(** [self.analysis_results] as [save_analysis_results] finds it, that is
    after [post_process_analysis]; [date] is the [analysis_date] that the
    constructor took from the clock. *)
Definition results_value (date : string) (st : AnalysisState) : PyValue :=
  PDict
    [ ("artifact_packs_analyzed", PList (pack_value <$> artifact_packs_analyzed st));
      ("total_artifacts", PInt (Z.of_nat (total_artifacts st)));
      ("repositories_found",
       PDict (prod_map id repo_value <$> repositories_found st));
      ("tools_found", PDict (prod_map id tool_value <$> tools_found st));
      ("dependencies_found", PDict (prod_map id dep_value <$> dependencies_found st));
      ("organizations_found", set_value (organizations_found st));
      ("fork_candidates",
       PDict
         [ ("high_priority",
            bucket_value (repositories_found st) (high_priority (fork_candidates st)));
           ("medium_priority",
            bucket_value (repositories_found st) (medium_priority (fork_candidates st)));
           ("low_priority",
            bucket_value (repositories_found st) (low_priority (fork_candidates st))) ]);
      ("analysis_metadata",
       PDict [ ("analysis_date", PStr date); ("analyzer_version", PStr "1.0.0") ]) ].

(** How [save_analysis_results] ends: with the JSON file, the summary and
    the fork plan written, or with the [TypeError] of [json.dump], which
    nothing catches; the summary and the plan are then not written. *)
Inductive SaveOutcome : Type :=
| Saved
| SaveRaises.

Definition save_analysis_results (date : string) (st : AnalysisState) : SaveOutcome :=
  if json_serializable (results_value date st) then Saved else SaveRaises.

(** The end of [analyze_all_packs]: with no bundle in the directory it
    returns before anything is saved ([None]). *)
Definition save_after_run (date : string) (fs : FileSystem) : option SaveOutcome :=
  match present_packs fs with
  | [] => None
  | _ => Some (save_analysis_results date (run fs).1)
  end.

(** * Vocabulary of the captured groups *)

(** The atoms of an expression that stand inside a group; [inside] tells
    whether the expression starts inside one. *)
Fixpoint group_atoms (inside : bool) (r : Re.regex) : list Re.atom :=
  match r with
  | [] => []
  | Re.NOpen :: r' => group_atoms true r'
  | Re.NClose :: r' => group_atoms false r'
  | Re.NAtom a _ :: r' =>
      if inside then a :: group_atoms inside r' else group_atoms inside r'
  | Re.NBoundary :: r' => group_atoms inside r'
  end.

Definition in_group (s : Re.cursor) : bool :=
  match Re.cur s with Some _ => true | None => false end.

(** Every character captured so far satisfies [ok]. *)
Definition captured (ok : ascii -> bool) (s : Re.cursor) : Prop :=
  match Re.cur s with Some g => forallb ok g = true | None => True end
  /\ Forall (fun t => every ok t = true) (Re.closed s).

(** A negated set that lists the character [x]. *)
Definition excludes (x : ascii) (a : Re.atom) : bool :=
  match a with
  | Re.ASet true ms =>
      existsb (fun m => match m with Re.MChar c => Ascii.eqb c x | _ => false end) ms
  | _ => false
  end.

(** Every group of the pattern is made of negated sets that list [x]. *)
Definition groups_exclude (x : ascii) (pattern : string) : bool :=
  match Re.compile pattern with
  | Some r => forallb (excludes x) (group_atoms false r)
  | None => true
  end.

(** A catalog entry whose organization and repository name have no
    slash. *)
Definition catalog_entry_split (entry : string * ToolInfo.t) : bool :=
  match tool_repository entry.2 with
  | Some (org, repo) => lacks "/" org && lacks "/" repo
  | None => false
  end.

(** The organization and the name of a record have no slash. *)
Definition slash_free (r : Repo.t) : Prop :=
  lacks "/" (Repo.organization r) = true /\ lacks "/" (Repo.repository_name r) = true.

(** [organizations_found] against the registry: an organization is listed
    exactly when one of its records has a matched URL. *)
Record organizations_sound (st : AnalysisState) : Prop := {
  listed_has_record :
    forall org, org ∈ organizations_found st ->
      exists key r,
        Dict.get key (repositories_found st) = Some r
        /\ Repo.organization r = org
        /\ Repo.full_urls_found r <> ∅;
  linked_is_listed :
    every_item
      (fun _ r => Repo.full_urls_found r <> ∅ ->
                  Repo.organization r ∈ organizations_found st)
      (repositories_found st)
}.

(** The three facts about the registry that are kept together: every
    record matches its key, no organization or name has a slash, and
    [organizations_found] agrees with the records. *)
Record registry_sound (st : AnalysisState) : Prop := {
  registry_keys : every_item repo_sound (repositories_found st);
  registry_split : every_item (fun _ r => slash_free r) (repositories_found st);
  registry_organizations : organizations_sound st
}.

(** * Vocabulary of the passes *)

(** What a pass leaves alone besides its own registries: the list of
    bundles, the document count and the buckets. *)
Definition same_context (st st' : AnalysisState) : Prop :=
  artifact_packs_analyzed st' = artifact_packs_analyzed st
  /\ total_artifacts st' = total_artifacts st
  /\ fork_candidates st' = fork_candidates st.

(** The registries that a pass does not write. *)
Definition same_repositories (st st' : AnalysisState) : Prop :=
  repositories_found st' = repositories_found st
  /\ organizations_found st' = organizations_found st.

Definition same_tools (st st' : AnalysisState) : Prop :=
  tools_found st' = tools_found st.

Definition same_dependencies (st st' : AnalysisState) : Prop :=
  dependencies_found st' = dependencies_found st.

(** * Vocabulary of case folding *)

(** Two cursors that the matcher cannot tell apart when it ignores case
    and only the length of the match is read: the same kind of character
    before the cursor and as many characters matched. *)
Definition alike (s1 s2 : Re.cursor) : Prop :=
  Re.word_side (Re.prev s1) = Re.word_side (Re.prev s2)
  /\ length (Re.whole s1) = length (Re.whole s2).

(** Two attempts that both fail or both succeed with alike cursors. *)
Definition alike_results (e1 e2 : option Re.cursor) : Prop :=
  match e1, e2 with
  | Some e1, Some e2 => alike e1 e2
  | None, None => True
  | _, _ => False
  end.

(** * A document as a list of sightings *)

(** What a document makes the analyzer record, one sighting at a time: a
    match of a repository pattern, a tool with the pattern or the token
    that revealed it, the repository of a tool, a download URL. *)
Inductive Step : Type :=
| SGithub (m : Re.re_match)
| STool (name : string) (info : ToolInfo.t) (matched : string)
| SToolRepository (name : string) (info : ToolInfo.t)
| SDownload (url : string).

Definition run_step (artifact_name pack_name : string) (st : AnalysisState) (x : Step)
    : AnalysisState :=
  match x with
  | SGithub m => record_github_match artifact_name pack_name st m
  | STool name info matched => record_tool name info artifact_name pack_name matched st
  | SToolRepository name info =>
      record_tool_repository name info artifact_name pack_name st
  | SDownload url => state_of (record_download artifact_name pack_name st url)
  end.

Definition github_steps (text : string) : list Step :=
  flat_map (fun pattern => map SGithub (Re.finditer true pattern text)) github_patterns.

Definition tool_steps (text : string) : list Step :=
  flat_map
    (fun '(name, info) =>
       flat_map
         (fun pattern =>
            if Re.found true pattern text
            then [STool name info pattern; SToolRepository name info]
            else [])
         (ToolInfo.patterns info))
    known_tools.

(** The URLs that the download patterns match, in the order in which the
    pass meets them. *)
Definition matched_urls (text : string) : list string :=
  flat_map (fun pattern => map Re.group0 (Re.finditer true pattern text))
    download_patterns.

(** The URLs before the first one that [urlparse] refuses. *)
Fixpoint parsed_prefix (urls : list string) : list string :=
  match urls with
  | [] => []
  | url :: urls' =>
      match urlparse_netloc url with
      | Some _ => url :: parsed_prefix urls'
      | None => []
      end
  end.

Definition download_steps (text : string) : list Step :=
  map SDownload (parsed_prefix (matched_urls text)).

Definition executable_steps (executable : string) : list Step :=
  flat_map
    (fun '(name, info) =>
       if existsb (fun p => Re.found true p executable) (ToolInfo.patterns info)
       then [STool name info executable]
       else [])
    known_tools.

Definition query_steps (vql_query : string) : list Step :=
  flat_map
    (fun pattern =>
       flat_map executable_steps (map executable_of (Re.finditer true pattern vql_query)))
    exe_patterns.

(** The sightings of the source entries before the first one that makes
    the loop raise. *)
Fixpoint source_steps (sources : list SourceEntry) : list Step :=
  match sources with
  | [] => []
  | WithQuery q :: sources' => query_steps q ++ source_steps sources'
  | WithoutQuery :: sources' => source_steps sources'
  | IllTyped :: _ => []
  end.

(** The sightings of a document; they depend on the document alone. *)
Definition steps_of (f : ArtifactFile) : list Step :=
  match content f with
  | None => []
  | Some text =>
      github_steps text ++ tool_steps text ++ download_steps text
      ++ (if parses_all_urls text then source_steps (sources_of f) else [])
  end.

(** A sighting of a tool of the catalog. *)
Definition from_catalog (x : Step) : Prop :=
  match x with
  | STool name info _ | SToolRepository name info => (name, info) ∈ known_tools
  | _ => True
  end.

(** The registries already hold what the sighting [x] of the document
    [artifact_name] records, whatever the bundle. *)
Definition seen (artifact_name : string) (x : Step) (st : AnalysisState) : Prop :=
  match x with
  | SGithub m =>
      match Re.groups m with
      | org :: repo :: _ =>
          org ∈ organizations_found st
          /\ exists r,
               Dict.get (repo_key org (clean_repository_name repo))
                 (repositories_found st) = Some r
               /\ artifact_name ∈ Repo.referenced_in_artifacts r
               /\ Re.group0 m ∈ Repo.full_urls_found r
      | _ => True
      end
  | STool name info matched =>
      exists t,
        Dict.get name (tools_found st) = Some t
        /\ artifact_name ∈ Tool.referenced_in_artifacts t
        /\ matched ∈ Tool.patterns_matched t
  | SToolRepository name info =>
      match catalog_key info with
      | Some key =>
          exists r,
            Dict.get key (repositories_found st) = Some r
            /\ artifact_name ∈ Repo.referenced_in_artifacts r
            /\ Repo.priority r = ToolInfo.priority info
            /\ Repo.language r = ToolInfo.language info
      | None => True
      end
  | SDownload url =>
      match urlparse_netloc url with
      | Some domain =>
          exists d,
            Dict.get domain (dependencies_found st) = Some d
            /\ artifact_name ∈ Dep.referenced_in_artifacts d
            /\ url ∈ Dep.urls_found d
      | None => True
      end
  end.

(** The record [r] with another set of bundles. *)
Definition repo_with_packs (packs : gset string) (r : Repo.t) : Repo.t :=
  {| Repo.organization := Repo.organization r;
     Repo.repository_name := Repo.repository_name r;
     Repo.repository_url := Repo.repository_url r;
     Repo.referenced_in_artifacts := Repo.referenced_in_artifacts r;
     Repo.referenced_in_packs := packs;
     Repo.full_urls_found := Repo.full_urls_found r;
     Repo.priority := Repo.priority r;
     Repo.language := Repo.language r;
     Repo.stars := Repo.stars r;
     Repo.license := Repo.license r;
     Repo.tool_name := Repo.tool_name r;
     Repo.priority_score := Repo.priority_score r;
     Repo.priority_category := Repo.priority_category r;
     Repo.estimated_importance := Repo.estimated_importance r;
     Repo.fork_recommended := Repo.fork_recommended r |}.

Definition tool_with_packs (packs : gset string) (t : Tool.t) : Tool.t :=
  {| Tool.tool_name := Tool.tool_name t;
     Tool.repository_url := Tool.repository_url t;
     Tool.priority := Tool.priority t;
     Tool.language := Tool.language t;
     Tool.description := Tool.description t;
     Tool.referenced_in_artifacts := Tool.referenced_in_artifacts t;
     Tool.referenced_in_packs := packs;
     Tool.patterns_matched := Tool.patterns_matched t |}.

Definition dep_with_packs (packs : gset string) (d : Dep.t) : Dep.t :=
  {| Dep.domain := Dep.domain d;
     Dep.urls_found := Dep.urls_found d;
     Dep.referenced_in_artifacts := Dep.referenced_in_artifacts d;
     Dep.referenced_in_packs := packs |}.

(** [r'] is [r] but for bundle names added to [referenced_in_packs]. *)
Definition repo_adds_packs (r r' : Repo.t) : Prop :=
  Repo.referenced_in_packs r ⊆ Repo.referenced_in_packs r'
  /\ r' = repo_with_packs (Repo.referenced_in_packs r') r.

Definition tool_adds_packs (t t' : Tool.t) : Prop :=
  Tool.referenced_in_packs t ⊆ Tool.referenced_in_packs t'
  /\ t' = tool_with_packs (Tool.referenced_in_packs t') t.

Definition dep_adds_packs (d d' : Dep.t) : Prop :=
  Dep.referenced_in_packs d ⊆ Dep.referenced_in_packs d'
  /\ d' = dep_with_packs (Dep.referenced_in_packs d') d.

(** Two dictionaries with the same keys in the same order and related
    values. *)
Definition items_related {V : Type} (R : V -> V -> Prop) (d d' : dict V) : Prop :=
  Forall2 (fun x y => x.1 = y.1 /\ R x.2 y.2) d d'.

(** [st'] is [st] but for bundle names added to the records: no key is
    added, no record gains a document, a URL or a pattern or changes its
    tier, and the organizations, the bundles, the count and the buckets
    are the same. *)
Record only_packs_grow (st st' : AnalysisState) : Prop := {
  opg_bundles : artifact_packs_analyzed st' = artifact_packs_analyzed st;
  opg_total : total_artifacts st' = total_artifacts st;
  opg_organizations : organizations_found st' = organizations_found st;
  opg_buckets : fork_candidates st' = fork_candidates st;
  opg_repositories :
    items_related repo_adds_packs (repositories_found st) (repositories_found st');
  opg_tools : items_related tool_adds_packs (tools_found st) (tools_found st');
  opg_dependencies :
    items_related dep_adds_packs (dependencies_found st) (dependencies_found st')
}.

(** A directory entry for the first bundle with the one document
    [sigma_document]. *)
Definition sigma_bundle : PackFile :=
  {| st_size := 1024; extraction := Extracted [sigma_document] [] |}.

(** * Vocabulary of what never changes *)

(** [r'] is the record [r] later in the analysis: the same repository
    and the same back-reference, with the documents of [r] first. *)
Record same_identity (r r' : Repo.t) : Prop := {
  same_organization : Repo.organization r' = Repo.organization r;
  same_repository_name : Repo.repository_name r' = Repo.repository_name r;
  same_repository_url : Repo.repository_url r' = Repo.repository_url r;
  same_tool_name : Repo.tool_name r' = Repo.tool_name r;
  earlier_artifacts :
    Repo.referenced_in_artifacts r `prefix_of` Repo.referenced_in_artifacts r'
}.

(** The registries of [st'] extend those of [st]: the keys of [st] come
    first and in the same order, and every repository record of [st] is
    still there with its identity. *)
Record registries_extend (st st' : AnalysisState) : Prop := {
  repositories_extend :
    Dict.keys (repositories_found st) `prefix_of` Dict.keys (repositories_found st');
  tools_extend : Dict.keys (tools_found st) `prefix_of` Dict.keys (tools_found st');
  dependencies_extend :
    Dict.keys (dependencies_found st) `prefix_of` Dict.keys (dependencies_found st');
  records_stay :
    forall key r, Dict.get key (repositories_found st) = Some r ->
      exists r', Dict.get key (repositories_found st') = Some r' /\ same_identity r r'
}.

(** A state in which the repository pass has met a link to the yara
    repository, and a bundle whose one document names the tool. *)
Definition yara_linked : AnalysisState :=
  find_github_repositories "see https://github.com/VirusTotal/yara" "Doc.Zero"
    "artifact_pack.zip" initial_results.

Definition yara_bundle : PackFile :=
  {| st_size := 2048; extraction := Extracted [yara_document] [] |}.

(** The text [matched] belongs to the catalog tool [info]: it is one of
    its patterns, or one of its patterns is found in it. *)
Definition matches_tool (info : ToolInfo.t) (matched : string) : Prop :=
  matched ∈ ToolInfo.patterns info
  \/ existsb (fun p => Re.found true p matched) (ToolInfo.patterns info) = true.
(** * Properties *)

(** ** The regular expressions of the source *)

(** Every pattern of the source is in the fragment that [Re.compile]
    reads. *)
Lemma source_patterns_compile :
  forallb (fun p => bool_decide (is_Some (Re.compile p))) source_patterns = true.
Proof. vm_compute. reflexivity. Qed.

Example finditer_github :
  Re.finditer true "https?://github\.com/([^/]+)/([^/\s\)]+)"
     "see HTTPS://GitHub.com/SigmaHQ/sigma/blob/master/rules/x.yml, and (http://github.com/a/b.git)"
  = [ {| Re.group0 := "HTTPS://GitHub.com/SigmaHQ/sigma"; Re.groups := ["SigmaHQ"; "sigma"] |};
      {| Re.group0 := "http://github.com/a/b.git"; Re.groups := ["a"; "b.git"] |} ].
Proof. vm_compute. reflexivity. Qed.

Example search_boundary :
  Re.found true "\buac\b" "run UAC now" = true /\
  Re.found true "\buac\b" "quack" = false /\
  Re.found true "unix.*artifacts.*collector" "Unix-like Artifacts Collector" = true /\
  Re.found true "sigma.*rule" ("sigma" +:+ String "010" "rule") = false.
Proof. vm_compute. auto. Qed.

Example finditer_download :
  map Re.group0 (Re.finditer true "https?://[^\s]+\.exe" "get http://x.org/a.exe.exe/b.EXE?c now")
  = ["http://x.org/a.exe.exe/b.EXE"].
Proof. vm_compute. reflexivity. Qed.

Example finditer_executables :
  map (fun p => map executable_of
         (Re.finditer true p "execve(argv=['C:\Windows\System32\osqueryi.exe', '/usr/bin/yara'])"))
      exe_patterns
  = [["osqueryi.exe"]; []; []; ["yara"]; ["yara"]; ["osqueryi.exe"]].
Proof. vm_compute. reflexivity. Qed.

Example urlparse_netloc_examples :
  urlparse_netloc "https://a.b.c:80/x/y.zip" = Some "a.b.c:80" /\
  urlparse_netloc "HTTP://host?x.zip" = Some "host" /\
  urlparse_netloc "http://[x.exe" = None /\
  urlparse_netloc "http://[mirror]/setup.exe" = None /\
  urlparse_netloc "http://[1.2.3.4]/setup.exe" = None /\
  urlparse_netloc "http://a[::1]/setup.exe" = None /\
  urlparse_netloc "http://[::1]:8080/setup.exe" = Some "[::1]:8080" /\
  urlparse_netloc "http://user@[2001:db8::ffff:1.2.3.4]/x.zip"
  = Some "user@[2001:db8::ffff:1.2.3.4]" /\
  urlparse_netloc "http://[v1.fe80]/x.zip" = Some "[v1.fe80]".
Proof. vm_compute. repeat split; reflexivity. Qed.

(** ** Loops *)

Section Loops.
Context {A S : Type}.
Implicit Types (f : S -> A -> S) (l : list A).

(** An invariant of the body is an invariant of the loop. *)
Lemma fold_left_invariant (P : S -> Prop) f l s :
  (forall s x, x ∈ l -> P s -> P (f s x)) -> P s -> P (fold_left f l s).
Proof.
  revert s. induction l as [|x l IH]; intros s Hf Hs; simpl; [done|].
  apply IH.
  - intros s' y Hy. apply Hf. by right.
  - apply Hf; [by left | done].
Qed.

(** What one iteration establishes and the others keep holds after
    the loop. *)
Lemma fold_left_ensures (Q : A -> S -> Prop) f l s x :
  x ∈ l ->
  (forall s, Q x (f s x)) ->
  (forall s y, y ∈ l -> Q x s -> Q x (f s y)) ->
  Q x (fold_left f l s).
Proof.
  revert s. induction l as [|y l IH]; intros s Hx Hest Hkeep; simpl.
  - by apply elem_of_nil in Hx.
  - apply elem_of_cons in Hx as [->|Hx].
    + apply fold_left_invariant; [|apply Hest].
      intros s' z Hz. apply Hkeep. by right.
    + apply IH; [done|done|].
      intros s' z Hz. apply Hkeep. by right.
Qed.

(** A preorder that every iteration respects relates the state before
    the loop to the state after it. *)
Lemma fold_left_preorder (R : S -> S -> Prop) f l s :
  (forall s, R s s) ->
  (forall s1 s2 s3, R s1 s2 -> R s2 s3 -> R s1 s3) ->
  (forall s x, x ∈ l -> R s (f s x)) ->
  R s (fold_left f l s).
Proof.
  intros Hrefl Htrans Hstep.
  apply (fold_left_invariant (R s)); [|apply Hrefl].
  intros s' x Hx Hs'. eapply Htrans; [exact Hs'|]. by apply Hstep.
Qed.
End Loops.

(** ** Dictionaries *)

Module DictFacts.
Import DictSpec.
Section DictFacts.
Context {V : Type}.
Implicit Types (d : dict V) (k : string) (v : V).

Lemma get_app k d1 d2 :
  Dict.get k (d1 ++ d2) =
  match Dict.get k d1 with Some v => Some v | None => Dict.get k d2 end.
Proof.
  induction d1 as [|[k' v'] d1 IH]; simpl; [done|].
  by destruct (decide (k = k')).
Qed.

Lemma get_none k d : Dict.get k d = None <-> k ∉ Dict.keys d.
Proof.
  induction d as [|[k' v'] d IH]; simpl.
  - split; [intros _; apply not_elem_of_nil | done].
  - rewrite not_elem_of_cons. destruct (decide (k = k')); [|tauto].
    split; [done|]. by intros [? _].
Qed.

Lemma get_some_key k d v : Dict.get k d = Some v -> k ∈ Dict.keys d.
Proof.
  intros Hget. destruct (decide (k ∈ Dict.keys d)) as [|Hno]; [done|].
  apply get_none in Hno. congruence.
Qed.

Lemma get_elem k d v : Dict.get k d = Some v -> (k, v) ∈ d.
Proof.
  induction d as [|[k' v'] d IH]; simpl; [done|].
  destruct (decide (k = k')) as [->|].
  - intros [= ->]. by left.
  - intros Hget. right. by apply IH.
Qed.

Lemma elem_get k d v : NoDup (Dict.keys d) -> (k, v) ∈ d -> Dict.get k d = Some v.
Proof.
  induction d as [|[k' v'] d IH]; simpl; intros Hnd Hin.
  - by apply elem_of_nil in Hin.
  - apply NoDup_cons in Hnd as [Hk' Hnd].
    apply elem_of_cons in Hin as [[= -> ->]|Hin].
    + by rewrite decide_True.
    + destruct (decide (k = k')) as [->|]; [|by apply IH].
      exfalso. apply Hk'. unfold Dict.keys.
      change k' with ((k', v).1). by apply list_elem_of_fmap_2.
Qed.

Lemma get_alter f k k' d :
  Dict.get k (Dict.alter f k' d) =
  if decide (k = k') then f <$> Dict.get k d else Dict.get k d.
Proof.
  induction d as [|[k0 v0] d IH]; simpl.
  - by destruct (decide (k = k')).
  - destruct (decide (k' = k0)) as [->|Hne]; simpl.
    + by destruct (decide (k = k0)).
    + destruct (decide (k = k0)) as [->|]; [by rewrite decide_False|].
      apply IH.
Qed.

Lemma get_setdefault k k' v d :
  Dict.get k (Dict.setdefault k' v d) =
  match Dict.get k d with
  | Some w => Some w
  | None => if decide (k = k') then Some v else None
  end.
Proof.
  unfold Dict.setdefault, Dict.mem.
  destruct (Dict.get k' d) as [w'|] eqn:Hk'.
  - destruct (Dict.get k d) eqn:Hk; [done|].
    destruct (decide (k = k')) as [->|]; [congruence|done].
  - rewrite get_app. simpl. destruct (Dict.get k d); [done|].
    by destruct (decide (k = k')).
Qed.

Lemma keys_alter f k d : Dict.keys (Dict.alter f k d) = Dict.keys d.
Proof.
  induction d as [|[k0 v0] d IH]; simpl; [done|].
  destruct (decide (k = k0)); simpl; [done|]. by rewrite IH.
Qed.

Lemma keys_setdefault_nodup k v d :
  NoDup (Dict.keys d) -> NoDup (Dict.keys (Dict.setdefault k v d)).
Proof.
  unfold Dict.setdefault, Dict.mem. intros Hnd.
  destruct (Dict.get k d) eqn:Hk; [done|].
  unfold Dict.keys. rewrite fmap_app. simpl.
  apply NoDup_app. split_and!; [done| |apply NoDup_singleton].
  intros x Hx ->%list_elem_of_singleton.
  by apply get_none in Hk.
Qed.

Lemma all_alter (P : V -> Prop) f k d :
  (forall v, P v -> P (f v)) -> all P d -> all P (Dict.alter f k d).
Proof.
  intros Hf. induction d as [|[k0 v0] d IH]; simpl; intros Hall; [done|].
  assert (all P d) as Hd by (intros k1 v1 H1; eapply Hall; by right).
  assert (P v0) as Hv0 by (eapply Hall; by left).
  destruct (decide (k = k0)) as [->|].
  - intros k1 v1 [[= -> ->]|H1]%elem_of_cons; [by apply Hf | by eapply Hd].
  - intros k1 v1 [[= -> ->]|H1]%elem_of_cons; [done | by eapply IH].
Qed.

Lemma all_setdefault (P : V -> Prop) k v d :
  P v -> all P d -> all P (Dict.setdefault k v d).
Proof.
  unfold Dict.setdefault. intros Hv Hall. destruct (Dict.mem k d); [done|].
  intros k1 v1 [H1|[= -> ->]%list_elem_of_singleton]%elem_of_app;
    [by eapply Hall | done].
Qed.

Lemma lifts_refl (R : V -> V -> Prop) d : (forall v, R v v) -> lifts R d d.
Proof. intros Hrefl k v Hk. eauto. Qed.

Lemma lifts_trans (R : V -> V -> Prop) d1 d2 d3 :
  (forall a b c, R a b -> R b c -> R a c) ->
  lifts R d1 d2 -> lifts R d2 d3 -> lifts R d1 d3.
Proof.
  intros Htrans H12 H23 k v Hk.
  destruct (H12 k v Hk) as (v2 & Hk2 & Hr2).
  destruct (H23 k v2 Hk2) as (v3 & Hk3 & Hr3). eauto.
Qed.

(** The create-or-update step that every sighting makes. *)
Lemma lifts_upsert (R : V -> V -> Prop) f k v d :
  (forall w, R w w) -> (forall w, R w (f w)) ->
  lifts R d (Dict.alter f k (Dict.setdefault k v d)).
Proof.
  intros Hrefl Hf k1 v1 Hk1.
  rewrite get_alter, get_setdefault, Hk1.
  destruct (decide (k1 = k)); simpl; eauto.
Qed.

Lemma get_upsert f k v d :
  Dict.get k (Dict.alter f k (Dict.setdefault k v d)) =
  Some (f (default v (Dict.get k d))).
Proof.
  rewrite get_alter, get_setdefault.
  destruct (decide (k = k)); [|done]. by destruct (Dict.get k d).
Qed.

Lemma keys_upsert_nodup f k v d :
  NoDup (Dict.keys d) -> NoDup (Dict.keys (Dict.alter f k (Dict.setdefault k v d))).
Proof. rewrite keys_alter. apply keys_setdefault_nodup. Qed.

Lemma all_upsert (P : V -> Prop) f k v d :
  (forall w, P w -> P (f w)) -> P v -> all P d ->
  all P (Dict.alter f k (Dict.setdefault k v d)).
Proof. intros Hf Hv Hall. by apply all_alter, all_setdefault. Qed.
End DictFacts.
End DictFacts.

(** ** Records only grow *)

(** [append_new] keeps a list free of duplicates, keeps what it had, and
    makes [x] a member. *)
Lemma append_new_nodup x l : NoDup l -> NoDup (append_new x l).
Proof.
  unfold append_new. intros Hl. case_bool_decide as Hx; [done|].
  apply NoDup_app. split_and!; [done| |apply NoDup_singleton].
  by intros y Hy ->%list_elem_of_singleton.
Qed.

Lemma append_new_prefix x l : l `prefix_of` append_new x l.
Proof.
  unfold append_new. case_bool_decide; [done|]. by apply prefix_app_r.
Qed.

Lemma append_new_elem x l : x ∈ append_new x l.
Proof.
  unfold append_new. case_bool_decide; [done|].
  apply elem_of_app. right. by left.
Qed.

Lemma append_new_idem x l : x ∈ l -> append_new x l = l.
Proof. unfold append_new. intros Hx. by rewrite bool_decide_eq_true_2. Qed.

Lemma repo_grows_refl r : RepoSpec.grows r r.
Proof. by split. Qed.

Lemma repo_grows_trans r1 r2 r3 : RepoSpec.grows r1 r2 -> RepoSpec.grows r2 r3 -> RepoSpec.grows r1 r3.
Proof. intros [] []. split; set_solver. Qed.

Lemma repo_keeps_refl r : RepoSpec.keeps r r.
Proof. by split. Qed.

Lemma repo_keeps_trans r1 r2 r3 : RepoSpec.keeps r1 r2 -> RepoSpec.keeps r2 r3 -> RepoSpec.keeps r1 r3.
Proof.
  intros [] []. split; try congruence; [by etrans|set_solver..].
Qed.

Lemma repo_keeps_github_update name pack url r :
  RepoSpec.keeps r (Repo.add_url url (Repo.add_reference name pack r)).
Proof.
  split; simpl; try done; try set_solver. apply append_new_prefix.
Qed.

Lemma repo_grows_github_update name pack url r :
  RepoSpec.grows r (Repo.add_url url (Repo.add_reference name pack r)).
Proof.
  split; simpl; try set_solver.
  intros x Hx. eapply elem_of_prefix; [exact Hx|apply append_new_prefix].
Qed.

Lemma repo_grows_tool_update name pack p l r :
  RepoSpec.grows r (Repo.set_tier p l (Repo.add_reference name pack r)).
Proof.
  split; simpl; try set_solver.
  intros x Hx. eapply elem_of_prefix; [exact Hx|apply append_new_prefix].
Qed.

Lemma repo_nodup_add_reference name pack r :
  RepoSpec.refs_nodup r -> RepoSpec.refs_nodup (Repo.add_reference name pack r).
Proof. apply append_new_nodup. Qed.

Lemma tool_grows_refl r : ToolSpec.grows r r.
Proof. by split. Qed.

Lemma tool_grows_trans r1 r2 r3 : ToolSpec.grows r1 r2 -> ToolSpec.grows r2 r3 -> ToolSpec.grows r1 r3.
Proof. intros [] []. split; set_solver. Qed.

Lemma tool_grows_add_reference name pack matched r :
  ToolSpec.grows r (Tool.add_reference name pack matched r).
Proof.
  split; simpl; try set_solver.
  intros x Hx. eapply elem_of_prefix; [exact Hx|apply append_new_prefix].
Qed.

Lemma tool_nodup_add_reference name pack matched r :
  ToolSpec.refs_nodup r -> ToolSpec.refs_nodup (Tool.add_reference name pack matched r).
Proof. apply append_new_nodup. Qed.

Lemma dep_grows_refl r : DepSpec.grows r r.
Proof. by split. Qed.

Lemma dep_grows_trans r1 r2 r3 : DepSpec.grows r1 r2 -> DepSpec.grows r2 r3 -> DepSpec.grows r1 r3.
Proof. intros [] []. split; set_solver. Qed.

Lemma dep_grows_add_reference url name pack r :
  DepSpec.grows r (Dep.add_reference url name pack r).
Proof.
  split; simpl; try set_solver.
  intros x Hx. eapply elem_of_prefix; [exact Hx|apply append_new_prefix].
Qed.

Lemma dep_nodup_add_reference url name pack r :
  DepSpec.refs_nodup r -> DepSpec.refs_nodup (Dep.add_reference url name pack r).
Proof. apply append_new_nodup. Qed.

(** ** Every step of the analysis only adds to the state *)

Lemma well_formed_initial : well_formed initial_results.
Proof.
  split; simpl; try done; try apply NoDup_nil_2;
    intros k v Hin; by apply elem_of_nil in Hin.
Qed.

Lemma evolves_refl st : evolves st st.
Proof.
  split; [done|..]; apply DictFacts.lifts_refl.
  - apply repo_grows_refl.
  - apply tool_grows_refl.
  - apply dep_grows_refl.
Qed.

Lemma evolves_trans st1 st2 st3 : evolves st1 st2 -> evolves st2 st3 -> evolves st1 st3.
Proof.
  intros [] []. split; [auto|..]; eapply DictFacts.lifts_trans; eauto.
  - apply repo_grows_trans.
  - apply tool_grows_trans.
  - apply dep_grows_trans.
Qed.

(** A loop of evolving steps evolves the state. *)
Lemma evolves_fold_left {A : Type} (f : AnalysisState -> A -> AnalysisState) l st :
  (forall st x, evolves st (f st x)) -> evolves st (fold_left f l st).
Proof.
  intros Hf. apply fold_left_preorder.
  - apply evolves_refl.
  - apply evolves_trans.
  - intros st1 x _. apply Hf.
Qed.

Lemma evolves_for_each {A : Type} (body : AnalysisState -> A -> Outcome) l st :
  (forall st x, evolves st (state_of (body st x))) ->
  evolves st (state_of (for_each body l st)).
Proof.
  intros Hbody. revert st. induction l as [|x l IH]; intros st; simpl.
  - apply evolves_refl.
  - specialize (Hbody st x). destruct (body st x) as [st'|st']; simpl in *; [|done].
    eapply evolves_trans; [exact Hbody|apply IH].
Qed.

Lemma evolves_record_github_match name pack st m :
  evolves st (record_github_match name pack st m).
Proof.
  unfold record_github_match.
  destruct (Re.groups m) as [|org [|repo rest]]; try apply evolves_refl.
  split; simpl.
  - intros []. split; simpl; try done.
    + by apply DictFacts.keys_upsert_nodup.
    + apply DictFacts.all_upsert; [|apply NoDup_nil_2|done].
      intros r. apply repo_nodup_add_reference.
  - apply DictFacts.lifts_upsert;
      auto using repo_grows_refl, repo_grows_github_update.
  - apply DictFacts.lifts_refl, tool_grows_refl.
  - apply DictFacts.lifts_refl, dep_grows_refl.
Qed.

Lemma evolves_record_tool name info artifact pack matched st :
  evolves st (record_tool name info artifact pack matched st).
Proof.
  split; simpl.
  - intros []. split; simpl; try done.
    apply DictFacts.all_upsert; [|apply NoDup_nil_2|done].
    intros r. apply tool_nodup_add_reference.
  - apply DictFacts.lifts_refl, repo_grows_refl.
  - apply DictFacts.lifts_upsert;
      auto using tool_grows_refl, tool_grows_add_reference.
  - apply DictFacts.lifts_refl, dep_grows_refl.
Qed.

Lemma evolves_record_tool_repository name info artifact pack st :
  evolves st (record_tool_repository name info artifact pack st).
Proof.
  unfold record_tool_repository.
  destruct (Text.contains _ _); [|apply evolves_refl].
  destruct (Re.search _ _ _) as [m|]; [|apply evolves_refl].
  destruct (Re.groups m) as [|org [|repo [|]]]; try apply evolves_refl.
  split; simpl.
  - intros []. split; simpl; try done.
    + by apply DictFacts.keys_upsert_nodup.
    + apply DictFacts.all_upsert; [|apply NoDup_nil_2|done].
      intros r. apply repo_nodup_add_reference.
  - apply DictFacts.lifts_upsert;
      auto using repo_grows_refl, repo_grows_tool_update.
  - apply DictFacts.lifts_refl, tool_grows_refl.
  - apply DictFacts.lifts_refl, dep_grows_refl.
Qed.

Lemma evolves_record_download artifact pack st url :
  evolves st (state_of (record_download artifact pack st url)).
Proof.
  unfold record_download.
  destruct (urlparse_netloc url) as [domain|]; [|apply evolves_refl].
  split; simpl.
  - intros []. split; simpl; try done.
    apply DictFacts.all_upsert; [|apply NoDup_nil_2|done].
    intros r. apply dep_nodup_add_reference.
  - apply DictFacts.lifts_refl, repo_grows_refl.
  - apply DictFacts.lifts_refl, tool_grows_refl.
  - apply DictFacts.lifts_upsert;
      auto using dep_grows_refl, dep_grows_add_reference.
Qed.

Lemma evolves_find_github_repositories content artifact pack st :
  evolves st (find_github_repositories content artifact pack st).
Proof.
  apply evolves_fold_left. intros st1 pattern.
  apply evolves_fold_left. apply evolves_record_github_match.
Qed.

Lemma evolves_record_tool_hit name info artifact pack pattern st :
  evolves st (record_tool_hit name info artifact pack pattern st).
Proof.
  eapply evolves_trans;
    [apply evolves_record_tool | apply evolves_record_tool_repository].
Qed.

Lemma evolves_find_known_tools content artifact pack st :
  evolves st (find_known_tools content artifact pack st).
Proof.
  apply evolves_fold_left. intros st1 [name info].
  apply evolves_fold_left. intros st2 pattern.
  destruct (Re.found _ _ _); [apply evolves_record_tool_hit | apply evolves_refl].
Qed.

Lemma evolves_find_download_urls content artifact pack st :
  evolves st (state_of (find_download_urls content artifact pack st)).
Proof.
  apply evolves_for_each. intros st1 pattern.
  apply evolves_for_each. apply evolves_record_download.
Qed.

Lemma evolves_check_executable artifact pack st executable :
  evolves st (check_executable artifact pack st executable).
Proof.
  apply evolves_fold_left. intros st1 [name info].
  destruct (existsb _ _); [apply evolves_record_tool | apply evolves_refl].
Qed.

Lemma evolves_analyze_vql_query q artifact pack st :
  evolves st (analyze_vql_query q artifact pack st).
Proof.
  apply evolves_fold_left. intros st1 pattern.
  apply evolves_fold_left. apply evolves_check_executable.
Qed.

Lemma evolves_analyze_sources sources artifact pack st :
  evolves st (state_of (analyze_sources sources artifact pack st)).
Proof.
  apply evolves_for_each. intros st1 source.
  destruct source; [apply evolves_analyze_vql_query | apply evolves_refl..].
Qed.

Lemma evolves_analyze_artifact_file f pack st :
  evolves st (analyze_artifact_file f pack st).1.
Proof.
  unfold analyze_artifact_file.
  destruct (content f) as [text|]; [|apply evolves_refl].
  pose proof (evolves_find_download_urls text (artifact_name_of f) pack
    (find_known_tools text (artifact_name_of f) pack
       (find_github_repositories text (artifact_name_of f) pack st))) as Hd.
  eapply evolves_trans; [apply evolves_find_github_repositories|].
  eapply evolves_trans; [apply evolves_find_known_tools|].
  destruct (find_download_urls _ _ _ _) as [st'|st']; simpl in *; [|done].
  pose proof (evolves_analyze_sources (sources_of f) (artifact_name_of f) pack st')
    as Hs.
  destruct (analyze_sources _ _ _ _); by eapply evolves_trans.
Qed.

Lemma evolves_analyze_files files pack st :
  evolves st (analyze_files files pack st).1.
Proof.
  unfold analyze_files. generalize (@nil Event) as log. revert st.
  induction files as [|f files IH]; intros st log; simpl; [apply evolves_refl|].
  pose proof (evolves_analyze_artifact_file f pack st) as Hf.
  destruct (analyze_artifact_file f pack st) as [st' lines]; simpl in *.
  eapply evolves_trans; [exact Hf|apply IH].
Qed.

Lemma evolves_count_artifacts n st : evolves st (count_artifacts n st).
Proof.
  split; simpl; [by intros []|..]; apply DictFacts.lifts_refl.
  - apply repo_grows_refl.
  - apply tool_grows_refl.
  - apply dep_grows_refl.
Qed.

Lemma evolves_append_pack_info info st : evolves st (append_pack_info info st).
Proof.
  split; simpl; [by intros []|..]; apply DictFacts.lifts_refl.
  - apply repo_grows_refl.
  - apply tool_grows_refl.
  - apply dep_grows_refl.
Qed.

Lemma evolves_analyze_artifact_pack name pack st :
  evolves st (analyze_artifact_pack name pack st).1.
Proof.
  unfold analyze_artifact_pack.
  destruct (extraction pack) as [|yaml yml]; [apply evolves_refl|].
  pose proof (evolves_analyze_files (yaml ++ yml) name
                (count_artifacts (length (yaml ++ yml)) st)) as Hf.
  destruct (analyze_files _ _ _) as [st' log]; simpl in *.
  eapply evolves_trans; [apply evolves_count_artifacts|].
  eapply evolves_trans; [exact Hf|apply evolves_append_pack_info].
Qed.

Lemma evolves_analyze_packs packs st :
  evolves st (analyze_packs packs st).1.
Proof.
  unfold analyze_packs. generalize (@nil Event) as log. revert st.
  induction packs as [|[name pack] packs IH]; intros st log; simpl;
    [apply evolves_refl|].
  pose proof (evolves_analyze_artifact_pack name pack st) as Hp.
  destruct (analyze_artifact_pack name pack st) as [st' lines]; simpl in *.
  eapply evolves_trans; [exact Hp|apply IH].
Qed.

(** ** The repository-URL pass and existing records *)

Lemma keeps_record_github_match name pack st m :
  DictSpec.lifts RepoSpec.keeps (repositories_found st)
    (repositories_found (record_github_match name pack st m)).
Proof.
  unfold record_github_match.
  destruct (Re.groups m) as [|org [|repo rest]];
    try (apply DictFacts.lifts_refl, repo_keeps_refl).
  simpl. apply DictFacts.lifts_upsert;
    auto using repo_keeps_refl, repo_keeps_github_update.
Qed.

Lemma keeps_find_github_repositories content name pack st :
  DictSpec.lifts RepoSpec.keeps (repositories_found st)
    (repositories_found (find_github_repositories content name pack st)).
Proof.
  unfold find_github_repositories.
  apply (fold_left_preorder
           (fun s s' => DictSpec.lifts RepoSpec.keeps
                          (repositories_found s) (repositories_found s'))).
  - intros s. apply DictFacts.lifts_refl, repo_keeps_refl.
  - intros s1 s2 s3. apply DictFacts.lifts_trans, repo_keeps_trans.
  - intros s pattern _.
    apply (fold_left_preorder
             (fun s s' => DictSpec.lifts RepoSpec.keeps
                            (repositories_found s) (repositories_found s'))).
    + intros s'. apply DictFacts.lifts_refl, repo_keeps_refl.
    + intros s1 s2 s3. apply DictFacts.lifts_trans, repo_keeps_trans.
    + intros s' m _. apply keeps_record_github_match.
Qed.

(** C3.  A record that is in the registry when the repository-URL pass
    runs over a document is still there afterwards with the same priority
    tier (and the same language, tool back-reference and identity): the
    pass only appends to the record's list of referencing documents and
    adds to its sets of bundles and matched URLs.  In particular a tier set
    by an earlier known-tool sighting is not reset to [unknown]. *)
Theorem url_pass_keeps_tier (content artifact_name pack_name : string)
    (st : AnalysisState) (key : string) (r : Repo.t) :
  Dict.get key (repositories_found st) = Some r ->
  exists r',
    Dict.get key
      (repositories_found (find_github_repositories content artifact_name pack_name st))
    = Some r'
    /\ Repo.priority r' = Repo.priority r
    /\ Repo.language r' = Repo.language r
    /\ Repo.tool_name r' = Repo.tool_name r
    /\ Repo.referenced_in_artifacts r `prefix_of` Repo.referenced_in_artifacts r'
    /\ Repo.referenced_in_packs r ⊆ Repo.referenced_in_packs r'
    /\ Repo.full_urls_found r ⊆ Repo.full_urls_found r'.
Proof.
  intros Hget.
  destruct (keeps_find_github_repositories content artifact_name pack_name st key r Hget)
    as (r' & Hget' & []).
  exists r'. split_and!; done.
Qed.

Lemma url_pass_keeps_tier_witness :
  Dict.get "SigmaHQ/sigma" (repositories_found sigma_named) = Some sigma_record
  /\ exists r',
       Dict.get "SigmaHQ/sigma"
         (repositories_found
            (find_github_repositories
               "see https://github.com/SigmaHQ/sigma/blob/master/rules/x.yml"
               "Doc.Two" "artifact_pack_v2.zip" sigma_named))
       = Some r'
       /\ Repo.priority r' = critical
       /\ Repo.language r' = "python"
       /\ Repo.tool_name r' = Some "sigma"
       /\ ["Doc.One"] `prefix_of` Repo.referenced_in_artifacts r'
       /\ {["artifact_pack.zip"]} ⊆ Repo.referenced_in_packs r'
       /\ ∅ ⊆ Repo.full_urls_found r'.
Proof.
  split; [vm_compute; reflexivity|].
  apply (url_pass_keeps_tier
           "see https://github.com/SigmaHQ/sigma/blob/master/rules/x.yml"
           "Doc.Two" "artifact_pack_v2.zip" sigma_named "SigmaHQ/sigma" sigma_record).
  vm_compute; reflexivity.
Defined.

(** ** No document is listed twice *)

Lemma well_formed_analyze_packs packs :
  well_formed (analyze_packs packs initial_results).1.
Proof.
  apply (ev_well_formed _ _ (evolves_analyze_packs packs initial_results)).
  apply well_formed_initial.
Qed.

Lemma nodup_distinct_count (l : list string) :
  NoDup l -> length l = size (list_to_set l : gset string).
Proof.
  intros Hl. symmetry. by apply size_list_to_set.
Qed.

(** C5.  Whatever bundles are processed, in whatever order and however
    often (the same bundle twice included), and however many patterns of a
    family match in a document, no record of the three registries lists a
    document name twice; so the document count that the scorer multiplies
    by ten is the number of distinct document names of the record. *)
Theorem documents_listed_once (packs : list (string * PackFile)) :
  let st := (analyze_packs packs initial_results).1 in
  (forall key r, Dict.get key (repositories_found st) = Some r ->
     NoDup (Repo.referenced_in_artifacts r)
     /\ score r =
        (Z.of_nat (size (list_to_set (Repo.referenced_in_artifacts r) : gset string)) * 10
         + tier_bonus r + organization_bonus r + keyword_bonus r)%Z)
  /\ (forall key t, Dict.get key (tools_found st) = Some t ->
        NoDup (Tool.referenced_in_artifacts t))
  /\ (forall key d, Dict.get key (dependencies_found st) = Some d ->
        NoDup (Dep.referenced_in_artifacts d)).
Proof.
  intros st. destruct (well_formed_analyze_packs packs) as [_ Hr Ht Hd _].
  fold st in Hr, Ht, Hd. split_and!.
  - intros key r Hget%DictFacts.get_elem. specialize (Hr key r Hget).
    split; [exact Hr|]. unfold score. by rewrite (nodup_distinct_count _ Hr).
  - intros key t Hget%DictFacts.get_elem. exact (Ht key t Hget).
  - intros key d Hget%DictFacts.get_elem. exact (Hd key d Hget).
Qed.

(** ** The stable descending sort *)

Section Sorting.
  Variable key : string -> Z.

Lemma insert_desc_perm x l : insert_desc key x l ≡ₚ x :: l.
Proof.
  induction l as [|y l IH]; simpl; [done|].
  destruct (key x <? key y)%Z; [|done].
  rewrite IH. apply Permutation_swap.
Qed.

Lemma sort_desc_perm l : sort_desc key l ≡ₚ l.
Proof.
  induction l as [|x l IH]; simpl; [done|].
  rewrite insert_desc_perm. by rewrite IH.
Qed.

Lemma insert_desc_sorted x l :
  Sorted (descending key) l -> Sorted (descending key) (insert_desc key x l).
Proof.
  induction l as [|y l IH]; simpl; intros Hs.
  - by repeat constructor.
  - destruct (key x <? key y)%Z eqn:Hlt.
    + apply Sorted_inv in Hs as [Hs Hhd]. constructor; [by apply IH|].
      destruct l as [|z l]; simpl.
      * constructor. unfold descending. lia.
      * destruct (key x <? key z)%Z.
        -- by apply HdRel_inv in Hhd; constructor.
        -- constructor. unfold descending. lia.
    + constructor; [done|]. constructor. unfold descending. lia.
Qed.

Lemma sort_desc_sorted l : Sorted (descending key) (sort_desc key l).
Proof.
  induction l as [|x l IH]; simpl; [constructor|]. by apply insert_desc_sorted.
Qed.

Lemma sort_desc_strongly_sorted l : StronglySorted (descending key) (sort_desc key l).
Proof.
  apply Sorted_StronglySorted; [|apply sort_desc_sorted].
  intros a b c. unfold descending. lia.
Qed.

(** Stability: the elements of one key value keep their order. *)
Lemma insert_desc_filter v x l :
  filter (fun k => key k = v) (insert_desc key x l)
  = filter (fun k => key k = v) (x :: l).
Proof.
  induction l as [|y l IH]; simpl; [done|].
  destruct (key x <? key y)%Z eqn:Hlt; [|done].
  rewrite filter_cons, IH, !filter_cons.
  destruct (decide (key y = v)), (decide (key x = v)); try done. lia.
Qed.

Lemma sort_desc_stable v l :
  filter (fun k => key k = v) (sort_desc key l) = filter (fun k => key k = v) l.
Proof.
  induction l as [|x l IH]; simpl; [done|].
  by rewrite insert_desc_filter, !filter_cons, IH.
Qed.
End Sorting.

Lemma insert_desc_ext (key1 key2 : string -> Z) x l :
  (forall k, key1 k = key2 k) -> insert_desc key1 x l = insert_desc key2 x l.
Proof.
  intros Hext. induction l as [|y l IH]; simpl; [done|].
  by rewrite !Hext, IH.
Qed.

Lemma sort_desc_ext (key1 key2 : string -> Z) l :
  (forall k, key1 k = key2 k) -> sort_desc key1 l = sort_desc key2 l.
Proof.
  intros Hext. induction l as [|x l IH]; simpl; [done|].
  by rewrite IH, (insert_desc_ext key1 key2).
Qed.

(** ** Post-processing *)

Lemma get_fmap_values {V W : Type} (f : V -> W) k (d : dict V) :
  Dict.get k (prod_map id f <$> d) = f <$> Dict.get k d.
Proof.
  induction d as [|[k' v'] d IH]; simpl; [done|].
  destruct (decide (k = k')); [done|apply IH].
Qed.

Lemma keys_fmap_values {V W : Type} (f : V -> W) (d : dict V) :
  Dict.keys (prod_map id f <$> d) = Dict.keys d.
Proof.
  unfold Dict.keys. rewrite <- list_fmap_compose. by apply list_fmap_ext; intros ? [].
Qed.

Lemma bucket_set_bucket c c' l fc :
  bucket c (set_bucket c' l fc) = if decide (c = c') then l else bucket c fc.
Proof. by destruct c, c'. Qed.

Lemma bucket_scoring_loop c (repos : dict Repo.t) fc :
  bucket c
    (fold_left (fun fc '(key, r) => push (categorize (score r)) key fc) repos fc)
  = bucket c fc ++ bucketed c repos.
Proof.
  unfold bucketed. revert fc.
  induction repos as [|[k r] repos IH]; intros fc; cbn [fold_left].
  - by rewrite app_nil_r.
  - rewrite IH. unfold push. rewrite bucket_set_bucket, filter_cons. cbn [snd].
    destruct (decide (c = categorize (score r))) as [->|Hne].
    + rewrite decide_True by done. rewrite fmap_cons. cbn [fst].
      by rewrite <- app_assoc.
    + rewrite decide_False by done. done.
Qed.

Lemma post_process_registry st :
  repositories_found (post_process_analysis st)
  = prod_map id (fun r => enrich_record (score_record r)) <$> repositories_found st.
Proof.
  simpl. rewrite <- list_fmap_compose. by apply list_fmap_ext; intros ? [].
Qed.

Lemma post_process_get st key :
  Dict.get key (repositories_found (post_process_analysis st))
  = (fun r => enrich_record (score_record r)) <$> Dict.get key (repositories_found st).
Proof. by rewrite post_process_registry, get_fmap_values. Qed.

Lemma post_process_keys st :
  Dict.keys (repositories_found (post_process_analysis st))
  = Dict.keys (repositories_found st).
Proof. by rewrite post_process_registry, keys_fmap_values. Qed.

(** Enrichment keeps the scores that the sort has read. *)
Lemma post_process_score_of st key :
  score_of (repositories_found (post_process_analysis st)) key
  = score_of (prod_map id score_record <$> repositories_found st) key.
Proof.
  unfold score_of. rewrite post_process_get, get_fmap_values.
  by destruct (Dict.get key (repositories_found st)).
Qed.

Lemma post_process_score_of_item st key r :
  Dict.get key (repositories_found st) = Some r ->
  score_of (repositories_found (post_process_analysis st)) key = score r.
Proof. intros Hget. unfold score_of. by rewrite post_process_get, Hget. Qed.

Lemma post_process_bucket st c :
  well_formed st ->
  bucket c (fork_candidates (post_process_analysis st))
  = sort_desc (score_of (repositories_found (post_process_analysis st)))
      (bucketed c (repositories_found st)).
Proof.
  intros Hwf.
  rewrite (sort_desc_ext _ _ _ (post_process_score_of st)).
  transitivity
    (sort_desc (score_of (prod_map id score_record <$> repositories_found st))
       (bucket c
          (fold_left (fun fc '(key, r) => push (categorize (score r)) key fc)
             (repositories_found st) (fork_candidates st)))).
  - by destruct c.
  - by rewrite bucket_scoring_loop, (wf_buckets _ Hwf); destruct c.
Qed.

Lemma elem_of_bucketed c (repos : dict Repo.t) key r :
  NoDup (Dict.keys repos) -> Dict.get key repos = Some r ->
  key ∈ bucketed c repos <-> categorize (score r) = c.
Proof.
  intros Hnd Hget. unfold bucketed. rewrite list_elem_of_fmap. split.
  - intros ([k' r'] & -> & [Hc Hin]%list_elem_of_filter). simpl in *.
    apply (DictFacts.elem_get _ _ _ Hnd) in Hin. congruence.
  - intros Hc. exists (key, r). split; [done|].
    apply list_elem_of_filter. split; [done|]. by apply DictFacts.get_elem.
Qed.

Lemma bucketed_keys c (repos : dict Repo.t) : bucketed c repos ⊆ Dict.keys repos.
Proof.
  unfold bucketed, Dict.keys. intros k ([k' r'] & -> & [_ Hin]%list_elem_of_filter)%list_elem_of_fmap.
  by apply list_elem_of_fmap_2.
Qed.

Lemma bucketed_nodup c (repos : dict Repo.t) :
  NoDup (Dict.keys repos) -> NoDup (bucketed c repos).
Proof.
  unfold bucketed, Dict.keys.
  induction repos as [|[k r] repos IH]; [intros; apply NoDup_nil_2|].
  rewrite fmap_cons. cbn [fst]. intros [Hk Hnd]%NoDup_cons.
  rewrite filter_cons. cbn [snd].
  destruct (decide _); [|by apply IH]. rewrite fmap_cons. cbn [fst].
  apply NoDup_cons. split; [|by apply IH].
  intros Hin. apply Hk. by apply (bucketed_keys c repos).
Qed.

(** The keys of score [v] were all appended to the bucket of [v]. *)
Lemma bucketed_filter (key : string -> Z) v (repos : dict Repo.t) :
  (forall k r, (k, r) ∈ repos -> key k = score r) ->
  filter (fun k => key k = v) (bucketed (categorize v) repos)
  = filter (fun k => key k = v) (Dict.keys repos).
Proof.
  unfold bucketed, Dict.keys.
  induction repos as [|[k r] repos IH]; intros Hkey; [done|].
  assert (key k = score r) as Hk by (apply Hkey; by left).
  assert (forall k' r', (k', r') ∈ repos -> key k' = score r') as Htl
    by (intros k' r' Hin; apply Hkey; by right).
  rewrite (filter_cons _ (k, r)). cbn [snd].
  rewrite (fmap_cons fst (k, r)). cbn [fst]. rewrite (filter_cons _ k).
  destruct (decide (categorize (score r) = categorize v)) as [Hc|Hc].
  - rewrite fmap_cons, filter_cons. cbn [fst]. by rewrite IH.
  - rewrite decide_False; [by apply IH|]. intros Hv. apply Hc. congruence.
Qed.

Lemma categorize_high s : categorize s = HighPriority <-> (80 <= s)%Z.
Proof.
  unfold categorize. repeat case_match; split; try done; lia.
Qed.

Lemma categorize_medium s : categorize s = MediumPriority <-> (40 <= s < 80)%Z.
Proof.
  unfold categorize. repeat case_match; split; try done; lia.
Qed.

Lemma categorize_low s : categorize s = LowPriority <-> (s < 40)%Z.
Proof.
  unfold categorize. repeat case_match; split; try done; lia.
Qed.

(** A run ends in a post-processed state: with no bundle at all the
    state is the initial one, on which post-processing changes nothing. *)
Lemma run_post_processed fs :
  exists st0, well_formed st0 /\ (run fs).1 = post_process_analysis st0.
Proof.
  unfold run, analyze_all_packs.
  destruct (present_packs fs) as [|p packs] eqn:Hpacks.
  - exists initial_results. split; [apply well_formed_initial|done].
  - pose proof (well_formed_analyze_packs (p :: packs)) as Hwf.
    destruct (analyze_packs (p :: packs) initial_results) as [st' lines].
    by exists st'.
Qed.

Lemma post_process_record st0 key r :
  Dict.get key (repositories_found (post_process_analysis st0)) = Some r ->
  exists r0,
    Dict.get key (repositories_found st0) = Some r0
    /\ r = enrich_record (score_record r0).
Proof.
  rewrite post_process_get.
  destruct (Dict.get key (repositories_found st0)) as [r0|]; [|done].
  intros [= <-]. by exists r0.
Qed.

Lemma post_process_membership st0 key r0 c :
  well_formed st0 ->
  Dict.get key (repositories_found st0) = Some r0 ->
  key ∈ bucket c (fork_candidates (post_process_analysis st0))
  <-> categorize (score r0) = c.
Proof.
  intros Hwf Hget. rewrite (post_process_bucket _ _ Hwf), sort_desc_perm.
  apply elem_of_bucketed; [apply Hwf|done].
Qed.

(** C4.  After a run, every record of the registry has a score and a
    category, and its key is in the bucket of that score and in no other:
    high when the score is at least 80, medium when it is at least 40 and
    below 80, low otherwise.  No bucket holds a key twice or a key that is
    not in the registry.  Every bucket is sorted by descending score, and
    the records of one score stand in their bucket in the order in which
    the registry met them (the sort is stable). *)
Theorem buckets_partition_sorted_stable (fs : FileSystem) :
  let st := (run fs).1 in
  let fc := fork_candidates st in
  let key := score_of (repositories_found st) in
  (forall k r, Dict.get k (repositories_found st) = Some r ->
     exists s,
       Repo.priority_score r = Some s
       /\ Repo.priority_category r = Some (categorize s)
       /\ (k ∈ high_priority fc <-> (80 <= s)%Z)
       /\ (k ∈ medium_priority fc <-> (40 <= s < 80)%Z)
       /\ (k ∈ low_priority fc <-> (s < 40)%Z))
  /\ (forall c, NoDup (bucket c fc) /\ bucket c fc ⊆ Dict.keys (repositories_found st))
  /\ (forall c, StronglySorted (descending key) (bucket c fc))
  /\ (forall v,
        filter (fun k => key k = v) (bucket (categorize v) fc)
        = filter (fun k => key k = v) (Dict.keys (repositories_found st))).
Proof.
  intros st fc key. subst st fc key.
  destruct (run_post_processed fs) as (st0 & Hwf & ->). split_and!.
  - intros k r (r0 & Hget & ->)%post_process_record.
    exists (score r0). split_and!; try done.
    + change (high_priority ?f) with (bucket HighPriority f).
      rewrite (post_process_membership _ _ _ _ Hwf Hget). apply categorize_high.
    + change (medium_priority ?f) with (bucket MediumPriority f).
      rewrite (post_process_membership _ _ _ _ Hwf Hget). apply categorize_medium.
    + change (low_priority ?f) with (bucket LowPriority f).
      rewrite (post_process_membership _ _ _ _ Hwf Hget). apply categorize_low.
  - intros c. rewrite (post_process_bucket _ _ Hwf), post_process_keys. split.
    + rewrite sort_desc_perm. apply bucketed_nodup, Hwf.
    + rewrite sort_desc_perm. apply bucketed_keys.
  - intros c. rewrite (post_process_bucket _ _ Hwf). apply sort_desc_strongly_sorted.
  - intros v. rewrite (post_process_bucket _ _ Hwf), sort_desc_stable, post_process_keys.
    apply bucketed_filter. intros k r Hin.
    apply post_process_score_of_item, DictFacts.elem_get; [apply Hwf|done].
Qed.

(** C10.  After a run, every record of the registry carries
    [fork_recommended], which is true exactly when the record's score is at
    least 40, that is exactly when its key is in the high or the medium
    bucket, and false when it is in the low bucket. *)
Theorem fork_recommended_iff_score (fs : FileSystem) :
  let st := (run fs).1 in
  let fc := fork_candidates st in
  forall k r, Dict.get k (repositories_found st) = Some r ->
    exists s b,
      Repo.priority_score r = Some s
      /\ Repo.fork_recommended r = Some b
      /\ (b = true <-> (40 <= s)%Z)
      /\ (b = true <-> k ∈ high_priority fc \/ k ∈ medium_priority fc)
      /\ (k ∈ low_priority fc -> b = false).
Proof.
  intros st fc. subst st fc.
  destruct (run_post_processed fs) as (st0 & Hwf & ->).
  intros k r (r0 & Hget & ->)%post_process_record.
  exists (score r0), (40 <=? score r0)%Z. split_and!; try done.
  - apply Z.leb_le.
  - change (high_priority ?f) with (bucket HighPriority f).
    change (medium_priority ?f) with (bucket MediumPriority f).
    rewrite !(post_process_membership _ _ _ _ Hwf Hget).
    rewrite categorize_high, categorize_medium, Z.leb_le. lia.
  - change (low_priority ?f) with (bucket LowPriority f).
    rewrite (post_process_membership _ _ _ _ Hwf Hget), categorize_low.
    intros Hlow. apply Z.leb_gt. lia.
Qed.

(** ** Bundles that are missing or fail to extract *)

Lemma same_bundles_refl st : same_bundles st st.
Proof. by split. Qed.

Lemma same_bundles_trans st1 st2 st3 :
  same_bundles st1 st2 -> same_bundles st2 st3 -> same_bundles st1 st3.
Proof. intros [] []. split; congruence. Qed.

Lemma same_bundles_fold_left {A : Type} (f : AnalysisState -> A -> AnalysisState) l st :
  (forall st x, same_bundles st (f st x)) -> same_bundles st (fold_left f l st).
Proof.
  intros Hf. apply fold_left_preorder.
  - apply same_bundles_refl.
  - apply same_bundles_trans.
  - intros st1 x _. apply Hf.
Qed.

Lemma same_bundles_for_each {A : Type} (body : AnalysisState -> A -> Outcome) l st :
  (forall st x, same_bundles st (state_of (body st x))) ->
  same_bundles st (state_of (for_each body l st)).
Proof.
  intros Hbody. revert st. induction l as [|x l IH]; intros st; simpl.
  - apply same_bundles_refl.
  - specialize (Hbody st x). destruct (body st x) as [st'|st']; simpl in *; [|done].
    eapply same_bundles_trans; [exact Hbody|apply IH].
Qed.

Lemma same_bundles_find_github_repositories content artifact pack st :
  same_bundles st (find_github_repositories content artifact pack st).
Proof.
  apply same_bundles_fold_left. intros st1 pattern.
  apply same_bundles_fold_left. intros st2 m. unfold record_github_match.
  by destruct (Re.groups m) as [|org [|repo rest]].
Qed.

Lemma same_bundles_find_known_tools content artifact pack st :
  same_bundles st (find_known_tools content artifact pack st).
Proof.
  apply same_bundles_fold_left. intros st1 [name info].
  apply same_bundles_fold_left. intros st2 pattern.
  destruct (Re.found _ _ _); [|done].
  unfold record_tool_hit, record_tool_repository.
  destruct (Text.contains _ _); [|done].
  destruct (Re.search _ _ _) as [m|]; [|done].
  by destruct (Re.groups m) as [|org [|repo [|]]].
Qed.

Lemma same_bundles_find_download_urls content artifact pack st :
  same_bundles st (state_of (find_download_urls content artifact pack st)).
Proof.
  apply same_bundles_for_each. intros st1 pattern.
  apply same_bundles_for_each. intros st2 url. unfold record_download.
  by destruct (urlparse_netloc url).
Qed.

Lemma same_bundles_analyze_sources sources artifact pack st :
  same_bundles st (state_of (analyze_sources sources artifact pack st)).
Proof.
  apply same_bundles_for_each. intros st1 source.
  destruct source; [|done..]. cbn [analyze_source state_of].
  apply same_bundles_fold_left. intros st2 pattern.
  apply same_bundles_fold_left. intros st3 executable.
  apply same_bundles_fold_left. intros st4 [name info].
  by destruct (existsb _ _).
Qed.

Lemma same_bundles_analyze_artifact_file f pack st :
  same_bundles st (analyze_artifact_file f pack st).1.
Proof.
  unfold analyze_artifact_file.
  destruct (content f) as [text|]; [|done].
  pose proof (same_bundles_find_download_urls text (artifact_name_of f) pack
    (find_known_tools text (artifact_name_of f) pack
       (find_github_repositories text (artifact_name_of f) pack st))) as Hd.
  eapply same_bundles_trans; [apply same_bundles_find_github_repositories|].
  eapply same_bundles_trans; [apply same_bundles_find_known_tools|].
  destruct (find_download_urls _ _ _ _) as [st'|st']; simpl in *; [|done].
  pose proof (same_bundles_analyze_sources (sources_of f) (artifact_name_of f) pack st')
    as Hs.
  destruct (analyze_sources _ _ _ _); by eapply same_bundles_trans.
Qed.

Lemma same_bundles_analyze_files files pack st :
  same_bundles st (analyze_files files pack st).1.
Proof.
  unfold analyze_files. generalize (@nil Event) as log. revert st.
  induction files as [|f files IH]; intros st log; simpl; [done|].
  pose proof (same_bundles_analyze_artifact_file f pack st) as Hf.
  destruct (analyze_artifact_file f pack st) as [st' lines]; simpl in *.
  eapply same_bundles_trans; [exact Hf|apply IH].
Qed.

(** The loop over the bundles, one bundle at a time. *)
Lemma analyze_packs_log packs st log :
  fold_left
    (fun '(st, log) '(pack_name, pack) =>
       let '(st', lines) := analyze_artifact_pack pack_name pack st in
       (st', log ++ Analyzing pack_name :: lines))
    packs (st, log)
  = ((analyze_packs packs st).1, log ++ (analyze_packs packs st).2).
Proof.
  unfold analyze_packs. revert st log.
  induction packs as [|[name pack] packs IH]; intros st log; simpl.
  - by rewrite app_nil_r.
  - destruct (analyze_artifact_pack name pack st) as [st' lines].
    rewrite IH, (IH st' (Analyzing name :: lines)). simpl.
    by rewrite <- app_assoc.
Qed.

Lemma analyze_packs_cons name pack packs st :
  analyze_packs ((name, pack) :: packs) st
  = let '(st', lines) := analyze_artifact_pack name pack st in
    ((analyze_packs packs st').1,
     Analyzing name :: lines ++ (analyze_packs packs st').2).
Proof.
  unfold analyze_packs at 1. simpl.
  destruct (analyze_artifact_pack name pack st) as [st' lines].
  by rewrite analyze_packs_log.
Qed.

Lemma analyze_artifact_pack_failed name pack st :
  extractable pack = false ->
  analyze_artifact_pack name pack st = (st, [ExtractFailed name]).
Proof.
  unfold extractable, analyze_artifact_pack.
  by destruct (extraction pack).
Qed.

Lemma analyze_artifact_pack_bundles name pack st :
  extractable pack = true ->
  file_name <$> artifact_packs_analyzed (analyze_artifact_pack name pack st).1
  = (file_name <$> artifact_packs_analyzed st) ++ [name].
Proof.
  unfold extractable, analyze_artifact_pack.
  destruct (extraction pack) as [|yaml yml]; [done|]. intros _.
  pose proof (same_bundles_analyze_files (yaml ++ yml) name
                (count_artifacts (length (yaml ++ yml)) st)) as [Hp _].
  destruct (analyze_files _ _ _) as [st' log]; simpl in *.
  by rewrite Hp, fmap_app.
Qed.

(** A bundle that fails to extract leaves the state as it found it, so
    the loop ends in the state it reaches without that bundle. *)
Lemma analyze_packs_without_failed packs st :
  (analyze_packs packs st).1
  = (analyze_packs (List.filter (fun p => extractable p.2) packs) st).1.
Proof.
  revert st. induction packs as [|[name pack] packs IH]; intros st; [done|].
  cbn [List.filter snd]. rewrite analyze_packs_cons.
  destruct (extractable pack) eqn:Hx.
  - rewrite analyze_packs_cons.
    destruct (analyze_artifact_pack name pack st) as [st' lines]. apply IH.
  - rewrite analyze_artifact_pack_failed by done. apply IH.
Qed.

Lemma analyze_packs_bundles packs st :
  file_name <$> artifact_packs_analyzed (analyze_packs packs st).1
  = (file_name <$> artifact_packs_analyzed st)
    ++ (List.filter (fun p => extractable p.2) packs).*1.
Proof.
  revert st. induction packs as [|[name pack] packs IH]; intros st.
  - by rewrite app_nil_r.
  - rewrite analyze_packs_cons. cbn [List.filter snd].
    pose proof (analyze_artifact_pack_bundles name pack st) as Hb.
    pose proof (analyze_artifact_pack_failed name pack st) as Hf.
    destruct (analyze_artifact_pack name pack st) as [st' lines].
    cbn [fst] in *. rewrite IH. destruct (extractable pack).
    + rewrite Hb by done. rewrite fmap_cons, <- app_assoc. done.
    + specialize (Hf eq_refl). by injection Hf as -> _.
Qed.

Lemma analyze_packs_reports_failure packs st name pack :
  (name, pack) ∈ packs -> extractable pack = false ->
  ExtractFailed name ∈ (analyze_packs packs st).2.
Proof.
  revert st. induction packs as [|[name' pack'] packs IH]; intros st Hin Hx.
  - by apply elem_of_nil in Hin.
  - rewrite analyze_packs_cons.
    apply elem_of_cons in Hin as [[= <- <-]|Hin].
    + rewrite analyze_artifact_pack_failed by done. cbn [snd].
      right. by left.
    + destruct (analyze_artifact_pack name' pack' st) as [st' lines]. cbn [snd].
      right. apply elem_of_app. right. by apply IH.
Qed.

Lemma post_process_bundles st :
  artifact_packs_analyzed (post_process_analysis st) = artifact_packs_analyzed st.
Proof. done. Qed.

Lemma present_packs_without_failed fs :
  present_packs (without_failed fs)
  = List.filter (fun p => extractable p.2) (present_packs fs).
Proof.
  unfold present_packs, expected_packs, without_failed. cbn [omap list_omap].
  destruct (fs "artifact_pack.zip") as [p1|], (fs "artifact_pack_v2.zip") as [p2|];
    cbn [fmap option_fmap option_map List.filter snd];
    repeat (destruct (extractable _)); reflexivity.
Qed.

Lemma run_state fs :
  (run fs).1
  = post_process_analysis (analyze_packs (present_packs fs) initial_results).1.
Proof.
  unfold run, analyze_all_packs.
  destruct (present_packs fs) as [|p packs]; [done|].
  by destruct (analyze_packs (p :: packs) initial_results).
Qed.

Lemma run_log fs :
  exists rest,
    (run fs).2 = (report_presence fs <$> expected_packs) ++ rest
    /\ (present_packs fs <> [] ->
        rest = (analyze_packs (present_packs fs) initial_results).2).
Proof.
  unfold run, analyze_all_packs.
  destruct (present_packs fs) as [|p packs]; [by exists [NoPacksFound]|].
  destruct (analyze_packs (p :: packs) initial_results) as [st lines].
  by exists lines.
Qed.

Lemma present_packs_usable fs :
  (List.filter (fun p => extractable p.2) (present_packs fs)).*1
  = List.filter (usable fs) expected_packs.
Proof.
  unfold present_packs, expected_packs, usable. cbn [omap list_omap List.filter].
  destruct (fs "artifact_pack.zip") as [p1|], (fs "artifact_pack_v2.zip") as [p2|];
    cbn [fmap option_fmap option_map List.filter snd];
    repeat (destruct (extractable _)); reflexivity.
Qed.

Lemma present_packs_elem fs name p :
  name ∈ expected_packs -> fs name = Some p -> (name, p) ∈ present_packs fs.
Proof.
  intros Hin Hfs. unfold present_packs. apply list_elem_of_omap.
  exists name. split; [done|]. by rewrite Hfs.
Qed.

(** C9.  A bundle that is missing or that fails to extract is reported
    and skipped, and the run goes on: the run ends in the state that it
    reaches when those bundles are not in the directory at all; the
    bundles analyzed are exactly the expected ones that are present and
    extract; a missing bundle is reported as missing and a bundle whose
    extraction fails as failed. *)
Theorem missing_or_failed_bundle_is_skipped (fs : FileSystem) :
  (run fs).1 = (run (without_failed fs)).1
  /\ file_name <$> artifact_packs_analyzed (run fs).1
     = List.filter (usable fs) expected_packs
  /\ (forall name, name ∈ expected_packs -> fs name = None ->
        Missing name ∈ (run fs).2)
  /\ (forall name p, name ∈ expected_packs -> fs name = Some p ->
        extractable p = false -> ExtractFailed name ∈ (run fs).2).
Proof.
  split_and!.
  - rewrite !run_state, present_packs_without_failed.
    by rewrite (analyze_packs_without_failed (present_packs fs)).
  - rewrite run_state, post_process_bundles, analyze_packs_bundles.
    apply present_packs_usable.
  - intros name Hin Hfs. destruct (run_log fs) as (rest & -> & _).
    apply elem_of_app. left. apply (list_elem_of_fmap_2' _ _ name); [done|].
    unfold report_presence. by rewrite Hfs.
  - intros name p Hin Hfs Hx. destruct (run_log fs) as (rest & -> & Hrest).
    pose proof (present_packs_elem fs name p Hin Hfs) as Hp.
    apply elem_of_app. right. rewrite Hrest.
    + by apply (analyze_packs_reports_failure _ _ name p).
    + intros Hnil. rewrite Hnil in Hp. by apply elem_of_nil in Hp.
Qed.

(** ** Cleaning a captured repository name *)

Lemma before_first_app sep s t :
  lacks sep s = true ->
  Text.before_first sep (s +:+ t) = s +:+ Text.before_first sep t.
Proof.
  induction s as [|c s IH]; simpl; [done|].
  intros [Hc Hs]%andb_prop. apply negb_true_iff in Hc. rewrite Hc.
  by rewrite IH.
Qed.

Lemma punctuation_char c :
  Text.char_in ".,;)" c = true ->
  Ascii.eqb c "?" = false /\ Ascii.eqb c "#" = false.
Proof.
  destruct c as [[] [] [] [] [] [] [] []]; vm_compute; intros; split; congruence.
Qed.

Lemma punctuation_lacks punct :
  trailing_punctuation punct = true ->
  lacks "?" punct = true /\ lacks "#" punct = true.
Proof.
  unfold trailing_punctuation, Text.all_in.
  induction punct as [|c punct IH]; simpl; [done|].
  intros [Hc Hp]%andb_prop. destruct (punctuation_char c Hc) as [-> ->].
  destruct (IH Hp) as [-> ->]. done.
Qed.

Lemma rstrip_punctuation chars punct :
  Text.all_in chars punct = true -> Text.rstrip chars punct = EmptyString.
Proof.
  unfold Text.all_in. induction punct as [|c punct IH]; simpl; [done|].
  intros [Hc Hp]%andb_prop. by rewrite (IH Hp), Hc.
Qed.

Lemma rstrip_app chars s punct :
  Text.all_in chars punct = true ->
  Text.rstrip chars (s +:+ punct) = Text.rstrip chars s.
Proof.
  intros Hp. induction s as [|c s IH]; simpl.
  - by apply rstrip_punctuation.
  - by rewrite IH.
Qed.

Lemma before_first_tail sep tail :
  match tail with EmptyString => True | String c _ => c = sep end ->
  Text.before_first sep tail = EmptyString.
Proof.
  destruct tail as [|c tail]; simpl; [done|]. intros ->. by rewrite Ascii.eqb_refl.
Qed.

Lemma string_app_cons c s t : String c s +:+ t = String c (s +:+ t).
Proof. reflexivity. Qed.

Lemma string_app_empty_r s : s +:+ EmptyString = s.
Proof.
  induction s as [|c s IH]; [done|]. by rewrite string_app_cons, IH.
Qed.

Lemma string_app_assoc s t u : (s +:+ t) +:+ u = s +:+ (t +:+ u).
Proof.
  induction s as [|c s IH]; [done|]. by rewrite !string_app_cons, IH.
Qed.

(** The query string, the fragment and the punctuation are stripped,
    whichever of them are there. *)
Lemma clean_decorated repo punct tail :
  plain repo = true -> trailing_punctuation punct = true ->
  query_or_fragment tail = true ->
  clean_repository_name (repo +:+ punct +:+ tail) = repo.
Proof.
  unfold plain. intros [[Hq Hf]%andb_prop Hr%bool_decide_eq_true]%andb_prop Hp Ht.
  destruct (punctuation_lacks punct Hp) as [Hpq Hpf].
  unfold clean_repository_name.
  rewrite (before_first_app "?" repo), (before_first_app "?" punct) by done.
  assert (exists t, Text.before_first "?" tail = t
            /\ Text.before_first "#" t = EmptyString) as (t & -> & Ht').
  { destruct tail as [|c tail]; simpl; [by exists EmptyString|].
    unfold query_or_fragment, Text.char_in in Ht. simpl in Ht.
    destruct (Ascii.eqb c "?") eqn:Hc; [by exists EmptyString|].
    destruct (Ascii.eqb c "#") eqn:Hc'; [|done].
    eexists. split; [done|]. simpl. by rewrite Hc'. }
  rewrite (before_first_app "#" repo), (before_first_app "#" punct), Ht' by done.
  rewrite string_app_empty_r, rstrip_app by done. done.
Qed.

Lemma setdefault_present {V : Type} k (v w : V) (d : dict V) :
  Dict.get k d = Some w -> Dict.setdefault k v d = d.
Proof. unfold Dict.setdefault, Dict.mem. by intros ->. Qed.

(** C8.  The second captured group, cleaned, is the repository name: a
    captured name [repo +:+ punct +:+ tail], where [punct] is trailing
    punctuation (characters among [. , ; )]) and [tail] is empty, a query
    string or a fragment, is cleaned to [repo].  So two matches for the
    same organization whose captured names differ only in that decoration
    are filed under the one key [org/repo]: the second match adds no key,
    and the record under the key has both documents and both matched URLs;
    when the first match created the record, it is named [repo]. *)
Theorem decorated_urls_share_one_record
    (org repo punct1 tail1 punct2 tail2 : string) (rest1 rest2 : list string)
    (m1 m2 : Re.re_match) (name1 pack1 name2 pack2 : string) (st : AnalysisState) :
  plain repo = true ->
  trailing_punctuation punct1 = true -> query_or_fragment tail1 = true ->
  trailing_punctuation punct2 = true -> query_or_fragment tail2 = true ->
  Re.groups m1 = org :: (repo +:+ punct1 +:+ tail1) :: rest1 ->
  Re.groups m2 = org :: (repo +:+ punct2 +:+ tail2) :: rest2 ->
  let st1 := record_github_match name1 pack1 st m1 in
  let st2 := record_github_match name2 pack2 st1 m2 in
  clean_repository_name (repo +:+ punct1 +:+ tail1) = repo
  /\ clean_repository_name (repo +:+ punct2 +:+ tail2) = repo
  /\ Dict.keys (repositories_found st2) = Dict.keys (repositories_found st1)
  /\ exists r,
       Dict.get (repo_key org repo) (repositories_found st2) = Some r
       /\ name1 ∈ Repo.referenced_in_artifacts r
       /\ name2 ∈ Repo.referenced_in_artifacts r
       /\ Re.group0 m1 ∈ Repo.full_urls_found r
       /\ Re.group0 m2 ∈ Repo.full_urls_found r
       /\ (Dict.get (repo_key org repo) (repositories_found st) = None ->
           Repo.organization r = org
           /\ Repo.repository_name r = repo
           /\ Repo.repository_url r = "https://github.com/" +:+ org +:+ "/" +:+ repo).
Proof.
  intros Hrepo Hp1 Ht1 Hp2 Ht2 Hg1 Hg2 st1 st2.
  pose proof (clean_decorated repo punct1 tail1 Hrepo Hp1 Ht1) as Hc1.
  pose proof (clean_decorated repo punct2 tail2 Hrepo Hp2 Ht2) as Hc2.
  split; [done|]. split; [done|].
  subst st2 st1. unfold record_github_match. rewrite Hg1, Hg2, Hc1, Hc2.
  cbn [repositories_found with_repositories add_organization].
  set (key := repo_key org repo).
  set (repos1 := Dict.alter _ key (Dict.setdefault key _ (repositories_found st))).
  assert (exists r1, Dict.get key repos1 = Some r1
            /\ name1 ∈ Repo.referenced_in_artifacts r1
            /\ Re.group0 m1 ∈ Repo.full_urls_found r1
            /\ (Dict.get key (repositories_found st) = None ->
                Repo.organization r1 = org /\ Repo.repository_name r1 = repo
                /\ Repo.repository_url r1
                   = "https://github.com/" +:+ org +:+ "/" +:+ repo))
    as (r1 & Hr1 & Hn1 & Hu1 & Hnew).
  { eexists. split; [apply DictFacts.get_upsert|]. split_and!.
    - apply append_new_elem.
    - cbn. apply elem_of_union. right. by apply elem_of_singleton.
    - by intros ->. }
  rewrite (setdefault_present key _ r1 repos1 Hr1). split.
  - apply DictFacts.keys_alter.
  - rewrite DictFacts.get_alter, decide_True, Hr1 by done.
    eexists. split; [done|]. cbn. split_and!.
    + eapply elem_of_prefix; [exact Hn1|apply append_new_prefix].
    + apply append_new_elem.
    + apply elem_of_union. by left.
    + apply elem_of_union. right. by apply elem_of_singleton.
    + done.
Qed.

Lemma decorated_urls_share_one_record_witness :
  Re.finditer true "https?://github\.com/([^/]+)/([^/\s\)]+)"
    "see https://github.com/VirusTotal/yara. (https://github.com/VirusTotal/yara?tab=readme#usage)"
  = [ {| Re.group0 := "https://github.com/VirusTotal/yara.";
         Re.groups := ["VirusTotal"; "yara."] |};
      {| Re.group0 := "https://github.com/VirusTotal/yara?tab=readme#usage";
         Re.groups := ["VirusTotal"; "yara?tab=readme#usage"] |} ]
  /\ let m1 := {| Re.group0 := "https://github.com/VirusTotal/yara.";
                  Re.groups := ["VirusTotal"; "yara."] |} in
     let m2 := {| Re.group0 := "https://github.com/VirusTotal/yara?tab=readme#usage";
                  Re.groups := ["VirusTotal"; "yara?tab=readme#usage"] |} in
     let st1 := record_github_match "Doc.One" "artifact_pack.zip" initial_results m1 in
     let st2 := record_github_match "Doc.Two" "artifact_pack.zip" st1 m2 in
     clean_repository_name "yara." = "yara"
     /\ clean_repository_name "yara?tab=readme#usage" = "yara"
     /\ Dict.keys (repositories_found st2) = Dict.keys (repositories_found st1)
     /\ exists r,
          Dict.get "VirusTotal/yara" (repositories_found st2) = Some r
          /\ "Doc.One" ∈ Repo.referenced_in_artifacts r
          /\ "Doc.Two" ∈ Repo.referenced_in_artifacts r
          /\ "https://github.com/VirusTotal/yara." ∈ Repo.full_urls_found r
          /\ "https://github.com/VirusTotal/yara?tab=readme#usage" ∈ Repo.full_urls_found r
          /\ (Dict.get "VirusTotal/yara" (repositories_found initial_results) = None ->
              Repo.organization r = "VirusTotal"
              /\ Repo.repository_name r = "yara"
              /\ Repo.repository_url r = "https://github.com/VirusTotal/yara").
Proof.
  split; [vm_compute; reflexivity|].
  apply (decorated_urls_share_one_record
           "VirusTotal" "yara" "." "" "" "?tab=readme#usage" [] []
           {| Re.group0 := "https://github.com/VirusTotal/yara.";
              Re.groups := ["VirusTotal"; "yara."] |}
           {| Re.group0 := "https://github.com/VirusTotal/yara?tab=readme#usage";
              Re.groups := ["VirusTotal"; "yara?tab=readme#usage"] |}
           "Doc.One" "artifact_pack.zip" "Doc.Two" "artifact_pack.zip"
           initial_results); reflexivity.
Defined.

(** C8 as the claim states it fails on this input: only the four
    characters [. , ; )] are stripped.  The same repository named before a
    closing double quote, an exclamation mark or a colon keeps that
    character in its name, and the one repository is filed under four
    keys. *)
Lemma other_punctuation_makes_other_keys :
  let st :=
    find_github_repositories punctuated_text "Doc.One" "artifact_pack.zip"
      initial_results in
  map Re.groups (Re.finditer true "https?://github\.com/([^/]+)/([^/\s\)]+)" punctuated_text)
  = [ ["VirusTotal"; "yara" +:+ dq]; ["VirusTotal"; "yara!"]; ["VirusTotal"; "yara:"];
      ["VirusTotal"; "yara"] ]
  /\ trailing_punctuation dq = false
  /\ trailing_punctuation "!" = false
  /\ trailing_punctuation ":" = false
  /\ clean_repository_name ("yara" +:+ dq) = "yara" +:+ dq
  /\ clean_repository_name "yara!" = "yara!"
  /\ clean_repository_name "yara:" = "yara:"
  /\ Dict.keys (repositories_found st)
     = [ "VirusTotal/yara" +:+ dq; "VirusTotal/yara!"; "VirusTotal/yara:";
         "VirusTotal/yara" ].
Proof. vm_compute. repeat split; reflexivity. Qed.

(** ** What the passes leave in the registries *)


Lemma tool_has_evolves key name pack matched st st' :
  evolves st st' -> tool_has key name pack matched st -> tool_has key name pack matched st'.
Proof.
  intros Hev (t & Hget & Hn & Hp & Hm).
  destruct (ev_tools _ _ Hev key t Hget) as (t' & Hget' & []).
  exists t'. split_and!; [done|..]; set_solver.
Qed.




Lemma tool_has_record_tool key info name pack matched st :
  tool_has key name pack matched (record_tool key info name pack matched st).
Proof.
  eexists. split; [apply DictFacts.get_upsert|]. cbn. split_and!.
  - apply append_new_elem.
  - apply elem_of_union. right. by apply elem_of_singleton.
  - apply elem_of_union. right. by apply elem_of_singleton.
Qed.



Lemma for_each_completed_inv {A : Type} (body : AnalysisState -> A -> Outcome) l st x :
  x ∈ l -> completed (for_each body l st) = true ->
  exists s, completed (body s x) = true.
Proof.
  revert st. induction l as [|y l IH]; intros st Hx Hdone; simpl in *.
  - by apply elem_of_nil in Hx.
  - destruct (body st y) as [st'|st'] eqn:Hy; [|done].
    apply elem_of_cons in Hx as [->|Hx].
    + exists st. by rewrite Hy.
    + by apply (IH st').
Qed.





(** What the broken file leaves behind. *)
Example broken_file_registries :
  let st' := (analyze_artifact_file broken_file "artifact_pack.zip" initial_results).1 in
  Dict.keys (repositories_found st') = ["Velocidx/velociraptor"; "VirusTotal/yara"]
  /\ Dict.keys (tools_found st') = ["yara"]
  /\ Dict.keys (dependencies_found st') = ["example.org"]
  /\ Repo.referenced_in_artifacts <$> Dict.get "Velocidx/velociraptor" (repositories_found st')
     = Some ["Broken.Artifact"].
Proof. vm_compute. auto. Qed.

(** ** The tier bonus of the scorer *)

(** [hasattr(repo_info, 'tool_name')] is false for every dictionary, so
    factor 2 adds nothing. *)
Lemma tier_bonus_zero r : tier_bonus r = 0%Z.
Proof. reflexivity. Qed.

(** C1, on the code.  One bundle with one document that has the link
    [https://github.com/SigmaHQ/sigma/blob/master/rules/x.yml] and the word
    [sigma]: the registry ends with the one record [SigmaHQ/sigma], of tier
    critical, but the record was created by the repository pass, which runs
    first, so it has no tool back-reference; its score is 10 for the one
    document plus 20 for the organization, 30, and it is in the low
    bucket. *)
Theorem sigma_scenario_scores_thirty :
  let st := (run (one_document sigma_document)).1 in
  let r := record_after (one_document sigma_document) "SigmaHQ/sigma" in
  Dict.keys (repositories_found st) = ["SigmaHQ/sigma"]
  /\ Dict.get "SigmaHQ/sigma" (repositories_found st) = Some r
  /\ Repo.priority r = critical
  /\ Repo.tool_name r = None
  /\ Repo.referenced_in_artifacts r = ["Custom.Sigma.Rules"]
  /\ Repo.priority_score r = Some 30%Z
  /\ Repo.priority_category r = Some LowPriority
  /\ high_priority (fork_candidates st) = []
  /\ medium_priority (fork_candidates st) = []
  /\ low_priority (fork_candidates st) = ["SigmaHQ/sigma"].
Proof. vm_compute. repeat split; reflexivity. Qed.

(** C2, on the code.  One bundle with one document that names [yara]:
    the record [VirusTotal/yara] is created by the known-tool pass, carries
    the back-reference [yara] and the tier critical, and is scored 10, the
    one document; the tier adds nothing, here and for every record. *)
Theorem tool_tier_adds_nothing :
  let st := (run (one_document yara_document)).1 in
  let r := record_after (one_document yara_document) "VirusTotal/yara" in
  hasattr "tool_name" = false
  /\ (forall r', tier_bonus r' = 0%Z)
  /\ Dict.get "VirusTotal/yara" (repositories_found st) = Some r
  /\ Repo.tool_name r = Some "yara"
  /\ Repo.priority r = critical
  /\ Repo.referenced_in_artifacts r = ["Custom.Yara.Scan"]
  /\ Repo.priority_score r = Some 10%Z
  /\ Repo.priority_category r = Some LowPriority
  /\ low_priority (fork_candidates st) = ["VirusTotal/yara"].
Proof.
  split; [reflexivity|]. split; [apply tier_bonus_zero|].
  vm_compute. repeat split; reflexivity.
Qed.

Lemma fork_recommended_iff_score_witness :
  let fs := one_document broken_file in
  let st := (run fs).1 in
  let fc := fork_candidates st in
  let r := record_after fs "Velocidx/velociraptor" in
  Dict.get "Velocidx/velociraptor" (repositories_found st) = Some r
  /\ medium_priority fc = ["Velocidx/velociraptor"]
  /\ exists s b,
       Repo.priority_score r = Some s
       /\ Repo.fork_recommended r = Some b
       /\ (b = true <-> (40 <= s)%Z)
       /\ (b = true <->
           "Velocidx/velociraptor" ∈ high_priority fc
           \/ "Velocidx/velociraptor" ∈ medium_priority fc)
       /\ ("Velocidx/velociraptor" ∈ low_priority fc -> b = false).
Proof.
  split; [vm_compute; reflexivity|]. split; [vm_compute; reflexivity|].
  apply (fork_recommended_iff_score (one_document broken_file)
           "Velocidx/velociraptor"
           (record_after (one_document broken_file) "Velocidx/velociraptor")).
  vm_compute; reflexivity.
Defined.

(** ** The matcher consumes a prefix of accepted characters *)

Lemma accepted_cons ic n r c :
  accepted ic r c = true -> accepted ic (n :: r) c = true.
Proof. unfold accepted. simpl. intros ->. apply orb_true_r. Qed.

Lemma every_impl (P Q : ascii -> bool) s :
  (forall c, P c = true -> Q c = true) -> every P s = true -> every Q s = true.
Proof.
  intros HPQ. induction s as [|c s IH]; simpl; [done|].
  intros [Hc Hs]%andb_prop. by rewrite (HPQ c Hc), IH.
Qed.

Lemma every_app P s t : every P (s +:+ t) = every P s && every P t.
Proof.
  induction s as [|c s IH]; [done|].
  rewrite string_app_cons. simpl. by rewrite IH, andb_assoc.
Qed.

Lemma string_length_app s t :
  String.length (s +:+ t) = String.length s + String.length t.
Proof.
  induction s as [|c s IH]; [done|]. rewrite string_app_cons. simpl. by rewrite IH.
Qed.

Lemma greedy_consumed ok k s rest e :
  Re.greedy ok k s rest = Some e ->
  exists taken left s',
    rest = taken +:+ left
    /\ every ok taken = true
    /\ k s' left = Some e
    /\ length (Re.whole s') = length (Re.whole s) + String.length taken.
Proof.
  revert s. induction rest as [|c rest IH]; intros s; simpl.
  - intros Hk. exists EmptyString, EmptyString, s. split_and!; try done; simpl; lia.
  - destruct (ok c) eqn:Hc.
    + destruct (Re.greedy ok k (Re.consume c s) rest) as [r|] eqn:Hg.
      * intros [= ->]. destruct (IH _ Hg) as (taken & left & s' & -> & Hev & Hk & Hlen).
        exists (String c taken), left, s'. split_and!; try done.
        -- simpl. by rewrite Hc, Hev.
        -- rewrite Hlen. simpl. lia.
      * intros Hk. exists EmptyString, (String c rest), s.
        split_and!; try done; simpl; lia.
    + intros Hk. exists EmptyString, (String c rest), s.
      split_and!; try done; simpl; lia.
Qed.

Lemma consumed_step ic n r s c rest e :
  accepted ic (n :: r) c = true ->
  consumed ic r (Re.consume c s) rest e ->
  consumed ic (n :: r) s (String c rest) e.
Proof.
  intros Hc (taken & left & -> & Hev & Hlen).
  exists (String c taken), left. split_and!; [done|..].
  - cbn [every]. rewrite Hc. cbn [andb].
    eapply every_impl; [|exact Hev]. apply accepted_cons.
  - rewrite Hlen. simpl. lia.
Qed.

Lemma consumed_skip ic n r s s' rest e :
  length (Re.whole s') = length (Re.whole s) ->
  consumed ic r s' rest e -> consumed ic (n :: r) s rest e.
Proof.
  intros Hs (taken & left & -> & Hev & Hlen).
  exists taken, left. split_and!; [done|..].
  - eapply every_impl; [|exact Hev]. apply accepted_cons.
  - by rewrite Hlen, Hs.
Qed.

Lemma consumed_greedy ic a q r s rest e :
  (forall s' rest', Re.match_here ic r s' rest' = Some e -> consumed ic r s' rest' e) ->
  Re.greedy (Re.atom_ok ic a) (Re.match_here ic r) s rest = Some e ->
  consumed ic (Re.NAtom a q :: r) s rest e.
Proof.
  intros IH (taken & left & s' & -> & Hev & Hk & Hlen)%greedy_consumed.
  destruct (IH _ _ Hk) as (taken' & left' & -> & Hev' & Hlen').
  exists (taken +:+ taken'), left'. split_and!.
  - by rewrite string_app_assoc.
  - rewrite every_app. apply andb_true_intro. split.
    + eapply every_impl; [|exact Hev]. intros c Hc. unfold accepted. simpl.
      by rewrite Hc.
    + eapply every_impl; [|exact Hev']. apply accepted_cons.
  - rewrite Hlen', Hlen, string_length_app. lia.
Qed.

Lemma match_here_consumed ic r s rest e :
  Re.match_here ic r s rest = Some e -> consumed ic r s rest e.
Proof.
  revert s rest. induction r as [|n r IH]; intros s rest; simpl.
  - intros [= ->]. exists EmptyString, rest. split_and!; try done; simpl; lia.
  - destruct n as [a [] | | |].
    + destruct rest as [|c rest]; [done|].
      destruct (Re.atom_ok ic a c) eqn:Hc; [|done]. intros He.
      apply consumed_step; [|by apply IH]. unfold accepted. simpl. by rewrite Hc.
    + assert (Re.match_here ic r s rest = Some e ->
              consumed ic (Re.NAtom a Re.Optional :: r) s rest e) as Hskip.
      { intros He. apply (consumed_skip _ _ _ _ s); [done|by apply IH]. }
      destruct rest as [|c rest]; [done|].
      destruct (Re.atom_ok ic a c) eqn:Hc; [|done].
      destruct (Re.match_here ic r (Re.consume c s) rest) as [e'|] eqn:He'; [|done].
      intros [= ->].
      apply consumed_step; [|by apply IH]. unfold accepted. simpl. by rewrite Hc.
    + apply consumed_greedy. intros s' rest'. apply IH.
    + destruct rest as [|c rest]; [done|].
      destruct (Re.atom_ok ic a c) eqn:Hc; [|done]. intros He.
      apply (consumed_greedy ic a Re.OneOrMore) in He; [|intros s' rest'; apply IH].
      destruct He as (taken & left & -> & Hev & Hlen).
      exists (String c taken), left. split_and!; [done|..].
      * simpl. rewrite Hev. unfold accepted. simpl. by rewrite Hc.
      * rewrite Hlen. simpl. lia.
    + destruct (Re.at_boundary s rest); [|done]. intros He.
      apply (consumed_skip _ _ _ _ s); [done|by apply IH].
    + intros He. apply (consumed_skip _ _ _ _ (Re.open_group s)); [done|by apply IH].
    + intros He. apply (consumed_skip _ _ _ _ (Re.close_group s)); [done|by apply IH].
Qed.

(** A match cannot run over a character that no atom accepts. *)
Lemma taken_stops_before P a c0 rest0 taken left :
  a +:+ String c0 rest0 = taken +:+ left ->
  every P taken = true -> P c0 = false ->
  String.length taken <= String.length a.
Proof.
  revert taken. induction a as [|x a IH]; intros taken Heq Hev Hc0.
  - destruct taken as [|y taken]; [done|].
    rewrite string_app_cons in Heq. injection Heq as <- _.
    simpl in Hev. by rewrite Hc0 in Hev.
  - destruct taken as [|y taken]; [simpl; lia|].
    rewrite !string_app_cons in Heq. injection Heq as <- Heq.
    simpl in Hev. apply andb_prop in Hev as [_ Hev].
    simpl. apply le_n_S. by apply IH.
Qed.

Lemma match_stops_before ic r before a c0 rest0 e :
  accepted ic r c0 = false ->
  Re.match_here ic r (Re.start before) (a +:+ String c0 rest0) = Some e ->
  length (Re.whole e) <= String.length a.
Proof.
  intros Hc0 (taken & left & Heq & Hev & Hlen)%match_here_consumed.
  rewrite Hlen. simpl. by eapply taken_stops_before.
Qed.

(** ** The nested query pass finds [osqueryi.exe] *)

Lemma exe_regex_compiled : Re.compile "(\w+\.exe)" = Some exe_regex.
Proof. vm_compute. reflexivity. Qed.

Lemma scan_skip ic r before c rest n :
  Re.scan ic r before (String c rest) (S n) = Re.scan ic r (Some c) rest n.
Proof. reflexivity. Qed.

Lemma scan_miss ic r before c rest :
  Re.match_here ic r (Re.start before) (String c rest) = None ->
  Re.scan ic r before (String c rest) 0 = Re.scan ic r (Some c) rest 0.
Proof. simpl. by intros ->. Qed.

Lemma scan_hit ic r before c rest e :
  Re.match_here ic r (Re.start before) (String c rest) = Some e ->
  Re.scan ic r before (String c rest) 0
  = Re.finish e :: Re.scan ic r (Some c) rest (Nat.pred (length (Re.whole e))).
Proof. simpl. by intros ->. Qed.

(** At [osqueryi.exe] the first executable pattern matches just that
    token, whatever stands before and after it. *)
Lemma match_osqueryi before after :
  Re.finish <$>
    Re.match_here true exe_regex (Re.start before) ("osqueryi.exe" +:+ after)
  = Some {| Re.group0 := "osqueryi.exe"; Re.groups := ["osqueryi.exe"] |}.
Proof. reflexivity. Qed.

Lemma backslash_not_accepted : accepted true exe_regex "\" = false.
Proof. reflexivity. Qed.

(** The scan cannot step over the token: a match that starts before the
    backslash ends before it. *)
Lemma scan_reaches_osqueryi a before after skip :
  skip <= String.length a ->
  exists m,
    m ∈ Re.scan true exe_regex before
          (a +:+ String "\" ("osqueryi.exe" +:+ after)) skip
    /\ executable_of m = "osqueryi.exe".
Proof.
  revert before skip. induction a as [|x a IH]; intros before skip Hskip.
  - assert (skip = 0) as -> by (simpl in Hskip; lia).
    change (EmptyString +:+ ?s) with s.
    rewrite scan_miss by reflexivity.
    pose proof (match_osqueryi (Some "\"%char) after) as Hm.
    destruct (Re.match_here true exe_regex (Re.start (Some "\"%char))
                ("osqueryi.exe" +:+ after)) as [e|] eqn:He; [|done].
    assert (Re.finish e
            = {| Re.group0 := "osqueryi.exe"; Re.groups := ["osqueryi.exe"] |})
      as Hfinish by (cbn [fmap option_fmap option_map] in Hm; congruence).
    change ("osqueryi.exe" +:+ after)
      with (String "o" ("squeryi.exe" +:+ after)) in *.
    rewrite (scan_hit _ _ _ _ _ _ He), Hfinish.
    eexists. split; [by left|done].
  - rewrite string_app_cons. destruct skip as [|n].
    + destruct (Re.match_here true exe_regex (Re.start before)
                  (String x (a +:+ String "\" ("osqueryi.exe" +:+ after))))
        as [e|] eqn:He.
      * rewrite (scan_hit _ _ _ _ _ _ He).
        pose proof (match_stops_before true exe_regex before (String x a) "\"
                      ("osqueryi.exe" +:+ after) e backslash_not_accepted He) as Hlen.
        destruct (IH (Some x) (Nat.pred (length (Re.whole e)))) as (m & Hm & Hex).
        { simpl in Hlen. lia. }
        exists m. split; [by right|done].
      * rewrite (scan_miss _ _ _ _ _ He). apply IH. lia.
    + rewrite scan_skip. apply IH. simpl in Hskip. lia.
Qed.

Lemma finditer_finds_osqueryi before after :
  exists m,
    m ∈ Re.finditer true "(\w+\.exe)" (before +:+ osqueryi_path +:+ after)
    /\ executable_of m = "osqueryi.exe".
Proof.
  unfold Re.finditer. rewrite exe_regex_compiled.
  replace (before +:+ osqueryi_path +:+ after)
    with ((before +:+ "C:\Windows\System32")
          +:+ String "\" ("osqueryi.exe" +:+ after)).
  - apply scan_reaches_osqueryi. lia.
  - rewrite string_app_assoc. f_equal.
Qed.

Lemma tool_has_check_executable name pack st executable key info :
  (key, info) ∈ known_tools ->
  existsb (fun p => Re.found true p executable) (ToolInfo.patterns info) = true ->
  tool_has key name pack executable (check_executable name pack st executable).
Proof.
  intros Hk Hfound. unfold check_executable.
  apply (fold_left_ensures (fun _ s => tool_has key name pack executable s)
           _ _ _ (key, info) Hk).
  - intros s. rewrite Hfound. apply tool_has_record_tool.
  - intros s [key' info'] _. apply tool_has_evolves.
    destruct (existsb _ (ToolInfo.patterns info'));
      [apply evolves_record_tool|apply evolves_refl].
Qed.

Lemma tool_has_analyze_vql_query q name pack st pattern m key info :
  pattern ∈ exe_patterns ->
  m ∈ Re.finditer true pattern q ->
  (key, info) ∈ known_tools ->
  existsb (fun p => Re.found true p (executable_of m)) (ToolInfo.patterns info) = true ->
  tool_has key name pack (executable_of m) (analyze_vql_query q name pack st).
Proof.
  intros Hpat Hm Hk Hfound. unfold analyze_vql_query.
  apply (fold_left_ensures (fun _ s => tool_has key name pack (executable_of m) s)
           _ _ _ pattern Hpat).
  - intros s.
    apply (fold_left_ensures (fun _ s => tool_has key name pack (executable_of m) s)
             _ _ _ (executable_of m)).
    + by apply (list_elem_of_fmap_2 executable_of).
    + intros s'. by apply tool_has_check_executable with info.
    + intros s' e _. apply tool_has_evolves, evolves_check_executable.
  - intros s p' _. apply tool_has_evolves.
    apply evolves_fold_left. apply evolves_check_executable.
Qed.

Lemma osquery_matches_osqueryi :
  exists info,
    ("osquery", info) ∈ known_tools
    /\ existsb (fun p => Re.found true p "osqueryi.exe") (ToolInfo.patterns info) = true.
Proof.
  eexists. split.
  - apply (list_elem_of_lookup_2 _ 10). reflexivity.
  - vm_compute. reflexivity.
Qed.

(** The nested pass over a query string that contains the path. *)
Lemma tool_has_osquery_query before after name pack st :
  tool_has "osquery" name pack "osqueryi.exe"
    (analyze_vql_query (before +:+ osqueryi_path +:+ after) name pack st).
Proof.
  destruct (finditer_finds_osqueryi before after) as (m & Hm & Hex).
  destruct osquery_matches_osqueryi as (info & Hk & Hfound).
  rewrite <- Hex. apply tool_has_analyze_vql_query with "(\w+\.exe)" info.
  - by left.
  - done.
  - done.
  - by rewrite Hex.
Qed.

(** Entries on which the body does not raise do not end the loop. *)
Lemma analyze_sources_done sources name pack st :
  IllTyped ∉ sources -> completed (analyze_sources sources name pack st) = true.
Proof.
  unfold analyze_sources. revert st.
  induction sources as [|source sources IH]; intros st Hok; [done|].
  apply not_elem_of_cons in Hok as [Hsource Hok].
  destruct source; cbn [for_each analyze_source]; [by apply IH..|done].
Qed.

Lemma analyze_sources_app earlier later name pack st :
  analyze_sources (earlier ++ later) name pack st
  = match analyze_sources earlier name pack st with
    | Done st' => analyze_sources later name pack st'
    | Raised st' => Raised st'
    end.
Proof.
  unfold analyze_sources. revert st.
  induction earlier as [|x earlier IH]; intros st; simpl; [done|].
  destruct (analyze_source name pack st x); [apply IH|done].
Qed.

Lemma tool_has_analyze_sources earlier later q key name pack matched st :
  IllTyped ∉ earlier ->
  (forall s, tool_has key name pack matched (analyze_vql_query q name pack s)) ->
  tool_has key name pack matched
    (state_of (analyze_sources (earlier ++ WithQuery q :: later) name pack st)).
Proof.
  intros Hok Hest. rewrite analyze_sources_app.
  pose proof (analyze_sources_done earlier name pack st Hok) as Hdone.
  destruct (analyze_sources earlier name pack st) as [st1|st1]; [|done].
  change (analyze_sources (WithQuery q :: later) name pack st1)
    with (analyze_sources later name pack (analyze_vql_query q name pack st1)).
  eapply tool_has_evolves; [apply evolves_analyze_sources|apply Hest].
Qed.

Lemma for_each_completed {A : Type} (body : AnalysisState -> A -> Outcome)
    (ok : A -> bool) l st :
  (forall s x, completed (body s x) = ok x) ->
  completed (for_each body l st) = forallb ok l.
Proof.
  intros Hbody. revert st. induction l as [|x l IH]; intros st; simpl; [done|].
  specialize (Hbody st x). destruct (body st x); simpl in *; rewrite <- Hbody; auto.
Qed.

(** Whether the download pass completes depends on the text alone. *)
Lemma completed_find_download_urls text name pack st :
  completed (find_download_urls text name pack st) = parses_all_urls text.
Proof.
  unfold find_download_urls, parses_all_urls.
  apply for_each_completed. intros s pattern.
  apply for_each_completed. intros s' url. unfold record_download.
  by destruct (urlparse_netloc url).
Qed.

Lemma tool_has_osquery_file f text pack st :
  content f = Some text -> parses_all_urls text = true ->
  reaches_query_with osqueryi_path f ->
  tool_has "osquery" (artifact_name_of f) pack "osqueryi.exe"
    (analyze_artifact_file f pack st).1.
Proof.
  intros Hcontent Hurls (earlier & later & before & after & Hsources & Hok).
  unfold analyze_artifact_file. rewrite Hcontent.
  pose proof (completed_find_download_urls text (artifact_name_of f) pack
    (find_known_tools text (artifact_name_of f) pack
       (find_github_repositories text (artifact_name_of f) pack st))) as Hdone.
  rewrite Hurls in Hdone. destruct (find_download_urls _ _ _ _) as [st'|st']; [|done].
  pose proof (tool_has_analyze_sources earlier later
                (before +:+ osqueryi_path +:+ after) "osquery" (artifact_name_of f)
                pack "osqueryi.exe" st' Hok) as Hhas.
  rewrite <- Hsources in Hhas.
  destruct (analyze_sources _ _ _ _); cbn [fst state_of] in *;
    apply Hhas; intros s; apply tool_has_osquery_query.
Qed.

(** The loops over files and bundles, one step at a time. *)
Lemma analyze_files_log files pack st log :
  fold_left
    (fun '(st, log) f =>
       let '(st', lines) := analyze_artifact_file f pack st in
       (st', log ++ lines))
    files (st, log)
  = ((analyze_files files pack st).1, log ++ (analyze_files files pack st).2).
Proof.
  unfold analyze_files. revert st log.
  induction files as [|f files IH]; intros st log; simpl.
  - by rewrite app_nil_r.
  - destruct (analyze_artifact_file f pack st) as [st' lines].
    rewrite IH, (IH st' lines). simpl. by rewrite <- app_assoc.
Qed.

Lemma analyze_files_cons f files pack st :
  (analyze_files (f :: files) pack st).1
  = (analyze_files files pack (analyze_artifact_file f pack st).1).1.
Proof.
  unfold analyze_files at 1. simpl.
  destruct (analyze_artifact_file f pack st) as [st' lines].
  by rewrite analyze_files_log.
Qed.

Lemma analyze_files_ensures (Q : AnalysisState -> Prop) files pack st f :
  f ∈ files ->
  (forall s, Q (analyze_artifact_file f pack s).1) ->
  (forall s s', evolves s s' -> Q s -> Q s') ->
  Q (analyze_files files pack st).1.
Proof.
  intros Hin Hest Hkeep. revert st Hin.
  induction files as [|f' files IH]; intros st Hin.
  - by apply elem_of_nil in Hin.
  - rewrite analyze_files_cons. apply elem_of_cons in Hin as [<-|Hin].
    + eapply Hkeep; [apply evolves_analyze_files|apply Hest].
    + by apply IH.
Qed.

Lemma analyze_packs_ensures (Q : AnalysisState -> Prop) packs st name pack :
  (name, pack) ∈ packs ->
  (forall s, Q (analyze_artifact_pack name pack s).1) ->
  (forall s s', evolves s s' -> Q s -> Q s') ->
  Q (analyze_packs packs st).1.
Proof.
  intros Hin Hest Hkeep. revert st Hin.
  induction packs as [|[name' pack'] packs IH]; intros st Hin.
  - by apply elem_of_nil in Hin.
  - rewrite analyze_packs_cons.
    pose proof (Hest st) as Hhere.
    apply elem_of_cons in Hin as [[= <- <-]|Hin].
    + destruct (analyze_artifact_pack name pack st) as [st' lines]. cbn [fst] in *.
      eapply Hkeep; [apply evolves_analyze_packs|exact Hhere].
    + destruct (analyze_artifact_pack name' pack' st) as [st' lines]. cbn [fst].
      by apply IH.
Qed.

Lemma tool_has_post_process key name pack matched st :
  tool_has key name pack matched st ->
  tool_has key name pack matched (post_process_analysis st).
Proof. done. Qed.

(** C6, as the code has it.  When a document of a bundle can be read,
    [urlparse] accepts every download URL matched in its raw text (so the
    download pass does not raise and the nested pass is reached), and the
    loop over its sources reaches a source entry whose query string
    contains [C:\Windows\System32\osqueryi.exe] (no entry before it makes
    the loop raise), the run ends with a tool record for [osquery] that has
    the token [osqueryi.exe] in its matched patterns and lists the document
    and the bundle, whether or not the raw text has the word [osquery]. *)
Theorem nested_query_discovers_osquery
    (fs : FileSystem) (pack_name : string) (pack : PackFile)
    (yaml_files yml_files : list ArtifactFile) (f : ArtifactFile) (text : string) :
  pack_name ∈ expected_packs -> fs pack_name = Some pack ->
  extraction pack = Extracted yaml_files yml_files ->
  f ∈ yaml_files ++ yml_files ->
  content f = Some text -> parses_all_urls text = true ->
  reaches_query_with osqueryi_path f ->
  exists t,
    Dict.get "osquery" (tools_found (run fs).1) = Some t
    /\ artifact_name_of f ∈ Tool.referenced_in_artifacts t
    /\ pack_name ∈ Tool.referenced_in_packs t
    /\ "osqueryi.exe" ∈ Tool.patterns_matched t.
Proof.
  intros Hexp Hfs Hext Hf Hcontent Hurls Hquery.
  change (tool_has "osquery" (artifact_name_of f) pack_name "osqueryi.exe" (run fs).1).
  rewrite run_state. apply tool_has_post_process.
  apply analyze_packs_ensures with pack_name pack.
  - by apply present_packs_elem.
  - intros s. unfold analyze_artifact_pack. rewrite Hext.
    pose proof (analyze_files_ensures
                  (tool_has "osquery" (artifact_name_of f) pack_name "osqueryi.exe")
                  (yaml_files ++ yml_files) pack_name
                  (count_artifacts (length (yaml_files ++ yml_files)) s) f Hf) as Hfiles.
    destruct (analyze_files _ _ _) as [st' log]. cbn [fst] in *.
    eapply tool_has_evolves; [apply evolves_append_pack_info|].
    apply Hfiles.
    + intros s'. by apply tool_has_osquery_file with text.
    + intros s1 s2. apply tool_has_evolves.
  - intros s1 s2. apply tool_has_evolves.
Qed.

Lemma inventory_reaches_query : reaches_query_with osqueryi_path inventory_document.
Proof.
  exists [], [], "SELECT * FROM execve(argv=['", "', '--json'])".
  split; [reflexivity|]. intros Hin. by apply elem_of_nil in Hin.
Defined.

Lemma nested_query_discovers_osquery_witness :
  Text.contains "osquery" (Text.lower inventory_text) = false
  /\ Tool.patterns_matched (tool_after (one_document inventory_document) "osquery")
     = {["osqueryi.exe"]}
  /\ exists t,
       Dict.get "osquery" (tools_found (run (one_document inventory_document)).1)
       = Some t
       /\ "Custom.Windows.Inventory" ∈ Tool.referenced_in_artifacts t
       /\ "artifact_pack.zip" ∈ Tool.referenced_in_packs t
       /\ "osqueryi.exe" ∈ Tool.patterns_matched t.
Proof.
  split; [vm_compute; reflexivity|]. split; [vm_compute; reflexivity|].
  apply (nested_query_discovers_osquery
           (one_document inventory_document) "artifact_pack.zip"
           {| st_size := 1024; extraction := Extracted [inventory_document] [] |}
           [inventory_document] [] inventory_document inventory_text).
  - left.
  - reflexivity.
  - reflexivity.
  - left.
  - reflexivity.
  - vm_compute. reflexivity.
  - exact inventory_reaches_query.
Defined.

(** C6 as the claim states it fails on these two inputs.  The first
    document has the source entry with the path in its query string, but
    its download link makes [urlparse] raise in the download pass; the
    second has it after a source entry that is a bare number, on which the
    loop over the sources raises.  Either error is caught for the document,
    the entry with the path is never read, and the run ends without any
    record for [osquery]. *)
Lemma bracket_document_hides_osquery :
  let fs := one_document bracket_document in
  let fs' := one_document number_document in
  has_query_with osqueryi_path bracket_document
  /\ Re.finditer true "https?://[^\s]+\.exe" bracket_text
     = [ {| Re.group0 := "http://[mirror/setup.exe"; Re.groups := [] |} ]
  /\ urlparse_netloc "http://[mirror/setup.exe" = None
  /\ (run fs).2
     = [ Found "artifact_pack.zip"; Missing "artifact_pack_v2.zip";
         Analyzing "artifact_pack.zip"; ExtractedTo "extracted_artifact_pack";
         FoundArtifacts 1; ArtifactError "inventory" ]
  /\ Dict.get "osquery" (tools_found (run fs).1) = None
  /\ tools_found (run fs).1 = []
  /\ has_query_with osqueryi_path number_document
  /\ parses_all_urls number_text = true
  /\ sources_of number_document = [IllTyped; WithQuery inventory_query]
  /\ (run fs').2
     = [ Found "artifact_pack.zip"; Missing "artifact_pack_v2.zip";
         Analyzing "artifact_pack.zip"; ExtractedTo "extracted_artifact_pack";
         FoundArtifacts 1; ArtifactError "inventory" ]
  /\ Dict.get "osquery" (tools_found (run fs').1) = None
  /\ tools_found (run fs').1 = [].
Proof.
  assert (forall f, WithQuery inventory_query ∈ sources_of f ->
            has_query_with osqueryi_path f) as Hquery.
  { intros f Hin. exists (WithQuery inventory_query),
      "SELECT * FROM execve(argv=['", "', '--json'])". by split. }
  split; [apply Hquery; by left|].
  do 5 (split; [vm_compute; reflexivity|]).
  split; [apply Hquery; right; by left|].
  vm_compute. repeat split; reflexivity.
Qed.

(** * Further properties of the analyzer *)

(** ** An induction principle for the analysis

    Every method of the analysis is a loop over four kinds of registry
    update and the two counters of a bundle; what these keep, every method
    keeps. *)

Section Pipeline.
  Variable P : AnalysisState -> Prop.
  Hypothesis P_github :
    forall name pack st pattern content m,
      pattern ∈ github_patterns -> m ∈ Re.finditer true pattern content ->
      P st -> P (record_github_match name pack st m).
  Hypothesis P_tool :
    forall key info name pack matched st,
      (key, info) ∈ known_tools -> matches_tool info matched -> P st ->
      P (record_tool key info name pack matched st).
  Hypothesis P_tool_repository :
    forall key info name pack st,
      (key, info) ∈ known_tools -> P st ->
      P (record_tool_repository key info name pack st).
  Hypothesis P_download :
    forall name pack st url, P st -> P (state_of (record_download name pack st url)).

Lemma for_each_invariant {A : Type} (body : AnalysisState -> A -> Outcome) l st :
  (forall s x, P s -> P (state_of (body s x))) ->
  P st -> P (state_of (for_each body l st)).
Proof using Type.
  intros Hbody. revert st. induction l as [|x l IH]; intros st Hst; simpl; [done|].
  specialize (Hbody st x Hst). destruct (body st x); simpl in *; [by apply IH|done].
Qed.

Lemma invariant_find_github_repositories content name pack st :
  P st -> P (find_github_repositories content name pack st).
Proof using P_github.
  apply fold_left_invariant. intros s pattern Hp.
  apply fold_left_invariant. intros s' m Hm. by apply (P_github _ _ _ pattern content).
Qed.

Lemma invariant_find_known_tools content name pack st :
  P st -> P (find_known_tools content name pack st).
Proof using P_tool P_tool_repository.
  apply fold_left_invariant. intros s [key info] Hk.
  apply fold_left_invariant. intros s' pattern Hpattern Hs'.
  destruct (Re.found true pattern content); [|done].
  apply P_tool_repository; [done|]. apply P_tool; [done|by left|done].
Qed.

Lemma invariant_find_download_urls content name pack st :
  P st -> P (state_of (find_download_urls content name pack st)).
Proof using P_download.
  apply for_each_invariant. intros s pattern.
  apply for_each_invariant. intros s' url. apply P_download.
Qed.

Lemma invariant_analyze_vql_query q name pack st :
  P st -> P (analyze_vql_query q name pack st).
Proof using P_tool.
  apply fold_left_invariant. intros s pattern _.
  apply fold_left_invariant. intros s' executable _.
  apply fold_left_invariant. intros s'' [key info] Hk Hs''.
  destruct (existsb _ (ToolInfo.patterns info)) eqn:Hmatch; [|done].
  apply P_tool; [done|by right|done].
Qed.

Lemma invariant_analyze_sources sources name pack st :
  P st -> P (state_of (analyze_sources sources name pack st)).
Proof using P_tool.
  apply for_each_invariant. intros s source Hs.
  destruct source; [by apply invariant_analyze_vql_query|done..].
Qed.

Lemma invariant_analyze_artifact_file f pack st :
  P st -> P (analyze_artifact_file f pack st).1.
Proof using P_github P_tool P_tool_repository P_download.
  intros Hst. unfold analyze_artifact_file.
  destruct (content f) as [text|]; [|done].
  pose proof (invariant_find_download_urls text (artifact_name_of f) pack _
                (invariant_find_known_tools text (artifact_name_of f) pack _
                   (invariant_find_github_repositories text (artifact_name_of f)
                      pack st Hst))) as Hd.
  destruct (find_download_urls _ _ _ _) as [st'|st']; simpl in *; [|done].
  pose proof (invariant_analyze_sources (sources_of f) (artifact_name_of f) pack st' Hd)
    as Hs.
  by destruct (analyze_sources _ _ _ _).
Qed.

Lemma invariant_analyze_files files pack st :
  P st -> P (analyze_files files pack st).1.
Proof using P_github P_tool P_tool_repository P_download.
  revert st. induction files as [|f files IH]; intros st Hst; [done|].
  rewrite analyze_files_cons. by apply IH, invariant_analyze_artifact_file.
Qed.

  Hypothesis P_count : forall n st, P st -> P (count_artifacts n st).
  Hypothesis P_pack_info : forall info st, P st -> P (append_pack_info info st).

Lemma invariant_analyze_artifact_pack name pack st :
  P st -> P (analyze_artifact_pack name pack st).1.
Proof using All.
  intros Hst. unfold analyze_artifact_pack.
  destruct (extraction pack) as [|yaml yml]; [done|].
  pose proof (invariant_analyze_files (yaml ++ yml) name _
                (P_count (length (yaml ++ yml)) st Hst)) as Hf.
  destruct (analyze_files _ _ _) as [st' log]. cbn [fst] in *. by apply P_pack_info.
Qed.

Lemma invariant_analyze_packs packs st :
  P st -> P (analyze_packs packs st).1.
Proof using All.
  revert st. induction packs as [|[name pack] packs IH]; intros st Hst; [done|].
  rewrite analyze_packs_cons.
  pose proof (invariant_analyze_artifact_pack name pack st Hst) as Hp.
  destruct (analyze_artifact_pack name pack st) as [st' lines]. by apply IH.
Qed.
End Pipeline.

(** ** Items of a dictionary *)

Lemma alter_fresh {V : Type} (f : V -> V) k v (d : dict V) :
  Dict.get k d = None -> Dict.alter f k (d ++ [(k, v)]) = d ++ [(k, f v)].
Proof.
  induction d as [|[k0 v0] d IH]; simpl.
  - by rewrite decide_True.
  - destruct (decide (k = k0)); [done|]. intros Hd. by rewrite IH.
Qed.

Lemma every_item_alter {V : Type} (P : string -> V -> Prop) f k (d : dict V) :
  (forall w, P k w -> P k (f w)) ->
  every_item P d -> every_item P (Dict.alter f k d).
Proof.
  intros Hf. induction d as [|[k0 v0] d IH]; intros Hall; simpl; [done|].
  assert (every_item P d) as Hd by (intros k' v' Hin; apply Hall; by right).
  assert (P k0 v0) as H0 by (apply Hall; by left).
  destruct (decide (k = k0)) as [->|Hne].
  - intros k' v' [[= -> ->]|Hin]%elem_of_cons; [by apply Hf|by apply Hd].
  - intros k' v' [[= -> ->]|Hin]%elem_of_cons; [done|by apply IH].
Qed.

Lemma every_item_upsert {V : Type} (P : string -> V -> Prop) f k v (d : dict V) :
  (forall w, P k w -> P k (f w)) -> P k (f v) ->
  every_item P d -> every_item P (Dict.alter f k (Dict.setdefault k v d)).
Proof.
  intros Hf Hv Hall. unfold Dict.setdefault, Dict.mem.
  destruct (Dict.get k d) as [w|] eqn:Hk; [by apply every_item_alter|].
  rewrite alter_fresh by done.
  intros k' v' [Hin|[= -> ->]%list_elem_of_singleton]%elem_of_app; [by apply Hall|done].
Qed.

Lemma every_item_fmap {V : Type} (P : string -> V -> Prop) (g : V -> V) (d : dict V) :
  (forall k v, P k v -> P k (g v)) ->
  every_item P d -> every_item P (prod_map id g <$> d).
Proof.
  intros Hg Hall k v ([k' v'] & [= -> ->] & Hin)%list_elem_of_fmap.
  by apply Hg, Hall.
Qed.

Lemma every_item_get {V : Type} (P : string -> V -> Prop) (d : dict V) k v :
  every_item P d -> Dict.get k d = Some v -> P k v.
Proof. intros Hall Hget. by apply Hall, DictFacts.get_elem. Qed.

Lemma append_new_nonempty x l : append_new x l <> [].
Proof.
  intros Hnil. pose proof (append_new_elem x l) as Hin.
  rewrite Hnil in Hin. by apply elem_of_nil in Hin.
Qed.

Lemma union_singleton_nonempty (X : gset string) x : X ∪ {[x]} <> ∅.
Proof.
  intros Hempty. apply (not_elem_of_empty (C := gset string) x).
  rewrite <- Hempty. apply elem_of_union_r. by apply elem_of_singleton.
Qed.

(** ** The catalog *)

Lemma record_tool_repository_unfold name info artifact_name pack_name st :
  record_tool_repository name info artifact_name pack_name st =
  match tool_repository info with
  | Some (org, repo) =>
      with_repositories
        (fun repos =>
           Dict.alter
             (fun r => Repo.set_tier (ToolInfo.priority info) (ToolInfo.language info)
                         (Repo.add_reference artifact_name pack_name r))
             (repo_key org repo)
             (Dict.setdefault (repo_key org repo)
                (new_tool_repository org repo name info) repos))
        st
  | None => st
  end.
Proof.
  unfold record_tool_repository, tool_repository.
  destruct (Text.contains _ _); [|done].
  destruct (Re.search _ _ _) as [m|]; [|done].
  by destruct (Re.groups m) as [|org [|repo [|]]].
Qed.

Lemma catalog_entries_ok : forallb catalog_entry_ok known_tools = true.
Proof. vm_compute. reflexivity. Qed.

Lemma catalog_repository name info :
  (name, info) ∈ known_tools ->
  exists org repo,
    tool_repository info = Some (org, repo)
    /\ ToolInfo.repo_url info = "https://github.com/" +:+ repo_key org repo.
Proof.
  intros Hin. pose proof catalog_entries_ok as Hok.
  rewrite forallb_forall in Hok. apply list_elem_of_In, Hok in Hin.
  unfold catalog_entry_ok in Hin. cbn [snd] in Hin.
  destruct (tool_repository info) as [[org repo]|]; [|done].
  exists org, repo. split; [done|]. by apply bool_decide_eq_true in Hin.
Qed.

(** ** What every record of the registries satisfies *)

Definition repositories_sound (st : AnalysisState) : Prop :=
  every_item repo_sound (repositories_found st).

Definition repositories_tiered (st : AnalysisState) : Prop :=
  every_item repo_tiered (repositories_found st).

Definition tools_sound (st : AnalysisState) : Prop :=
  every_item tool_sound (tools_found st).

Definition dependencies_sound (st : AnalysisState) : Prop :=
  every_item dep_sound (dependencies_found st).

Ltac sound_fields :=
  split; cbn; try done;
  try apply append_new_nonempty; try apply union_singleton_nonempty.

Lemma repositories_sound_github name pack st m :
  repositories_sound st -> repositories_sound (record_github_match name pack st m).
Proof.
  unfold repositories_sound, record_github_match. intros Hst.
  destruct (Re.groups m) as [|org [|repo rest]]; [done..|]. cbn.
  apply every_item_upsert; [| |done].
  - intros w []. sound_fields.
  - sound_fields.
Qed.

Lemma repositories_sound_tool_repository key info name pack st :
  (key, info) ∈ known_tools ->
  repositories_sound st -> repositories_sound (record_tool_repository key info name pack st).
Proof.
  unfold repositories_sound. intros Hin Hst. rewrite record_tool_repository_unfold.
  destruct (catalog_repository key info Hin) as (org & repo & -> & Hurl). cbn.
  apply every_item_upsert; [| |done].
  - intros w []. sound_fields.
  - sound_fields.
Qed.

Lemma repositories_sound_post_process st :
  repositories_sound st -> repositories_sound (post_process_analysis st).
Proof.
  unfold repositories_sound. intros Hst. cbn.
  apply every_item_fmap; [by intros k v []|].
  apply every_item_fmap; [by intros k v []|done].
Qed.

Lemma repositories_sound_packs packs :
  repositories_sound (analyze_packs packs initial_results).1.
Proof.
  apply invariant_analyze_packs; try done.
  - intros name pack st pattern content m _ _. apply repositories_sound_github.
  - apply repositories_sound_tool_repository.
  - intros name pack st url. unfold record_download.
    by destruct (urlparse_netloc url).
  - intros k v Hin. by apply elem_of_nil in Hin.
Qed.

Lemma run_cases fs :
  (run fs).1 = initial_results
  \/ (run fs).1 = post_process_analysis (analyze_packs (present_packs fs) initial_results).1.
Proof.
  unfold run, analyze_all_packs.
  destruct (present_packs fs) as [|p ps] eqn:Hp; [by left|right].
  by destruct (analyze_packs (p :: ps) initial_results).
Qed.

(** No two catalog tools are filed under the same repository key. *)
Lemma catalog_keys_nodup : NoDup (omap (fun entry => catalog_key entry.2) known_tools).
Proof. apply (bool_decide_unpack _). vm_compute. reflexivity. Qed.

Lemma omap_nodup_inj {A B : Type} (f : A -> option B) (l : list A) x y k :
  NoDup (omap f l) -> x ∈ l -> y ∈ l -> f x = Some k -> f y = Some k -> x = y.
Proof.
  induction l as [|z l IH]; intros Hnd Hx Hy Hfx Hfy; [by apply elem_of_nil in Hx|].
  assert (forall w, w ∈ l -> f w = Some k -> k ∈ omap f l) as Hmem.
  { intros w Hw Hfw. apply list_elem_of_omap. by exists w. }
  change (omap f (z :: l)) with (match f z with Some b => b :: omap f l | None => omap f l end) in Hnd.
  apply elem_of_cons in Hx as [->|Hx]; apply elem_of_cons in Hy as [->|Hy]; [done|..].
  - rewrite Hfx in Hnd. apply NoDup_cons in Hnd as [Hk _]. destruct Hk. by eapply Hmem.
  - rewrite Hfy in Hnd. apply NoDup_cons in Hnd as [Hk _]. destruct Hk. by eapply Hmem.
  - apply IH; try done. destruct (f z); [by apply NoDup_cons in Hnd as [_ ?]|done].
Qed.

Lemma catalog_key_inj key name1 info1 name2 info2 :
  (name1, info1) ∈ known_tools -> (name2, info2) ∈ known_tools ->
  catalog_key info1 = Some key -> catalog_key info2 = Some key ->
  name1 = name2 /\ info1 = info2.
Proof.
  intros H1 H2 Hk1 Hk2.
  pose proof (omap_nodup_inj (fun entry => catalog_key entry.2) known_tools
                (name1, info1) (name2, info2) key catalog_keys_nodup H1 H2 Hk1 Hk2) as Heq.
  by injection Heq.
Qed.

Lemma repositories_tiered_github name pack st m :
  repositories_tiered st -> repositories_tiered (record_github_match name pack st m).
Proof.
  unfold repositories_tiered, record_github_match. intros Hst.
  destruct (Re.groups m) as [|org [|repo rest]]; [done..|]. cbn.
  apply every_item_upsert; [intros w Hw; exact Hw| |done].
  by left.
Qed.

Lemma repositories_tiered_tool_repository key info name pack st :
  (key, info) ∈ known_tools ->
  repositories_tiered st ->
  repositories_tiered (record_tool_repository key info name pack st).
Proof.
  unfold repositories_tiered. intros Hin Hst. rewrite record_tool_repository_unfold.
  destruct (tool_repository info) as [[org repo]|] eqn:Hrepo; [|done]. cbn.
  assert (catalog_key info = Some (repo_key org repo)) as Hkey
    by (unfold catalog_key; by rewrite Hrepo).
  apply every_item_upsert; [| |done].
  - intros w Hw. right. exists key, info. cbn. split_and!; try done.
    destruct Hw as [(_ & _ & ->)|(name' & info' & Hin' & Hkey' & _ & _ & Hname)];
      [by left|].
    destruct (catalog_key_inj _ _ _ _ _ Hin' Hin Hkey' Hkey) as [-> ->]. done.
  - right. exists key, info. cbn. split_and!; try done. by right.
Qed.

Lemma repositories_tiered_post_process st :
  repositories_tiered st -> repositories_tiered (post_process_analysis st).
Proof.
  unfold repositories_tiered. intros Hst. cbn.
  apply every_item_fmap; [intros k v Hv; exact Hv|].
  apply every_item_fmap; [intros k v Hv; exact Hv|done].
Qed.

Lemma repositories_tiered_packs packs :
  repositories_tiered (analyze_packs packs initial_results).1.
Proof.
  apply invariant_analyze_packs; try done.
  - intros name pack st pattern content m _ _. apply repositories_tiered_github.
  - apply repositories_tiered_tool_repository.
  - intros name pack st url. unfold record_download.
    by destruct (urlparse_netloc url).
  - intros k v Hin. by apply elem_of_nil in Hin.
Qed.

Lemma tools_found_tool_repository key info name pack st :
  tools_found (record_tool_repository key info name pack st) = tools_found st.
Proof.
  rewrite record_tool_repository_unfold. by destruct (tool_repository info) as [[]|].
Qed.

Lemma tools_sound_packs packs :
  tools_sound (analyze_packs packs initial_results).1.
Proof.
  apply invariant_analyze_packs; try done.
  - intros name pack st pattern content m _ _. unfold tools_sound, record_github_match.
    by destruct (Re.groups m) as [|org [|repo rest]].
  - intros key info name pack matched st Hin _ Hst. unfold tools_sound, record_tool. cbn.
    apply every_item_upsert; [| |done].
    + intros w []. sound_fields.
    + sound_fields. by exists info.
  - intros key info name pack st _. unfold tools_sound.
    by rewrite tools_found_tool_repository.
  - intros name pack st url. unfold record_download.
    by destruct (urlparse_netloc url).
  - intros k v Hin. by apply elem_of_nil in Hin.
Qed.

Lemma dependencies_found_tool_repository key info name pack st :
  dependencies_found (record_tool_repository key info name pack st)
  = dependencies_found st.
Proof.
  rewrite record_tool_repository_unfold. by destruct (tool_repository info) as [[]|].
Qed.

Lemma dependencies_sound_packs packs :
  dependencies_sound (analyze_packs packs initial_results).1.
Proof.
  apply invariant_analyze_packs; try done.
  - intros name pack st pattern content m _ _.
    unfold dependencies_sound, record_github_match.
    by destruct (Re.groups m) as [|org [|repo rest]].
  - intros key info name pack st _. unfold dependencies_sound.
    by rewrite dependencies_found_tool_repository.
  - intros name pack st url Hst. unfold dependencies_sound, record_download.
    destruct (urlparse_netloc url) as [domain|] eqn:Hurl; [|done]. cbn.
    apply every_item_upsert; [| |done].
    + intros w [Hd Ha Hp Hn Hu]. sound_fields.
      intros url' [Hold| ->%elem_of_singleton]%elem_of_union; [by apply Hu|done].
    + sound_fields. intros url' [Hold| ->%elem_of_singleton]%elem_of_union; [|done].
      by apply not_elem_of_empty in Hold.
  - intros k v Hin. by apply elem_of_nil in Hin.
Qed.

Lemma run_invariant (P : AnalysisState -> Prop) fs :
  P initial_results ->
  (forall packs, P (analyze_packs packs initial_results).1) ->
  (forall st, P st -> P (post_process_analysis st)) ->
  P (run fs).1.
Proof.
  intros Hinit Hpacks Hpost. destruct (run_cases fs) as [-> | ->]; [done|].
  apply Hpost, Hpacks.
Qed.

(** X2. After a run, a record of [repositories_found] is filed under
    [organization/repository_name] of its own fields, its URL is
    [https://github.com/] followed by that key, it is referenced by at
    least one document and one bundle, and [stars] and [license] still have
    their initial values 0 and [unknown]. *)
Theorem repository_record_matches_key (fs : FileSystem) (key : string) (r : Repo.t) :
  Dict.get key (repositories_found (run fs).1) = Some r ->
  key = repo_key (Repo.organization r) (Repo.repository_name r)
  /\ Repo.repository_url r = "https://github.com/" +:+ key
  /\ Repo.referenced_in_artifacts r <> []
  /\ Repo.referenced_in_packs r <> ∅
  /\ Repo.stars r = 0%Z
  /\ Repo.license r = "unknown".
Proof.
  intros Hget.
  assert (repositories_sound (run fs).1) as Hsound.
  { apply run_invariant.
    - intros k v Hin. by apply elem_of_nil in Hin.
    - apply repositories_sound_packs.
    - apply repositories_sound_post_process. }
  by destruct (every_item_get _ _ _ _ Hsound Hget).
Qed.

Lemma repository_record_matches_key_witness :
  let fs := one_document broken_file in
  let r := record_after fs "Velocidx/velociraptor" in
  Dict.get "Velocidx/velociraptor" (repositories_found (run fs).1) = Some r
  /\ "Velocidx/velociraptor" = repo_key (Repo.organization r) (Repo.repository_name r)
  /\ Repo.repository_url r = "https://github.com/Velocidx/velociraptor"
  /\ Repo.referenced_in_artifacts r <> []
  /\ Repo.referenced_in_packs r <> ∅
  /\ Repo.stars r = 0%Z
  /\ Repo.license r = "unknown".
Proof.
  split; [vm_compute; reflexivity|].
  apply (repository_record_matches_key (one_document broken_file)
           "Velocidx/velociraptor"
           (record_after (one_document broken_file) "Velocidx/velociraptor")).
  vm_compute. reflexivity.
Defined.

(** X3. After a run, a record of [repositories_found] either was never
    touched by the known-tool pass (tier [unknown], language [unknown], no
    back-reference), or its key is the repository of a catalog tool and it
    has that tool's tier and language; its back-reference, when it has
    one, is that tool's name. *)
Theorem record_tier_comes_from_catalog (fs : FileSystem) (key : string) (r : Repo.t) :
  Dict.get key (repositories_found (run fs).1) = Some r ->
  (Repo.priority r = unknown /\ Repo.language r = "unknown" /\ Repo.tool_name r = None)
  \/ exists name info,
       (name, info) ∈ known_tools
       /\ ToolInfo.repo_url info = "https://github.com/" +:+ key
       /\ Repo.priority r = ToolInfo.priority info
       /\ Repo.language r = ToolInfo.language info
       /\ (Repo.tool_name r = None \/ Repo.tool_name r = Some name).
Proof.
  intros Hget.
  assert (repositories_tiered (run fs).1) as Htiered.
  { apply run_invariant.
    - intros k v Hin. by apply elem_of_nil in Hin.
    - apply repositories_tiered_packs.
    - apply repositories_tiered_post_process. }
  destruct (every_item_get _ _ _ _ Htiered Hget)
    as [Hplain|(name & info & Hin & Hkey & Hrest)]; [by left|right].
  exists name, info. split; [done|]. split; [|done].
  destruct (catalog_repository name info Hin) as (org & repo & Hrepo & Hurl).
  unfold catalog_key in Hkey. rewrite Hrepo in Hkey. cbn in Hkey. congruence.
Qed.

Lemma record_tier_comes_from_catalog_witness :
  let fs := one_document yara_document in
  let r := record_after fs "VirusTotal/yara" in
  Dict.get "VirusTotal/yara" (repositories_found (run fs).1) = Some r
  /\ ((Repo.priority r = unknown /\ Repo.language r = "unknown"
        /\ Repo.tool_name r = None)
      \/ exists name info,
           (name, info) ∈ known_tools
           /\ ToolInfo.repo_url info = "https://github.com/VirusTotal/yara"
           /\ Repo.priority r = ToolInfo.priority info
           /\ Repo.language r = ToolInfo.language info
           /\ (Repo.tool_name r = None \/ Repo.tool_name r = Some name)).
Proof.
  split; [vm_compute; reflexivity|].
  apply (record_tier_comes_from_catalog (one_document yara_document)
           "VirusTotal/yara"
           (record_after (one_document yara_document) "VirusTotal/yara")).
  vm_compute. reflexivity.
Defined.

(** X4. After a run, every key of [tools_found] is a key of the catalog
    [known_tools], and the record copies that entry's URL, tier, language
    and description; it names at least one document, one bundle and one
    matched pattern. *)
Theorem tool_record_copies_catalog (fs : FileSystem) (key : string) (t : Tool.t) :
  Dict.get key (tools_found (run fs).1) = Some t ->
  Tool.tool_name t = key
  /\ (exists info,
        (key, info) ∈ known_tools
        /\ Tool.repository_url t = ToolInfo.repo_url info
        /\ Tool.priority t = ToolInfo.priority info
        /\ Tool.language t = ToolInfo.language info
        /\ Tool.description t = ToolInfo.description info)
  /\ Tool.referenced_in_artifacts t <> []
  /\ Tool.referenced_in_packs t <> ∅
  /\ Tool.patterns_matched t <> ∅.
Proof.
  intros Hget.
  assert (tools_sound (run fs).1) as Hsound.
  { apply run_invariant.
    - intros k v Hin. by apply elem_of_nil in Hin.
    - apply tools_sound_packs.
    - done. }
  by destruct (every_item_get _ _ _ _ Hsound Hget).
Qed.

Lemma tool_record_copies_catalog_witness :
  let fs := one_document inventory_document in
  let t := tool_after fs "osquery" in
  Dict.get "osquery" (tools_found (run fs).1) = Some t
  /\ Tool.tool_name t = "osquery"
  /\ (exists info,
        ("osquery", info) ∈ known_tools
        /\ Tool.repository_url t = ToolInfo.repo_url info
        /\ Tool.priority t = ToolInfo.priority info
        /\ Tool.language t = ToolInfo.language info
        /\ Tool.description t = ToolInfo.description info)
  /\ Tool.referenced_in_artifacts t <> []
  /\ Tool.referenced_in_packs t <> ∅
  /\ Tool.patterns_matched t <> ∅.
Proof.
  split; [vm_compute; reflexivity|].
  apply (tool_record_copies_catalog (one_document inventory_document) "osquery"
           (tool_after (one_document inventory_document) "osquery")).
  vm_compute. reflexivity.
Defined.

(** X5. After a run, a record of [dependencies_found] is filed under its
    own [domain], every URL it collected has that host part, and it holds
    at least one URL, one document and one bundle. *)
Theorem dependency_groups_urls_by_host (fs : FileSystem) (key : string) (d : Dep.t) :
  Dict.get key (dependencies_found (run fs).1) = Some d ->
  Dep.domain d = key
  /\ (forall url, url ∈ Dep.urls_found d -> urlparse_netloc url = Some key)
  /\ Dep.urls_found d <> ∅
  /\ Dep.referenced_in_artifacts d <> []
  /\ Dep.referenced_in_packs d <> ∅.
Proof.
  intros Hget.
  assert (dependencies_sound (run fs).1) as Hsound.
  { apply run_invariant.
    - intros k v Hin. by apply elem_of_nil in Hin.
    - apply dependencies_sound_packs.
    - done. }
  by destruct (every_item_get _ _ _ _ Hsound Hget).
Qed.

Lemma dependency_groups_urls_by_host_witness :
  let fs := one_document broken_file in
  let d := dependency_after fs "example.org" in
  Dict.get "example.org" (dependencies_found (run fs).1) = Some d
  /\ Dep.domain d = "example.org"
  /\ (forall url, url ∈ Dep.urls_found d -> urlparse_netloc url = Some "example.org")
  /\ Dep.urls_found d <> ∅
  /\ Dep.referenced_in_artifacts d <> []
  /\ Dep.referenced_in_packs d <> ∅.
Proof.
  split; [vm_compute; reflexivity|].
  apply (dependency_groups_urls_by_host (one_document broken_file) "example.org"
           (dependency_after (one_document broken_file) "example.org")).
  vm_compute. reflexivity.
Defined.

(** ** Counting the documents *)

Lemma analyze_artifact_pack_counts name pack st :
  let st' := (analyze_artifact_pack name pack st).1 in
  total_artifacts st' = total_artifacts st + length (files_of pack)
  /\ sum_list (artifacts_count <$> artifact_packs_analyzed st')
     = sum_list (artifacts_count <$> artifact_packs_analyzed st)
       + length (files_of pack).
Proof.
  unfold analyze_artifact_pack, files_of.
  destruct (extraction pack) as [|yaml yml]; cbn zeta; cbn [fst]; [simpl; lia|].
  pose proof (same_bundles_analyze_files (yaml ++ yml) name
                (count_artifacts (length (yaml ++ yml)) st)) as [Hp Ht].
  destruct (analyze_files _ _ _) as [st' log]. cbn [fst] in *.
  cbn [total_artifacts artifact_packs_analyzed append_pack_info count_artifacts] in *.
  rewrite Hp, Ht, fmap_app, sum_list_with_app. cbn. lia.
Qed.

Lemma analyze_packs_counts packs st :
  let st' := (analyze_packs packs st).1 in
  total_artifacts st'
  = total_artifacts st + sum_list ((fun p => length (files_of p.2)) <$> packs)
  /\ sum_list (artifacts_count <$> artifact_packs_analyzed st')
     = sum_list (artifacts_count <$> artifact_packs_analyzed st)
       + sum_list ((fun p => length (files_of p.2)) <$> packs).
Proof.
  revert st. induction packs as [|[name pack] packs IH]; intros st.
  - cbn. lia.
  - cbn zeta. rewrite analyze_packs_cons.
    pose proof (analyze_artifact_pack_counts name pack st) as [Ht Hs].
    destruct (analyze_artifact_pack name pack st) as [st1 lines]. cbn [fst] in *.
    destruct (IH st1) as [IHt IHs]. rewrite IHt, IHs, Ht, Hs, fmap_cons.
    cbn [sum_list sum_list_with snd]. unfold id. lia.
Qed.

(** X6.  After a run, [total_artifacts] is the sum of the
    [artifacts_count] of the bundles listed in [artifact_packs_analyzed], and
    it is the number of [.yaml] and [.yml] files of the bundles that
    extract: a file is counted whether or not it could be read or analyzed
    to the end. *)
Theorem total_artifacts_counts_files (fs : FileSystem) :
  total_artifacts (run fs).1
  = sum_list (artifacts_count <$> artifact_packs_analyzed (run fs).1)
  /\ total_artifacts (run fs).1
     = sum_list ((fun p => length (files_of p.2)) <$> present_packs fs).
Proof.
  rewrite run_state.
  destruct (analyze_packs_counts (present_packs fs) initial_results) as [Ht Hs].
  cbn [total_artifacts artifact_packs_analyzed post_process_analysis
       enrich_repository_info prioritize_fork_candidates with_repositories
       with_fork_candidates] in *.
  rewrite Ht, Hs. cbn. lia.
Qed.

(** ** The cleaned repository name *)

Lemma lacks_before_first c sep s :
  lacks c s = true -> lacks c (Text.before_first sep s) = true.
Proof.
  induction s as [|a s IH]; simpl; [done|].
  intros [Ha Hs]%andb_prop. destruct (Ascii.eqb a sep); [done|].
  simpl. by rewrite Ha, IH.
Qed.

Lemma lacks_before_first_sep sep s : lacks sep (Text.before_first sep s) = true.
Proof.
  induction s as [|a s IH]; simpl; [done|].
  destruct (Ascii.eqb a sep) eqn:Ha; [done|]. simpl. by rewrite Ha, IH.
Qed.

Lemma lacks_rstrip c chars s :
  lacks c s = true -> lacks c (Text.rstrip chars s) = true.
Proof.
  induction s as [|a s IH]; simpl; [done|].
  intros [Ha Hs]%andb_prop. specialize (IH Hs).
  destruct (Text.rstrip chars s) as [|b t].
  - destruct (Text.char_in chars a); [done|]. simpl. by rewrite Ha.
  - cbn [lacks]. cbn [lacks] in IH. by rewrite Ha, IH.
Qed.

Lemma rstrip_idempotent chars s :
  Text.rstrip chars (Text.rstrip chars s) = Text.rstrip chars s.
Proof.
  induction s as [|a s IH]; simpl; [done|].
  destruct (Text.rstrip chars s) as [|b t] eqn:Ht.
  - destruct (Text.char_in chars a) eqn:Ha; [done|]. simpl. by rewrite Ha.
  - change (Text.rstrip chars (String a (String b t)))
      with (match Text.rstrip chars (String b t) with
            | EmptyString =>
                if Text.char_in chars a then EmptyString else String a EmptyString
            | String _ _ as t' => String a t'
            end).
    by rewrite IH.
Qed.

Lemma before_first_lacks sep s :
  lacks sep s = true -> Text.before_first sep s = s.
Proof.
  induction s as [|a s IH]; simpl; [done|].
  intros [Ha Hs]%andb_prop. apply negb_true_iff in Ha. by rewrite Ha, IH.
Qed.

Lemma before_first_prefix sep s :
  exists rest, s = Text.before_first sep s +:+ rest.
Proof.
  induction s as [|a s [rest IH]]; simpl; [by exists EmptyString|].
  destruct (Ascii.eqb a sep); [by eexists|].
  exists rest. by rewrite string_app_cons, <- IH.
Qed.

Lemma rstrip_prefix chars s :
  exists rest, s = Text.rstrip chars s +:+ rest.
Proof.
  induction s as [|a s [rest IH]]; simpl; [by exists EmptyString|].
  destruct (Text.rstrip chars s) as [|b t].
  - destruct (Text.char_in chars a); [by eexists|].
    exists rest. by rewrite string_app_cons, <- IH.
  - exists rest. by rewrite string_app_cons, <- IH.
Qed.

(** X7.  Whatever was captured, the cleaned repository name has no [?]
    and no [#] and does not end in one of [. , ; )]; it is the beginning
    of the captured text; and cleaning it again changes nothing. *)
Theorem clean_repository_name_plain (repo : string) :
  plain (clean_repository_name repo) = true
  /\ (exists rest, repo = clean_repository_name repo +:+ rest)
  /\ clean_repository_name (clean_repository_name repo) = clean_repository_name repo.
Proof.
  unfold clean_repository_name.
  assert (lacks "?" (Text.rstrip ".,;)" (Text.before_first "#" (Text.before_first "?" repo)))
          = true) as Hq
    by apply lacks_rstrip, lacks_before_first, lacks_before_first_sep.
  assert (lacks "#" (Text.rstrip ".,;)" (Text.before_first "#" (Text.before_first "?" repo)))
          = true) as Hf
    by apply lacks_rstrip, lacks_before_first_sep.
  split_and!.
  - unfold plain. rewrite Hq, Hf. cbn [andb].
    apply bool_decide_eq_true, rstrip_idempotent.
  - destruct (before_first_prefix "?" repo) as [r1 H1].
    destruct (before_first_prefix "#" (Text.before_first "?" repo)) as [r2 H2].
    destruct (rstrip_prefix ".,;)" (Text.before_first "#" (Text.before_first "?" repo)))
      as [r3 H3].
    exists (r3 +:+ r2 +:+ r1).
    rewrite <- !string_app_assoc, <- H3, <- H2. exact H1.
  - rewrite (before_first_lacks "?") by done.
    rewrite (before_first_lacks "#") by done.
    apply rstrip_idempotent.
Qed.

(** ** What a bucket requires *)

Lemma score_bounds r :
  (Z.of_nat (length (Repo.referenced_in_artifacts r)) * 10 <= score r
   <= Z.of_nat (length (Repo.referenced_in_artifacts r)) * 10 + 45)%Z.
Proof.
  unfold score. rewrite tier_bonus_zero. unfold organization_bonus, keyword_bonus.
  repeat case_match; lia.
Qed.

(** X8.  After a run, the score of a record lies between ten times the
    number of its documents and that plus 45 (the two bonuses), and the
    record has at least one document.  So, whatever its tier, a record in
    the high bucket has at least four documents, a record with eight or
    more is in the high bucket, and a record in the low bucket has at most
    three.  [estimated_importance] is the number of documents. *)
Theorem bucket_needs_documents (fs : FileSystem) (k : string) (r : Repo.t) :
  Dict.get k (repositories_found (run fs).1) = Some r ->
  let n := length (Repo.referenced_in_artifacts r) in
  let fc := fork_candidates (run fs).1 in
  Repo.estimated_importance r = Some n
  /\ 1 <= n
  /\ (exists s, Repo.priority_score r = Some s
                /\ (Z.of_nat n * 10 <= s <= Z.of_nat n * 10 + 45)%Z)
  /\ (k ∈ high_priority fc -> 4 <= n)
  /\ (8 <= n -> k ∈ high_priority fc)
  /\ (k ∈ low_priority fc -> n <= 3).
Proof.
  rewrite run_state.
  pose proof (well_formed_analyze_packs (present_packs fs)) as Hwf.
  pose proof (repositories_sound_packs (present_packs fs)) as Hsound.
  set (st0 := (analyze_packs (present_packs fs) initial_results).1) in *.
  intros (r0 & Hget & ->)%post_process_record. cbn zeta.
  change (Repo.referenced_in_artifacts (enrich_record (score_record r0)))
    with (Repo.referenced_in_artifacts r0).
  pose proof (score_bounds r0) as Hb.
  destruct (every_item_get _ _ _ _ Hsound Hget) as [_ _ Hne _ _ _].
  assert (1 <= length (Repo.referenced_in_artifacts r0)) as Hn.
  { destruct (Repo.referenced_in_artifacts r0); [done|simpl; lia]. }
  split_and!; try done.
  - by exists (score r0).
  - change (high_priority ?f) with (bucket HighPriority f).
    rewrite (post_process_membership _ _ _ _ Hwf Hget), categorize_high. lia.
  - change (high_priority ?f) with (bucket HighPriority f).
    rewrite (post_process_membership _ _ _ _ Hwf Hget), categorize_high. lia.
  - change (low_priority ?f) with (bucket LowPriority f).
    rewrite (post_process_membership _ _ _ _ Hwf Hget), categorize_low. lia.
Qed.

Lemma bucket_needs_documents_witness :
  let fs := one_document broken_file in
  let r := record_after fs "Velocidx/velociraptor" in
  let n := length (Repo.referenced_in_artifacts r) in
  let fc := fork_candidates (run fs).1 in
  Dict.get "Velocidx/velociraptor" (repositories_found (run fs).1) = Some r
  /\ Repo.estimated_importance r = Some n
  /\ 1 <= n
  /\ (exists s, Repo.priority_score r = Some s
                /\ (Z.of_nat n * 10 <= s <= Z.of_nat n * 10 + 45)%Z)
  /\ ("Velocidx/velociraptor" ∈ high_priority fc -> 4 <= n)
  /\ (8 <= n -> "Velocidx/velociraptor" ∈ high_priority fc)
  /\ ("Velocidx/velociraptor" ∈ low_priority fc -> n <= 3).
Proof.
  split; [vm_compute; reflexivity|].
  apply (bucket_needs_documents (one_document broken_file) "Velocidx/velociraptor"
           (record_after (one_document broken_file) "Velocidx/velociraptor")).
  vm_compute. reflexivity.
Defined.

(** ** Saving the results *)

Lemma results_value_bundles date st :
  json_serializable (results_value date st) = true -> artifact_packs_analyzed st = [].
Proof.
  unfold results_value. cbn [json_serializable forallb snd].
  destruct (artifact_packs_analyzed st) as [|info l]; [done|].
  rewrite fmap_cons. cbn [forallb json_serializable pack_value snd].
  by rewrite !andb_false_r.
Qed.

Lemma usable_bundles fs :
  file_name <$> artifact_packs_analyzed (run fs).1 = List.filter (usable fs) expected_packs.
Proof.
  rewrite run_state, post_process_bundles, analyze_packs_bundles.
  apply present_packs_usable.
Qed.

Lemma filter_nil_existsb {A : Type} (f : A -> bool) (l : list A) :
  List.filter f l = [] <-> existsb f l = false.
Proof.
  induction l as [|x l IH]; simpl; [done|].
  destruct (f x); simpl; [split; done|exact IH].
Qed.

Lemma run_without_usable fs :
  existsb (usable fs) expected_packs = false -> (run fs).1 = initial_results.
Proof.
  intros Hnone. rewrite run_state, analyze_packs_without_failed.
  assert (List.filter (fun p => extractable p.2) (present_packs fs) = []) as ->.
  { apply filter_nil_existsb in Hnone.
    pose proof (present_packs_usable fs) as Hu. rewrite Hnone in Hu.
    by apply fmap_nil_inv in Hu. }
  reflexivity.
Qed.

(** X9.  Saving after a run succeeds only when there is nothing to save:
    [json.dump] accepts the results exactly when no expected bundle is
    present and extracts, and then the state is still the initial one.
    As soon as one bundle has been analyzed, its entry in
    [artifact_packs_analyzed] holds a [Path] object, [json.dump] raises
    [TypeError], and neither the summary nor the fork plan is written. *)
Theorem save_raises_once_a_bundle_is_analyzed (date : string) (fs : FileSystem) :
  json_serializable (results_value date (run fs).1)
  = negb (existsb (usable fs) expected_packs)
  /\ (save_analysis_results date (run fs).1 = Saved <->
      existsb (usable fs) expected_packs = false)
  /\ (save_analysis_results date (run fs).1 = Saved -> (run fs).1 = initial_results)
  /\ (save_after_run date fs = Some SaveRaises <->
      existsb (usable fs) expected_packs = true).
Proof.
  assert (json_serializable (results_value date (run fs).1)
          = negb (existsb (usable fs) expected_packs)) as Hjson.
  { destruct (existsb (usable fs) expected_packs) eqn:Hu; cbn [negb].
    - apply not_true_is_false. intros Hnil%results_value_bundles.
      pose proof (usable_bundles fs) as Hb. rewrite Hnil in Hb.
      symmetry in Hb. apply filter_nil_existsb in Hb. congruence.
    - by rewrite (run_without_usable fs Hu). }
  assert (save_analysis_results date (run fs).1 = Saved <->
          existsb (usable fs) expected_packs = false) as Hsaved.
  { unfold save_analysis_results. rewrite Hjson.
    by destruct (existsb (usable fs) expected_packs). }
  split_and!; try done.
  - intros Hs%Hsaved. by apply run_without_usable.
  - unfold save_after_run. split.
    + destruct (present_packs fs); [done|]. intros [= Hr].
      destruct (existsb (usable fs) expected_packs); [done|].
      destruct Hsaved as [_ Hsaved]. rewrite Hsaved in Hr; done.
    + intros Hu.
      assert (present_packs fs <> []) as Hne.
      { intros Hnil. pose proof (present_packs_usable fs) as Hp.
        rewrite Hnil in Hp. symmetry in Hp.
        apply filter_nil_existsb in Hp. congruence. }
      destruct (present_packs fs); [done|]. f_equal.
      unfold save_analysis_results. rewrite Hjson, Hu. done.
Qed.

(** ** What a group captures *)

Lemma every_string_of_list ok l :
  every ok (string_of_list_ascii l) = forallb ok l.
Proof. induction l as [|c l IH]; simpl; [done|]. by rewrite IH. Qed.

Lemma every_text_of ok g : forallb ok g = true -> every ok (Text.text_of g) = true.
Proof.
  unfold Text.text_of. rewrite every_string_of_list, !forallb_forall.
  intros Hg c Hc. apply Hg. by apply in_rev.
Qed.

Lemma every_lacks x s : every (fun c => negb (Ascii.eqb c x)) s = lacks x s.
Proof. induction s as [|c s IH]; simpl; [done|]. by rewrite IH. Qed.

Lemma greedy_invariant (Q R : Re.cursor -> Prop) ok k :
  (forall c s, ok c = true -> Q s -> Q (Re.consume c s)) ->
  (forall s rest e, Q s -> k s rest = Some e -> R e) ->
  forall s rest e, Q s -> Re.greedy ok k s rest = Some e -> R e.
Proof.
  intros Hstep Hk s rest. revert s.
  induction rest as [|c rest IH]; intros s e Hs; simpl; [by apply Hk|].
  destruct (ok c) eqn:Hc; [|by apply Hk].
  destruct (Re.greedy ok k (Re.consume c s) rest) as [e'|] eqn:Hg.
  - intros [= <-]. eapply IH; [|exact Hg]. by apply Hstep.
  - by apply Hk.
Qed.

Lemma captured_consume ic ok a r q c s :
  (forall a' c', a' ∈ group_atoms (in_group s) (Re.NAtom a q :: r) ->
     Re.atom_ok ic a' c' = true -> ok c' = true) ->
  Re.atom_ok ic a c = true ->
  captured ok s -> captured ok (Re.consume c s).
Proof.
  unfold captured, in_group. cbn [group_atoms Re.consume Re.cur Re.closed].
  intros Hatoms Hc [Hcur Hclosed]. split; [|done].
  destruct (Re.cur s) as [g|]; [|done]. cbn.
  rewrite Hcur, andb_true_r. apply (Hatoms a); [by left|done].
Qed.

Lemma group_atoms_tail inside a q r a' :
  a' ∈ group_atoms inside r -> a' ∈ group_atoms inside (Re.NAtom a q :: r).
Proof. cbn [group_atoms]. destruct inside; [by right|done]. Qed.

Lemma match_here_captured ic ok r :
  forall s rest e,
    (forall a c, a ∈ group_atoms (in_group s) r ->
       Re.atom_ok ic a c = true -> ok c = true) ->
    captured ok s -> Re.match_here ic r s rest = Some e -> captured ok e.
Proof.
  induction r as [|n r IH]; intros s rest e Hatoms Hs; [by intros [= <-]|].
  assert (forall c a q, n = Re.NAtom a q -> Re.atom_ok ic a c = true ->
            (forall a' c', a' ∈ group_atoms (in_group (Re.consume c s)) r ->
               Re.atom_ok ic a' c' = true -> ok c' = true)
            /\ captured ok (Re.consume c s)) as Hconsume.
  { intros c a q -> Hc. split.
    - intros a' c' Ha'. apply Hatoms.
      apply group_atoms_tail. revert Ha'. unfold in_group. cbn.
      by destruct (Re.cur s).
    - by apply (captured_consume ic ok a r q). }
  assert (forall a q, n = Re.NAtom a q ->
            forall a' c', a' ∈ group_atoms (in_group s) r ->
              Re.atom_ok ic a' c' = true -> ok c' = true) as Hskip.
  { intros a q -> a' c' Ha'. apply Hatoms. by apply group_atoms_tail. }
  assert (forall a q, n = Re.NAtom a q ->
            forall s0 rest0 e0,
              in_group s0 = in_group s /\ captured ok s0 ->
              Re.greedy (Re.atom_ok ic a) (Re.match_here ic r) s0 rest0 = Some e0 ->
              captured ok e0) as Hgreedy.
  { intros a q Hn s0 rest0 e0 Hs0.
    apply (greedy_invariant (fun s1 => in_group s1 = in_group s /\ captured ok s1)
             (captured ok)); [| |done].
    - intros c s1 Hc [Hin Hs1]. split.
      + rewrite <- Hin. unfold in_group. cbn. by destruct (Re.cur s1).
      + subst n. apply (captured_consume ic ok a r q); [|done|done].
        by rewrite Hin.
    - intros s1 rest1 e1 [Hin Hs1]. apply IH; [|done].
      rewrite Hin. by apply (Hskip a q Hn). }
  destruct n as [a q| | |]; cbn [Re.match_here].
  - destruct q.
    + destruct rest as [|c rest]; [done|].
      destruct (Re.atom_ok ic a c) eqn:Hc; [|done].
      destruct (Hconsume c a _ eq_refl Hc). by apply IH.
    + destruct rest as [|c rest]; [(apply IH; [by apply (Hskip a Re.Optional eq_refl)|done])|].
      destruct (Re.atom_ok ic a c) eqn:Hc; [|(apply IH; [by apply (Hskip a Re.Optional eq_refl)|done])].
      destruct (Hconsume c a _ eq_refl Hc) as [Ha Hcs].
      destruct (Re.match_here ic r (Re.consume c s) rest) as [e'|] eqn:He.
      * intros [= <-]. by apply (IH _ _ _ Ha Hcs He).
      * (apply IH; [by apply (Hskip a Re.Optional eq_refl)|done]).
    + by apply (Hgreedy a Re.ZeroOrMore eq_refl).
    + destruct rest as [|c rest]; [done|].
      destruct (Re.atom_ok ic a c) eqn:Hc; [|done].
      destruct (Hconsume c a _ eq_refl Hc) as [Ha Hcs].
      apply (Hgreedy a Re.OneOrMore eq_refl). split; [|done].
      unfold in_group. cbn. by destruct (Re.cur s).
  - destruct (Re.at_boundary s rest); [|done]. by apply IH.
  - apply IH; [exact Hatoms|]. destruct Hs as [_ Hclosed]. by split.
  - apply IH; [exact Hatoms|]. destruct Hs as [Hcur Hclosed].
    split; [done|]. cbn. destruct (Re.cur s) as [g|]; [|done].
    apply Forall_cons. split; [by apply every_text_of|done].
Qed.

Lemma scan_captured ic ok r :
  (forall a c, a ∈ group_atoms false r -> Re.atom_ok ic a c = true -> ok c = true) ->
  forall rest before skip m,
    m ∈ Re.scan ic r before rest skip ->
    Forall (fun t => every ok t = true) (Re.groups m).
Proof.
  intros Hatoms.
  assert (forall before rest e,
            Re.match_here ic r (Re.start before) rest = Some e ->
            Forall (fun t => every ok t = true) (Re.groups (Re.finish e))) as Hfinish.
  { intros before rest e He.
    apply (match_here_captured ic ok r) in He as [_ Hclosed]; [| done |by split].
    cbn. by apply Forall_rev. }
  induction rest as [|c rest IH]; intros before skip m.
  - destruct skip; cbn [Re.scan]; [|by intros ?%elem_of_nil].
    destruct (Re.match_here ic r (Re.start before) EmptyString) as [e|] eqn:He;
      [|by intros ?%elem_of_nil].
    intros ->%list_elem_of_singleton. by apply (Hfinish before EmptyString).
  - destruct skip; cbn [Re.scan]; [|by apply IH].
    destruct (Re.match_here ic r (Re.start before) (String c rest)) as [e|] eqn:He;
      [|by apply IH].
    intros [->|Hm]%elem_of_cons; [by apply (Hfinish before (String c rest))|].
    by apply IH in Hm.
Qed.

Lemma excludes_atom ic x a c :
  excludes x a = true -> Re.atom_ok ic a c = true -> negb (Ascii.eqb c x) = true.
Proof.
  destruct a as [| | | |[] ms]; try done. cbn [excludes Re.atom_ok xorb].
  intros (m & Hm & Hx)%existsb_exists Hc. apply negb_true_iff in Hc.
  destruct m as [y| |]; try done. apply Ascii.eqb_eq in Hx as ->.
  apply negb_true_iff, not_true_is_false. intros ->%Ascii.eqb_eq.
  assert (existsb (fun m => Re.member_ok ic m x) ms = true) as Hex; [|congruence].
  apply existsb_exists. exists (Re.MChar x). split; [done|].
  cbn. unfold Re.char_eq. destruct ic; apply Ascii.eqb_refl.
Qed.

Lemma finditer_groups_exclude x pattern content m :
  groups_exclude x pattern = true ->
  m ∈ Re.finditer true pattern content ->
  Forall (fun g => lacks x g = true) (Re.groups m).
Proof.
  unfold groups_exclude, Re.finditer.
  destruct (Re.compile pattern) as [r|]; [|by intros _ ?%elem_of_nil].
  intros Hr Hm.
  apply (scan_captured true (fun c => negb (Ascii.eqb c x))) in Hm.
  - eapply Forall_impl; [exact Hm|]. intros g Hg. by rewrite <- every_lacks.
  - intros a c Ha. apply excludes_atom.
    rewrite forallb_forall in Hr. by apply Hr, list_elem_of_In.
Qed.

Lemma github_groups_exclude_slash pattern :
  pattern ∈ github_patterns -> groups_exclude "/" pattern = true.
Proof.
  assert (forallb (groups_exclude "/") github_patterns = true) as Hall
    by (vm_compute; reflexivity).
  rewrite forallb_forall in Hall. intros Hin. by apply Hall, list_elem_of_In.
Qed.

Lemma catalog_entries_split : forallb catalog_entry_split known_tools = true.
Proof. vm_compute. reflexivity. Qed.

Lemma catalog_slash_free name info org repo :
  (name, info) ∈ known_tools -> tool_repository info = Some (org, repo) ->
  lacks "/" org = true /\ lacks "/" repo = true.
Proof.
  intros Hin Hrepo. pose proof catalog_entries_split as Hok.
  rewrite forallb_forall in Hok. apply list_elem_of_In, Hok in Hin.
  unfold catalog_entry_split in Hin. cbn [snd] in Hin. rewrite Hrepo in Hin.
  by apply andb_prop in Hin.
Qed.

(** ** The key of a record and the listed organizations *)

Lemma string_app_nil_l s : EmptyString +:+ s = s.
Proof. reflexivity. Qed.

Lemma repo_key_inj org1 repo1 org2 repo2 :
  lacks "/" org1 = true -> lacks "/" org2 = true ->
  repo_key org1 repo1 = repo_key org2 repo2 -> org1 = org2 /\ repo1 = repo2.
Proof.
  unfold repo_key.
  change ("/" +:+ repo1) with (String "/" repo1).
  change ("/" +:+ repo2) with (String "/" repo2). revert org2.
  induction org1 as [|c org1 IH]; intros [|d org2];
    rewrite ?string_app_nil_l, ?string_app_cons; cbn [lacks].
  - intros _ _ [= ->]. done.
  - intros _ [Hd _]%andb_prop [= <- _]. done.
  - intros [Hc _]%andb_prop _ [= -> _]. done.
  - intros [_ H1]%andb_prop [_ H2]%andb_prop [= -> Heq].
    destruct (IH org2 H1 H2 Heq) as [-> ->]. done.
Qed.

Lemma before_first_repo_key org repo :
  lacks "/" org = true -> Text.before_first "/" (repo_key org repo) = org.
Proof.
  intros Horg. unfold repo_key. rewrite before_first_app by done.
  change ("/" +:+ repo) with (String "/" repo).
  cbn [Text.before_first]. rewrite Ascii.eqb_refl. apply string_app_empty_r.
Qed.

Lemma lacks_clean c repo :
  lacks c repo = true -> lacks c (clean_repository_name repo) = true.
Proof.
  intros Hc. unfold clean_repository_name.
  by apply lacks_rstrip, lacks_before_first, lacks_before_first.
Qed.

Lemma every_item_impl {V : Type} (P Q : string -> V -> Prop) (d : dict V) :
  (forall k v, P k v -> Q k v) -> every_item P d -> every_item Q d.
Proof. intros HPQ Hd k v Hin. by apply HPQ, Hd. Qed.

Lemma every_item_and {V : Type} (P Q : string -> V -> Prop) (d : dict V) :
  every_item P d -> every_item Q d -> every_item (fun k v => P k v /\ Q k v) d.
Proof. intros HP HQ k v Hin. split; [by apply HP|by apply HQ]. Qed.

(** A record that is in the dictionary is still there after an upsert,
    changed by the update when it is the record of the key. *)
Lemma get_upsert_kept {V : Type} (f : V -> V) k v k' w (d : dict V) :
  Dict.get k' d = Some w ->
  Dict.get k' (Dict.alter f k (Dict.setdefault k v d)) = Some w
  \/ Dict.get k' (Dict.alter f k (Dict.setdefault k v d)) = Some (f w).
Proof.
  intros Hget. rewrite DictFacts.get_alter, DictFacts.get_setdefault, Hget.
  destruct (decide (k' = k)); [by right|by left].
Qed.

Lemma registry_sound_initial : registry_sound initial_results.
Proof.
  split; try (intros k v Hin; by apply elem_of_nil in Hin).
  split; [|intros k v Hin; by apply elem_of_nil in Hin].
  intros org Horg. by apply not_elem_of_empty in Horg.
Qed.

Lemma registry_sound_github name pack st pattern content m :
  pattern ∈ github_patterns -> m ∈ Re.finditer true pattern content ->
  registry_sound st -> registry_sound (record_github_match name pack st m).
Proof.
  intros Hp Hm [Hkeys Hsplit [Hlisted Hlinked]].
  pose proof (repositories_sound_github name pack st m Hkeys) as Hkeys'.
  pose proof (finditer_groups_exclude "/" pattern content m
                (github_groups_exclude_slash pattern Hp) Hm) as Hgroups.
  revert Hkeys'. unfold repositories_sound, record_github_match.
  destruct (Re.groups m) as [|org [|repo rest]]; [done..|].
  apply Forall_cons in Hgroups as [Horg [Hrepo%(lacks_clean "/") _]%Forall_cons].
  set (key := repo_key org (clean_repository_name repo)) in *.
  set (f := fun r => Repo.add_url (Re.group0 m) (Repo.add_reference name pack r)).
  set (v := new_repository org (clean_repository_name repo)).
  cbn [repositories_found add_organization with_repositories]. intros Hkeys'.
  assert (forall w, repo_sound key w -> slash_free w -> Repo.organization w = org)
    as Hsame.
  { intros w [Hk _ _ _ _ _] [Hw _]. by destruct (repo_key_inj _ _ _ _ Hw Horg (eq_sym Hk)). }
  split; [done| |split].
  - cbn [repositories_found add_organization with_repositories].
    apply every_item_upsert; [by intros w []|by split|done].
  - cbn [repositories_found organizations_found add_organization with_repositories].
    intros org' [Hold| ->%elem_of_singleton]%elem_of_union.
    + destruct (Hlisted org' Hold) as (key' & r' & Hget & Ho & Hu).
      exists key'.
      destruct (get_upsert_kept f key v key' r' _ Hget) as [Hkept|Hkept];
        eexists; (split; [exact Hkept|]); [done|].
      split; [done|]. apply union_singleton_nonempty.
    + exists key. eexists. split; [apply DictFacts.get_upsert|].
      split; [|apply union_singleton_nonempty].
      destruct (Dict.get key (repositories_found st)) as [w|] eqn:Hw; [|done].
      apply DictFacts.get_elem in Hw. cbn.
      apply Hsame; [by apply Hkeys|by apply (Hsplit key)].
  - cbn [repositories_found organizations_found add_organization with_repositories].
    apply (every_item_impl
             (fun k r => (repo_sound k r /\ slash_free r)
                         /\ (Repo.full_urls_found r <> ∅ ->
                             Repo.organization r ∈ organizations_found st ∪ {[org]}))).
    { by intros k r [_ ?]. }
    apply every_item_upsert.
    + intros w [[Hw1 Hw2] _]. split.
      * split; [|done]. destruct Hw1. sound_fields.
      * intros _. cbn. rewrite (Hsame w Hw1 Hw2).
        apply elem_of_union_r. by apply elem_of_singleton.
    + split.
      * split; [|by split]. sound_fields.
      * intros _. apply elem_of_union_r. by apply elem_of_singleton.
    + apply every_item_and; [by apply every_item_and|].
      eapply every_item_impl; [|exact Hlinked].
      intros k r Hr Hu. apply elem_of_union_l. by apply Hr.
Qed.

Lemma registry_sound_tool_repository key info name pack st :
  (key, info) ∈ known_tools ->
  registry_sound st -> registry_sound (record_tool_repository key info name pack st).
Proof.
  intros Hin [Hkeys Hsplit [Hlisted Hlinked]].
  pose proof (repositories_sound_tool_repository key info name pack st Hin Hkeys)
    as Hkeys'.
  revert Hkeys'. unfold repositories_sound. rewrite record_tool_repository_unfold.
  destruct (tool_repository info) as [[org repo]|] eqn:Hrepo; [|done].
  destruct (catalog_slash_free key info org repo Hin Hrepo) as [Horg Hname].
  set (f := fun r => Repo.set_tier (ToolInfo.priority info) (ToolInfo.language info)
                       (Repo.add_reference name pack r)).
  set (v := new_tool_repository org repo key info).
  cbn [repositories_found with_repositories]. intros Hkeys'.
  split; [done| |split].
  - cbn [repositories_found with_repositories].
    apply every_item_upsert; [by intros w []|by split|done].
  - cbn [repositories_found organizations_found with_repositories].
    intros org' Hold.
    destruct (Hlisted org' Hold) as (key' & r' & Hget & Ho & Hu).
    exists key'.
    destruct (get_upsert_kept f (repo_key org repo) v key' r' _ Hget) as [Hkept|Hkept];
      eexists; (split; [exact Hkept|]); done.
  - cbn [repositories_found organizations_found with_repositories].
    apply every_item_upsert; [by intros w Hw|by intros Hu|done].
Qed.

Lemma registry_sound_packs packs :
  registry_sound (analyze_packs packs initial_results).1.
Proof.
  apply invariant_analyze_packs.
  - apply registry_sound_github.
  - by intros key info name pack matched st _ _ [? ? []].
  - apply registry_sound_tool_repository.
  - intros name pack st url. unfold record_download.
    destruct (urlparse_netloc url); [|done]. by intros [? ? []].
  - by intros n st [? ? []].
  - by intros info st [? ? []].
  - apply registry_sound_initial.
Qed.

(** X10.  After a run, neither the organization nor the repository name
    of a record contains a slash, so the key of the record has exactly the
    one slash that joins them: the text before the first slash of the key
    is the organization, and two records with the same organization and
    name have the same key. *)
Theorem record_key_splits_at_slash (fs : FileSystem) (key : string) (r : Repo.t) :
  Dict.get key (repositories_found (run fs).1) = Some r ->
  lacks "/" (Repo.organization r) = true
  /\ lacks "/" (Repo.repository_name r) = true
  /\ Text.before_first "/" key = Repo.organization r
  /\ (forall org repo, lacks "/" org = true -> key = repo_key org repo ->
        org = Repo.organization r /\ repo = Repo.repository_name r).
Proof.
  rewrite run_state.
  intros (r0 & Hget%DictFacts.get_elem & ->)%post_process_record.
  destruct (registry_sound_packs (present_packs fs)) as [Hkeys Hsplit _].
  destruct (Hkeys _ _ Hget) as [Hkey _ _ _ _ _].
  destruct (Hsplit _ _ Hget) as [Horg Hname].
  change (Repo.organization (enrich_record (score_record r0)))
    with (Repo.organization r0).
  change (Repo.repository_name (enrich_record (score_record r0)))
    with (Repo.repository_name r0).
  split_and!; try done.
  - rewrite Hkey. by apply before_first_repo_key.
  - intros org repo Ho Hk. rewrite Hkey in Hk.
    by destruct (repo_key_inj _ _ _ _ Horg Ho Hk).
Qed.

Lemma record_key_splits_at_slash_witness :
  let fs := one_document broken_file in
  let r := record_after fs "Velocidx/velociraptor" in
  Dict.get "Velocidx/velociraptor" (repositories_found (run fs).1) = Some r
  /\ lacks "/" (Repo.organization r) = true
  /\ lacks "/" (Repo.repository_name r) = true
  /\ Text.before_first "/" "Velocidx/velociraptor" = Repo.organization r
  /\ (forall org repo, lacks "/" org = true ->
        "Velocidx/velociraptor" = repo_key org repo ->
        org = Repo.organization r /\ repo = Repo.repository_name r).
Proof.
  split; [vm_compute; reflexivity|].
  apply (record_key_splits_at_slash (one_document broken_file) "Velocidx/velociraptor"
           (record_after (one_document broken_file) "Velocidx/velociraptor")).
  vm_compute. reflexivity.
Defined.

(** X11.  After a run, [organizations_found] holds exactly the
    organizations of the records that have a matched URL: an organization
    none of whose records has one, because the known-tool pass alone made
    them, is not listed. *)
Theorem organizations_are_those_linked (fs : FileSystem) (org : string) :
  org ∈ organizations_found (run fs).1
  <-> exists key r,
        Dict.get key (repositories_found (run fs).1) = Some r
        /\ Repo.organization r = org
        /\ Repo.full_urls_found r <> ∅.
Proof.
  rewrite run_state.
  destruct (registry_sound_packs (present_packs fs)) as [_ _ [Hlisted Hlinked]].
  set (st0 := (analyze_packs (present_packs fs) initial_results).1) in *.
  change (organizations_found (post_process_analysis st0))
    with (organizations_found st0).
  split.
  - intros (key & r & Hget & Ho & Hu)%Hlisted.
    exists key, (enrich_record (score_record r)).
    by rewrite post_process_get, Hget.
  - intros (key & r & (r0 & Hget%DictFacts.get_elem & ->)%post_process_record & <- & Hu).
    by apply (Hlinked _ _ Hget).
Qed.

(** ** What each pass leaves alone *)

Lemma frame_record_tool key info name pack matched st0 st :
  same_context st0 st /\ same_repositories st0 st /\ same_dependencies st0 st ->
  same_context st0 (record_tool key info name pack matched st)
  /\ same_repositories st0 (record_tool key info name pack matched st)
  /\ same_dependencies st0 (record_tool key info name pack matched st).
Proof. done. Qed.

Lemma frame_record_tool_repository key info name pack st0 st :
  same_context st0 st /\ organizations_found st = organizations_found st0
  /\ same_dependencies st0 st ->
  same_context st0 (record_tool_repository key info name pack st)
  /\ organizations_found (record_tool_repository key info name pack st)
     = organizations_found st0
  /\ same_dependencies st0 (record_tool_repository key info name pack st).
Proof.
  rewrite record_tool_repository_unfold. by destruct (tool_repository info) as [[]|].
Qed.

(** X12.  Each pass over a document writes its own registries only.
    The repository pass leaves the tools and the download hosts alone; the
    known-tool pass leaves the download hosts and the listed organizations
    alone; the download pass, also when it raises, leaves the repositories,
    the organizations and the tools alone; and the pass over a nested query
    leaves the repositories, the organizations and the download hosts
    alone, so a tool that only a query reveals gets no repository record. *)
Theorem passes_write_their_own_registries
    (text artifact_name pack_name : string) (st : AnalysisState) :
  (let st' := find_github_repositories text artifact_name pack_name st in
   same_context st st' /\ same_tools st st' /\ same_dependencies st st')
  /\ (let st' := find_known_tools text artifact_name pack_name st in
      same_context st st' /\ organizations_found st' = organizations_found st
      /\ same_dependencies st st')
  /\ (let st' := state_of (find_download_urls text artifact_name pack_name st) in
      same_context st st' /\ same_repositories st st' /\ same_tools st st')
  /\ (let st' := analyze_vql_query text artifact_name pack_name st in
      same_context st st' /\ same_repositories st st' /\ same_dependencies st st').
Proof.
  split_and!.
  - apply (invariant_find_github_repositories
             (fun s => same_context st s /\ same_tools st s /\ same_dependencies st s));
      [|done].
    intros name pack s pattern content m _ _. unfold record_github_match.
    by destruct (Re.groups m) as [|org [|repo rest]].
  - apply (invariant_find_known_tools
             (fun s => same_context st s
                       /\ organizations_found s = organizations_found st
                       /\ same_dependencies st s)); [| |done].
    + by intros key info name pack matched s _ _.
    + intros key info name pack s _. apply frame_record_tool_repository.
  - apply (invariant_find_download_urls
             (fun s => same_context st s /\ same_repositories st s /\ same_tools st s));
      [|done].
    intros name pack s url. unfold record_download.
    by destruct (urlparse_netloc url).
  - apply (invariant_analyze_vql_query
             (fun s => same_context st s /\ same_repositories st s
                       /\ same_dependencies st s)); [|done].
    intros key info name pack matched s _ _. apply frame_record_tool.
Qed.

(** ** Matching without regard to case *)

Lemma lower_char_facts c :
  Text.lower_char (Text.lower_char c) = Text.lower_char c
  /\ Text.is_word (Text.lower_char c) = Text.is_word c
  /\ Text.is_space (Text.lower_char c) = Text.is_space c
  /\ Ascii.eqb (Text.lower_char c) "010" = Ascii.eqb c "010".
Proof. destruct c as [[] [] [] [] [] [] [] []]; vm_compute; done. Qed.

Lemma member_ok_lower m c :
  Re.member_ok true m (Text.lower_char c) = Re.member_ok true m c.
Proof.
  destruct (lower_char_facts c) as (Hl & Hw & Hs & _).
  destruct m; cbn; [by rewrite Hl|done..].
Qed.

Lemma atom_ok_lower a c :
  Re.atom_ok true a (Text.lower_char c) = Re.atom_ok true a c.
Proof.
  destruct (lower_char_facts c) as (Hl & Hw & Hs & Hn).
  destruct a as [x| | | |negated ms]; cbn; [by rewrite Hl|by rewrite Hn|done..|].
  f_equal. induction ms as [|m ms IH]; [done|].
  cbn [existsb]. by rewrite member_ok_lower, IH.
Qed.

Lemma atom_ok_same_lower a c1 c2 :
  Text.lower_char c1 = Text.lower_char c2 ->
  Re.atom_ok true a c1 = Re.atom_ok true a c2.
Proof. intros Hc. by rewrite <- (atom_ok_lower a c1), Hc, atom_ok_lower. Qed.

Lemma is_word_same_lower c1 c2 :
  Text.lower_char c1 = Text.lower_char c2 -> Text.is_word c1 = Text.is_word c2.
Proof.
  intros Hc. destruct (lower_char_facts c1) as (_ & <- & _).
  destruct (lower_char_facts c2) as (_ & <- & _). by rewrite Hc.
Qed.

Lemma alike_consume c1 c2 s1 s2 :
  Text.lower_char c1 = Text.lower_char c2 ->
  alike s1 s2 -> alike (Re.consume c1 s1) (Re.consume c2 s2).
Proof.
  intros Hc [_ Hlen]. split; cbn; [by apply is_word_same_lower|by rewrite Hlen].
Qed.

Lemma at_boundary_alike s1 s2 t1 t2 :
  Text.lower t1 = Text.lower t2 -> alike s1 s2 ->
  Re.at_boundary s1 t1 = Re.at_boundary s2 t2.
Proof.
  intros Ht [Hprev _]. unfold Re.at_boundary. rewrite Hprev. f_equal.
  destruct t1 as [|c1 t1], t2 as [|c2 t2]; try done.
  cbn in *. injection Ht as Hc _. by apply is_word_same_lower.
Qed.

Lemma greedy_alike a (k1 k2 : Re.cursor -> string -> option Re.cursor) :
  (forall s1 s2 t1 t2, Text.lower t1 = Text.lower t2 -> alike s1 s2 ->
     alike_results (k1 s1 t1) (k2 s2 t2)) ->
  forall t1 t2 s1 s2, Text.lower t1 = Text.lower t2 -> alike s1 s2 ->
    alike_results (Re.greedy (Re.atom_ok true a) k1 s1 t1)
                  (Re.greedy (Re.atom_ok true a) k2 s2 t2).
Proof.
  intros Hk. induction t1 as [|c1 t1 IH]; intros [|c2 t2] s1 s2 Ht Hs; try done.
  - by apply Hk.
  - cbn in Ht. injection Ht as Hc Ht. cbn [Re.greedy].
    rewrite (atom_ok_same_lower a c1 c2 Hc).
    assert (alike_results (k1 s1 (String c1 t1)) (k2 s2 (String c2 t2))) as Hstop
      by (apply Hk; [cbn; by rewrite Hc, Ht|done]).
    destruct (Re.atom_ok true a c2); [|done].
    pose proof (IH t2 (Re.consume c1 s1) (Re.consume c2 s2) Ht
                  (alike_consume c1 c2 s1 s2 Hc Hs)) as Hgo.
    destruct (Re.greedy _ k1 _ t1), (Re.greedy _ k2 _ t2); done.
Qed.

Lemma match_here_alike r :
  forall s1 s2 t1 t2, Text.lower t1 = Text.lower t2 -> alike s1 s2 ->
    alike_results (Re.match_here true r s1 t1) (Re.match_here true r s2 t2).
Proof.
  induction r as [|n r IH]; intros s1 s2 t1 t2 Ht Hs; [done|].
  destruct n as [a q| | |]; cbn [Re.match_here].
  - destruct q.
    + destruct t1 as [|c1 t1], t2 as [|c2 t2]; try done.
      cbn in Ht. injection Ht as Hc Ht. rewrite (atom_ok_same_lower a c1 c2 Hc).
      destruct (Re.atom_ok true a c2); [|done].
      by apply IH, alike_consume.
    + destruct t1 as [|c1 t1], t2 as [|c2 t2]; try done; [by apply IH|].
      pose proof (IH s1 s2 _ _ Ht Hs) as Hskip.
      cbn in Ht. injection Ht as Hc Ht. rewrite (atom_ok_same_lower a c1 c2 Hc).
      destruct (Re.atom_ok true a c2); [|done].
      pose proof (IH _ _ t1 t2 Ht (alike_consume c1 c2 s1 s2 Hc Hs)) as Hgo.
      destruct (Re.match_here true r (Re.consume c1 s1) t1),
               (Re.match_here true r (Re.consume c2 s2) t2); done.
    + by apply greedy_alike.
    + destruct t1 as [|c1 t1], t2 as [|c2 t2]; try done.
      cbn in Ht. injection Ht as Hc Ht. rewrite (atom_ok_same_lower a c1 c2 Hc).
      destruct (Re.atom_ok true a c2); [|done].
      apply greedy_alike; [done|done|by apply alike_consume].
  - rewrite (at_boundary_alike s1 s2 t1 t2 Ht Hs).
    destruct (Re.at_boundary s2 t2); [by apply IH|done].
  - apply IH; [done|]. by destruct Hs.
  - apply IH; [done|]. by destruct Hs.
Qed.

Lemma scan_alike r :
  forall t1 t2 b1 b2 skip,
    Text.lower t1 = Text.lower t2 -> Re.word_side b1 = Re.word_side b2 ->
    length (Re.scan true r b1 t1 skip) = length (Re.scan true r b2 t2 skip).
Proof.
  induction t1 as [|c1 t1 IH]; intros [|c2 t2] b1 b2 skip Ht Hb; try done.
  - destruct skip; [|done]. cbn [Re.scan].
    pose proof (match_here_alike r (Re.start b1) (Re.start b2) EmptyString EmptyString
                  eq_refl (conj Hb eq_refl)) as He.
    destruct (Re.match_here true r (Re.start b1) EmptyString),
             (Re.match_here true r (Re.start b2) EmptyString); done.
  - pose proof Ht as Ht'. cbn in Ht. injection Ht as Hc Ht.
    assert (Re.word_side (Some c1) = Re.word_side (Some c2)) as Hnext
      by (cbn; by apply is_word_same_lower).
    destruct skip; cbn [Re.scan]; [|by apply IH].
    pose proof (match_here_alike r (Re.start b1) (Re.start b2) _ _ Ht'
                  (conj Hb eq_refl)) as He.
    destruct (Re.match_here true r (Re.start b1) (String c1 t1)) as [e1|],
             (Re.match_here true r (Re.start b2) (String c2 t2)) as [e2|];
      try done; [|by apply IH].
    destruct He as [_ Hlen]. cbn [length]. rewrite Hlen. f_equal. by apply IH.
Qed.

Lemma found_same_lower pattern t1 t2 :
  Text.lower t1 = Text.lower t2 ->
  Re.found true pattern t1 = Re.found true pattern t2.
Proof.
  intros Ht. unfold Re.found, Re.search, Re.finditer.
  destruct (Re.compile pattern) as [r|]; [|done].
  pose proof (scan_alike r t1 t2 None None 0 Ht eq_refl) as Hlen.
  destruct (Re.scan true r None t1 0), (Re.scan true r None t2 0); done.
Qed.

Lemma fold_left_ext {A S : Type} (f g : S -> A -> S) l s :
  (forall s x, f s x = g s x) -> fold_left f l s = fold_left g l s.
Proof.
  intros Hfg. revert s. induction l as [|x l IH]; intros s; simpl; [done|].
  by rewrite Hfg, IH.
Qed.

(** X13.  The known-tool pass does not see the case of the text: two
    documents whose texts differ only in the case of their letters leave
    the same state, whatever the state before; so the two spellings that
    the catalog lists for most tools always match together. *)
Theorem known_tool_pass_ignores_case
    (text1 text2 artifact_name pack_name : string) (st : AnalysisState) :
  Text.lower text1 = Text.lower text2 ->
  find_known_tools text1 artifact_name pack_name st
  = find_known_tools text2 artifact_name pack_name st.
Proof.
  intros Ht. unfold find_known_tools.
  apply fold_left_ext. intros s [name info].
  apply fold_left_ext. intros s' pattern.
  by rewrite (found_same_lower pattern text1 text2 Ht).
Qed.

Lemma known_tool_pass_ignores_case_witness :
  Text.lower "Scan with YARA and Sigma rules" = Text.lower "scan with yara and sigma rules"
  /\ find_known_tools "Scan with YARA and Sigma rules" "Doc.One" "artifact_pack.zip"
       initial_results
     = find_known_tools "scan with yara and sigma rules" "Doc.One" "artifact_pack.zip"
         initial_results.
Proof.
  split; [reflexivity|].
  apply (known_tool_pass_ignores_case "Scan with YARA and Sigma rules"
           "scan with yara and sigma rules" "Doc.One" "artifact_pack.zip" initial_results).
  reflexivity.
Defined.

(** ** A document as a list of sightings *)

Lemma fold_left_flat_map {A B S : Type} (f : S -> B -> S) (g : A -> list B) l s :
  fold_left f (flat_map g l) s = fold_left (fun s x => fold_left f (g x) s) l s.
Proof.
  revert s. induction l as [|x l IH]; intros s; simpl; [done|].
  by rewrite fold_left_app, IH.
Qed.

Lemma fold_left_map {A B S : Type} (f : S -> B -> S) (g : A -> B) l s :
  fold_left f (map g l) s = fold_left (fun s x => f s (g x)) l s.
Proof. revert s. induction l as [|x l IH]; intros s; simpl; [done|]. by rewrite IH. Qed.

Lemma github_steps_run text name pack st :
  fold_left (run_step name pack) (github_steps text) st
  = find_github_repositories text name pack st.
Proof.
  unfold github_steps, find_github_repositories. rewrite fold_left_flat_map.
  apply fold_left_ext. intros s pattern. by rewrite fold_left_map.
Qed.

Lemma tool_steps_run text name pack st :
  fold_left (run_step name pack) (tool_steps text) st
  = find_known_tools text name pack st.
Proof.
  unfold tool_steps, find_known_tools. rewrite fold_left_flat_map.
  apply fold_left_ext. intros s [key info]. rewrite fold_left_flat_map.
  apply fold_left_ext. intros s' pattern. by destruct (Re.found true pattern text).
Qed.

Lemma executable_steps_run executable name pack st :
  fold_left (run_step name pack) (executable_steps executable) st
  = check_executable name pack st executable.
Proof.
  unfold executable_steps, check_executable. rewrite fold_left_flat_map.
  apply fold_left_ext. intros s [key info]. by destruct (existsb _ _).
Qed.

Lemma query_steps_run q name pack st :
  fold_left (run_step name pack) (query_steps q) st
  = analyze_vql_query q name pack st.
Proof.
  unfold query_steps, analyze_vql_query. rewrite fold_left_flat_map.
  apply fold_left_ext. intros s pattern. rewrite fold_left_flat_map.
  apply fold_left_ext. intros s' executable. apply executable_steps_run.
Qed.

Lemma source_steps_run sources name pack st :
  fold_left (run_step name pack) (source_steps sources) st
  = state_of (analyze_sources sources name pack st).
Proof.
  unfold analyze_sources. revert st.
  induction sources as [|source sources IH]; intros st; [done|].
  destruct source; cbn [source_steps for_each analyze_source state_of]; [|done..].
  by rewrite fold_left_app, query_steps_run, IH.
Qed.

Lemma for_each_app {A : Type} (body : AnalysisState -> A -> Outcome) l1 l2 st :
  for_each body (l1 ++ l2) st
  = match for_each body l1 st with
    | Done st' => for_each body l2 st'
    | Raised st' => Raised st'
    end.
Proof.
  revert st. induction l1 as [|x l1 IH]; intros st; simpl; [done|].
  destruct (body st x); [apply IH|done].
Qed.

Lemma for_each_flat_map {A B : Type} (body : AnalysisState -> B -> Outcome)
    (g : A -> list B) l st :
  for_each (fun s x => for_each body (g x) s) l st = for_each body (flat_map g l) st.
Proof.
  revert st. induction l as [|x l IH]; intros st; simpl; [done|].
  rewrite for_each_app. destruct (for_each body (g x) st); [apply IH|done].
Qed.

Lemma for_each_download urls name pack st :
  state_of (for_each (record_download name pack) urls st)
  = fold_left (run_step name pack) (map SDownload (parsed_prefix urls)) st.
Proof.
  revert st. induction urls as [|url urls IH]; intros st; [done|].
  cbn [for_each parsed_prefix]. unfold record_download at 1.
  pose proof (IH (state_of (record_download name pack st url))) as IH'.
  unfold record_download in IH' at 2.
  destruct (urlparse_netloc url) as [domain|] eqn:Hurl; [|done].
  cbn [map fold_left run_step]. unfold record_download at 2. by rewrite Hurl.
Qed.

Lemma download_steps_run text name pack st :
  fold_left (run_step name pack) (download_steps text) st
  = state_of (find_download_urls text name pack st).
Proof.
  unfold download_steps, find_download_urls, matched_urls.
  by rewrite for_each_flat_map, for_each_download.
Qed.

(** The analysis of a document is the run of its sightings. *)
Lemma steps_of_run f pack st :
  (analyze_artifact_file f pack st).1
  = fold_left (run_step (artifact_name_of f) pack) (steps_of f) st.
Proof.
  unfold analyze_artifact_file, steps_of.
  destruct (content f) as [text|]; [|done].
  rewrite !fold_left_app, github_steps_run, tool_steps_run, download_steps_run.
  pose proof (completed_find_download_urls text (artifact_name_of f) pack
                (find_known_tools text (artifact_name_of f) pack
                   (find_github_repositories text (artifact_name_of f) pack st)))
    as Hdone.
  destruct (find_download_urls _ _ _ _) as [st'|st']; cbn [completed] in Hdone;
    rewrite <- Hdone; cbn [fst state_of]; [|done].
  rewrite source_steps_run. by destruct (analyze_sources _ _ _ _).
Qed.

(** ** Records that only gain bundle names *)

Lemma repo_adds_packs_refl r : repo_adds_packs r r.
Proof. split; [done|]. by destruct r. Qed.

Lemma tool_adds_packs_refl t : tool_adds_packs t t.
Proof. split; [done|]. by destruct t. Qed.

Lemma dep_adds_packs_refl d : dep_adds_packs d d.
Proof. split; [done|]. by destruct d. Qed.

Lemma repo_adds_packs_trans r1 r2 r3 :
  repo_adds_packs r1 r2 -> repo_adds_packs r2 r3 -> repo_adds_packs r1 r3.
Proof. intros [H1 ->] [H2 ->]. split; [by etrans|done]. Qed.

Lemma tool_adds_packs_trans t1 t2 t3 :
  tool_adds_packs t1 t2 -> tool_adds_packs t2 t3 -> tool_adds_packs t1 t3.
Proof. intros [H1 ->] [H2 ->]. split; [by etrans|done]. Qed.

Lemma dep_adds_packs_trans d1 d2 d3 :
  dep_adds_packs d1 d2 -> dep_adds_packs d2 d3 -> dep_adds_packs d1 d3.
Proof. intros [H1 ->] [H2 ->]. split; [by etrans|done]. Qed.

Lemma items_related_refl {V : Type} (R : V -> V -> Prop) (d : dict V) :
  (forall v, R v v) -> items_related R d d.
Proof. intros HR. induction d as [|[k v] d IH]; by constructor. Qed.

Lemma items_related_trans {V : Type} (R : V -> V -> Prop) (d1 d2 d3 : dict V) :
  (forall u v w, R u v -> R v w -> R u w) ->
  items_related R d1 d2 -> items_related R d2 d3 -> items_related R d1 d3.
Proof.
  unfold items_related. intros HR H12. revert d3.
  induction H12 as [|x y d1 d2 [Hk Hv] _ IH]; intros d3 H23; [done|].
  inversion H23 as [|y' z d2' d3' [Hk' Hv'] Htl]; subst.
  constructor; [split; [congruence|by eapply HR]|by apply IH].
Qed.

Lemma items_related_get {V : Type} (R : V -> V -> Prop) (d d' : dict V) k v :
  items_related R d d' -> Dict.get k d = Some v ->
  exists v', Dict.get k d' = Some v' /\ R v v'.
Proof.
  induction 1 as [|[k1 v1] [k2 v2] d d' [Hk Hv] _ IH]; [done|].
  cbn in Hk, Hv. subst k2. cbn [Dict.get].
  destruct (decide (k = k1)); [|done]. intros [= <-]. by exists v2.
Qed.

(** An update of the record of a key that is related to the record. *)
Lemma items_related_alter {V : Type} (R : V -> V -> Prop) f k (d : dict V) :
  (forall v, R v v) ->
  (forall v, Dict.get k d = Some v -> R v (f v)) ->
  items_related R d (Dict.alter f k d).
Proof.
  intros Hrefl. induction d as [|[k0 v0] d IH]; intros Hf; [constructor|].
  cbn [Dict.alter]. cbn [Dict.get] in Hf.
  destruct (decide (k = k0)) as [->|Hne].
  - constructor; [split; [done|by apply Hf]|by apply items_related_refl].
  - constructor; [done|by apply IH].
Qed.

Lemma items_related_upsert {V : Type} (R : V -> V -> Prop) f k v w (d : dict V) :
  (forall v, R v v) ->
  Dict.get k d = Some w -> R w (f w) ->
  items_related R d (Dict.alter f k (Dict.setdefault k v d)).
Proof.
  intros Hrefl Hget Hw. rewrite (setdefault_present k v w d Hget).
  apply items_related_alter; [done|]. intros v' Hv'. congruence.
Qed.

Lemma only_packs_grow_refl st : only_packs_grow st st.
Proof.
  split; try done; apply items_related_refl.
  - apply repo_adds_packs_refl.
  - apply tool_adds_packs_refl.
  - apply dep_adds_packs_refl.
Qed.

Lemma only_packs_grow_trans st1 st2 st3 :
  only_packs_grow st1 st2 -> only_packs_grow st2 st3 -> only_packs_grow st1 st3.
Proof.
  intros [] []. split; try congruence; eapply items_related_trans; eauto.
  - apply repo_adds_packs_trans.
  - apply tool_adds_packs_trans.
  - apply dep_adds_packs_trans.
Qed.

Lemma union_singleton_absorb (X : gset string) x : x ∈ X -> X ∪ {[x]} = X.
Proof.
  intros Hx. apply set_eq. intros y. rewrite elem_of_union, elem_of_singleton.
  split; [by intros [?| ->]|by left].
Qed.

Lemma upsert_keeps {V : Type} (Q : V -> Prop) (f : V -> V) k v key (d : dict V) :
  (forall w, Q w -> Q (f w)) ->
  (exists w, Dict.get key d = Some w /\ Q w) ->
  exists w, Dict.get key (Dict.alter f k (Dict.setdefault k v d)) = Some w /\ Q w.
Proof.
  intros Hf (w & Hget & Hw).
  destruct (get_upsert_kept f k v key w d Hget) as [Hkept|Hkept]; eauto.
Qed.

Lemma elem_of_append_new x y l : x ∈ l -> x ∈ append_new y l.
Proof. intros Hx. eapply elem_of_prefix; [exact Hx|apply append_new_prefix]. Qed.

(** *** What was seen stays seen *)

Lemma seen_github artifact_name x name pack st m :
  seen artifact_name x st -> seen artifact_name x (record_github_match name pack st m).
Proof.
  unfold record_github_match.
  destruct (Re.groups m) as [|org [|repo rest]]; [done..|].
  destruct x as [m0|key info matched|key info|url]; cbn [seen]; [| done | | done].
  - destruct (Re.groups m0) as [|org0 [|repo0 rest0]]; [done..|].
    cbn [repositories_found organizations_found add_organization with_repositories].
    intros [Horg Hrec]. split; [by apply elem_of_union_l|].
    revert Hrec. apply upsert_keeps. intros w [Ha Hu]. cbn. split.
    + by apply elem_of_append_new.
    + by apply elem_of_union_l.
  - destruct (catalog_key info); [|done].
    cbn [repositories_found add_organization with_repositories].
    apply upsert_keeps. intros w (Ha & Hp & Hl). cbn. split_and!; try done.
    by apply elem_of_append_new.
Qed.

Lemma seen_tool artifact_name x key info name pack matched st :
  seen artifact_name x st ->
  seen artifact_name x (record_tool key info name pack matched st).
Proof.
  destruct x as [m0|key0 info0 matched0|key0 info0|url]; cbn [seen]; [done| |done..].
  cbn [tools_found record_tool with_tools].
  apply upsert_keeps. intros w [Ha Hm]. cbn. split.
  - by apply elem_of_append_new.
  - by apply elem_of_union_l.
Qed.

Lemma seen_tool_repository artifact_name x key info name pack st :
  from_catalog x -> (key, info) ∈ known_tools ->
  seen artifact_name x st ->
  seen artifact_name x (record_tool_repository key info name pack st).
Proof.
  intros Hx Hin. rewrite record_tool_repository_unfold.
  destruct (tool_repository info) as [[org repo]|] eqn:Hrepo; [|done].
  assert (catalog_key info = Some (repo_key org repo)) as Hkey
    by (unfold catalog_key; by rewrite Hrepo).
  destruct x as [m0|key0 info0 matched0|key0 info0|url]; cbn [seen]; [| done | | done].
  - destruct (Re.groups m0) as [|org0 [|repo0 rest0]]; [done..|].
    cbn [repositories_found organizations_found with_repositories].
    intros [Horg Hrec]. split; [done|].
    revert Hrec. apply upsert_keeps. intros w [Ha Hu]. cbn. split; [|done].
    by apply elem_of_append_new.
  - destruct (catalog_key info0) as [key1|] eqn:Hkey0; [|done].
    cbn [repositories_found with_repositories].
    intros (w & Hget & Ha & Hp & Hl).
    rewrite DictFacts.get_alter, DictFacts.get_setdefault, Hget.
    destruct (decide (key1 = repo_key org repo)) as [->|]; [|by exists w].
    destruct (catalog_key_inj _ _ _ _ _ Hx Hin Hkey0 Hkey) as [-> ->].
    eexists. split; [done|]. cbn. split_and!; try done.
    by apply elem_of_append_new.
Qed.

Lemma seen_download artifact_name x name pack st url :
  seen artifact_name x st ->
  seen artifact_name x (state_of (record_download name pack st url)).
Proof.
  unfold record_download. destruct (urlparse_netloc url) as [domain|]; [|done].
  destruct x as [m0|key0 info0 matched0|key0 info0|url0]; cbn [seen state_of];
    [done..|].
  destruct (urlparse_netloc url0) as [domain0|]; [|done].
  cbn [dependencies_found with_dependencies].
  apply upsert_keeps. intros w [Ha Hu]. cbn. split.
  - by apply elem_of_append_new.
  - by apply elem_of_union_l.
Qed.

Lemma seen_run_step artifact_name x name pack y st :
  from_catalog x -> from_catalog y ->
  seen artifact_name x st -> seen artifact_name x (run_step name pack st y).
Proof.
  intros Hx Hy. destruct y as [m|key info matched|key info|url]; cbn [run_step].
  - apply seen_github.
  - apply seen_tool.
  - by apply seen_tool_repository.
  - apply seen_download.
Qed.

Lemma seen_analyze_files artifact_name x files pack st :
  from_catalog x ->
  seen artifact_name x st -> seen artifact_name x (analyze_files files pack st).1.
Proof.
  intros Hx. apply invariant_analyze_files.
  - intros name pack' s pattern content m _ _. apply seen_github.
  - intros key info name pack' matched s _ _. apply seen_tool.
  - intros key info name pack' s Hin. by apply seen_tool_repository.
  - intros name pack' s url. apply seen_download.
Qed.

Lemma seen_context artifact_name x st st' :
  repositories_found st' = repositories_found st ->
  tools_found st' = tools_found st ->
  dependencies_found st' = dependencies_found st ->
  organizations_found st' = organizations_found st ->
  seen artifact_name x st -> seen artifact_name x st'.
Proof.
  intros Hr Ht Hd Ho. destruct x; cbn [seen]; by rewrite ?Hr, ?Ht, ?Hd, ?Ho.
Qed.

Lemma seen_analyze_packs artifact_name x packs st :
  from_catalog x ->
  seen artifact_name x st -> seen artifact_name x (analyze_packs packs st).1.
Proof.
  intros Hx. apply invariant_analyze_packs.
  - intros name pack' s pattern content m _ _. apply seen_github.
  - intros key info name pack' matched s _ _. apply seen_tool.
  - intros key info name pack' s Hin. by apply seen_tool_repository.
  - intros name pack' s url. apply seen_download.
  - intros n s. by apply seen_context.
  - intros info s. by apply seen_context.
Qed.

(** *** A sighting leaves what it records *)

Lemma seen_after_step artifact_name pack x st :
  seen artifact_name x (run_step artifact_name pack st x).
Proof.
  destruct x as [m|key info matched|key info|url]; cbn [run_step seen].
  - unfold record_github_match.
    destruct (Re.groups m) as [|org [|repo rest]] eqn:Hg; [done..|].
    cbn [repositories_found organizations_found add_organization with_repositories].
    split; [apply elem_of_union_r; by apply elem_of_singleton|].
    eexists. split; [apply DictFacts.get_upsert|]. cbn. split.
    + apply append_new_elem.
    + apply elem_of_union_r. by apply elem_of_singleton.
  - cbn [tools_found record_tool with_tools].
    eexists. split; [apply DictFacts.get_upsert|]. cbn. split.
    + apply append_new_elem.
    + apply elem_of_union_r. by apply elem_of_singleton.
  - rewrite record_tool_repository_unfold. unfold catalog_key.
    destruct (tool_repository info) as [[org repo]|]; [|done].
    cbn [fmap option_fmap option_map repositories_found with_repositories].
    eexists. split; [apply DictFacts.get_upsert|]. cbn. split_and!; try done.
    apply append_new_elem.
  - unfold record_download. destruct (urlparse_netloc url) as [domain|]; [|done].
    cbn [state_of dependencies_found with_dependencies].
    eexists. split; [apply DictFacts.get_upsert|]. cbn. split.
    + apply append_new_elem.
    + apply elem_of_union_r. by apply elem_of_singleton.
Qed.

(** After the run of a list of sightings, each of them is seen. *)
Lemma seen_after_steps artifact_name pack l st x :
  Forall from_catalog l -> x ∈ l ->
  seen artifact_name x (fold_left (run_step artifact_name pack) l st).
Proof.
  intros Hl Hx. rewrite Forall_forall in Hl.
  apply (fold_left_ensures (fun x s => seen artifact_name x s)); [done|..].
  - intros s. apply seen_after_step.
  - intros s y Hy. apply seen_run_step; by apply Hl.
Qed.

(** *** A sighting that was seen adds the bundle name at most *)

Lemma seen_respects artifact_name x st st' :
  only_packs_grow st st' -> seen artifact_name x st -> seen artifact_name x st'.
Proof.
  intros [_ _ Horgs _ Hrepos Htools Hdeps].
  destruct x as [m|key info matched|key info|url]; cbn [seen].
  - destruct (Re.groups m) as [|org [|repo rest]]; [done..|].
    intros [Horg (r & Hget & Ha & Hu)]. split; [by rewrite Horgs|].
    destruct (items_related_get _ _ _ _ _ Hrepos Hget) as (r' & Hget' & _ & Heq).
    exists r'. split; [done|]. by rewrite Heq.
  - intros (t & Hget & Ha & Hm).
    destruct (items_related_get _ _ _ _ _ Htools Hget) as (t' & Hget' & _ & Heq).
    exists t'. split; [done|]. by rewrite Heq.
  - destruct (catalog_key info) as [key'|]; [|done].
    intros (r & Hget & Ha & Hp & Hl).
    destruct (items_related_get _ _ _ _ _ Hrepos Hget) as (r' & Hget' & _ & Heq).
    exists r'. split; [done|]. by rewrite Heq.
  - destruct (urlparse_netloc url) as [domain|]; [|done].
    intros (d & Hget & Ha & Hu).
    destruct (items_related_get _ _ _ _ _ Hdeps Hget) as (d' & Hget' & _ & Heq).
    exists d'. split; [done|]. by rewrite Heq.
Qed.

Lemma seen_absorbs artifact_name pack x st :
  seen artifact_name x st -> only_packs_grow st (run_step artifact_name pack st x).
Proof.
  destruct x as [m|key info matched|key info|url]; cbn [seen run_step].
  - unfold record_github_match.
    destruct (Re.groups m) as [|org [|repo rest]]; try (intros _; apply only_packs_grow_refl).
    intros [Horg (r & Hget & Ha & Hu)].
    split; cbn; try done; try apply items_related_refl;
      try apply tool_adds_packs_refl; try apply dep_adds_packs_refl.
    + by apply union_singleton_absorb.
    + apply (items_related_upsert _ _ _ _ r); [apply repo_adds_packs_refl|done|].
      unfold repo_adds_packs, repo_with_packs, Repo.add_url, Repo.set_tier,
      Repo.add_reference. cbn.
      rewrite (append_new_idem _ _ Ha), (union_singleton_absorb _ _ Hu).
      split; [apply union_subseteq_l|done].
  - intros (t & Hget & Ha & Hm).
    split; cbn; try done; try apply items_related_refl;
      try apply repo_adds_packs_refl; try apply dep_adds_packs_refl.
    apply (items_related_upsert _ _ _ _ t); [apply tool_adds_packs_refl|done|].
    unfold tool_adds_packs, tool_with_packs, Tool.add_reference. cbn.
    rewrite (append_new_idem _ _ Ha), (union_singleton_absorb _ _ Hm).
    split; [apply union_subseteq_l|done].
  - rewrite record_tool_repository_unfold. unfold catalog_key.
    destruct (tool_repository info) as [[org repo]|];
      [|intros _; apply only_packs_grow_refl].
    cbn [fmap option_fmap option_map]. intros (r & Hget & Ha & Hp & Hl).
    split; cbn; try done; try apply items_related_refl;
      try apply tool_adds_packs_refl; try apply dep_adds_packs_refl.
    apply (items_related_upsert _ _ _ _ r); [apply repo_adds_packs_refl|done|].
    unfold repo_adds_packs, repo_with_packs, Repo.add_url, Repo.set_tier,
      Repo.add_reference. cbn.
    rewrite (append_new_idem _ _ Ha), <- Hp, <- Hl.
    split; [apply union_subseteq_l|done].
  - unfold record_download.
    destruct (urlparse_netloc url) as [domain|]; [|intros _; apply only_packs_grow_refl].
    intros (d & Hget & Ha & Hu).
    split; cbn; try done; try apply items_related_refl;
      try apply repo_adds_packs_refl; try apply tool_adds_packs_refl.
    apply (items_related_upsert _ _ _ _ d); [apply dep_adds_packs_refl|done|].
    unfold dep_adds_packs, dep_with_packs, Dep.add_reference. cbn.
    rewrite (append_new_idem _ _ Ha), (union_singleton_absorb _ _ Hu).
    split; [apply union_subseteq_l|done].
Qed.

Lemma steps_absorbed artifact_name pack l st :
  (forall x, x ∈ l -> seen artifact_name x st) ->
  only_packs_grow st (fold_left (run_step artifact_name pack) l st).
Proof.
  revert st. induction l as [|x l IH]; intros st Hseen; [apply only_packs_grow_refl|].
  cbn [fold_left].
  assert (only_packs_grow st (run_step artifact_name pack st x)) as Hx
    by (apply seen_absorbs, Hseen; by left).
  eapply only_packs_grow_trans; [exact Hx|]. apply IH.
  intros y Hy. apply (seen_respects _ _ st); [done|]. apply Hseen. by right.
Qed.

Lemma steps_from_catalog f : Forall from_catalog (steps_of f).
Proof.
  assert (forall executable, Forall from_catalog (executable_steps executable)) as Hexe.
  { intros executable. apply Forall_forall. intros x Hx%list_elem_of_In.
    apply in_flat_map in Hx as ([key info] & Hin%list_elem_of_In & Hx).
    destruct (existsb _ _); [|done]. by destruct Hx as [<-|[]]. }
  apply Forall_forall. intros x. unfold steps_of.
  destruct (content f) as [text|]; [|by intros ?%elem_of_nil].
  rewrite !elem_of_app. intros [Hx|[Hx|[Hx|Hx]]].
  - apply list_elem_of_In, in_flat_map in Hx as (pattern & _ & Hx).
    by apply in_map_iff in Hx as (m & <- & _).
  - apply list_elem_of_In, in_flat_map in Hx as ([key info] & Hin%list_elem_of_In & Hx).
    apply in_flat_map in Hx as (pattern & _ & Hx).
    destruct (Re.found true pattern text); [|done].
    by destruct Hx as [<-|[<-|[]]].
  - by apply list_elem_of_In, in_map_iff in Hx as (url & <- & _).
  - destruct (parses_all_urls text); [|by apply elem_of_nil in Hx].
    induction (sources_of f) as [|source sources IH]; [by apply elem_of_nil in Hx|].
    destruct source; cbn [source_steps] in Hx; [|by apply IH|by apply elem_of_nil in Hx].
    apply elem_of_app in Hx as [Hx|Hx]; [|by apply IH].
    apply list_elem_of_In, in_flat_map in Hx as (pattern & _ & Hx).
    apply in_flat_map in Hx as (executable & _ & Hx%list_elem_of_In).
    pose proof (Hexe executable) as Hall. rewrite Forall_forall in Hall. by apply Hall.
Qed.

(** Once a document has been analyzed, its sightings are seen. *)
Lemma seen_after_file f pack st x :
  x ∈ steps_of f -> seen (artifact_name_of f) x (analyze_artifact_file f pack st).1.
Proof.
  intros Hx. rewrite steps_of_run.
  by apply seen_after_steps; [apply steps_from_catalog|].
Qed.

Lemma seen_after_files f files pack st x :
  f ∈ files -> x ∈ steps_of f ->
  seen (artifact_name_of f) x (analyze_files files pack st).1.
Proof.
  intros Hf Hx.
  assert (from_catalog x) as Hcat.
  { pose proof (steps_from_catalog f) as Hall. rewrite Forall_forall in Hall.
    by apply Hall. }
  revert st. induction files as [|f' files IH]; intros st; [by apply elem_of_nil in Hf|].
  rewrite analyze_files_cons. apply elem_of_cons in Hf as [<-|Hf].
  - by apply seen_analyze_files, seen_after_file.
  - by apply IH.
Qed.

Lemma seen_after_packs f name p packs st x :
  (name, p) ∈ packs -> f ∈ files_of p -> x ∈ steps_of f ->
  seen (artifact_name_of f) x (analyze_packs packs st).1.
Proof.
  intros Hp Hf Hx.
  assert (from_catalog x) as Hcat.
  { pose proof (steps_from_catalog f) as Hall. rewrite Forall_forall in Hall.
    by apply Hall. }
  revert st. induction packs as [|[name' p'] packs IH]; intros st;
    [by apply elem_of_nil in Hp|].
  rewrite analyze_packs_cons. apply elem_of_cons in Hp as [[= <- <-]|Hp].
  - assert (seen (artifact_name_of f) x (analyze_artifact_pack name p st).1) as Hhere.
    { unfold analyze_artifact_pack. unfold files_of in Hf.
      destruct (extraction p) as [|yaml yml]; [by apply elem_of_nil in Hf|].
      pose proof (seen_after_files f (yaml ++ yml) name
                    (count_artifacts (length (yaml ++ yml)) st) x Hf Hx) as Hfiles.
      destruct (analyze_files _ _ _) as [st' log]. cbn [fst] in *.
      by apply (seen_context _ _ st'). }
    destruct (analyze_artifact_pack name p st) as [st' lines]. cbn [fst] in *.
    by apply seen_analyze_packs.
  - destruct (analyze_artifact_pack name' p' st) as [st' lines]. cbn [fst].
    by apply IH.
Qed.

(** X14.  A document that a bundle analyzed before contained adds
    nothing but the name of the bundle in which it is met again.  When
    [f] is a file of one of the bundles [packs] that were analyzed, then at
    any point of the analysis of a later bundle [pack_name] (after its
    count was added and the files [earlier] were analyzed), analyzing [f]
    creates no record and adds no document, URL, pattern or organization
    and changes no tier: each record is what it was, but for [pack_name]
    in its [referenced_in_packs].  So the documents that
    [artifact_pack_v2.zip] repeats from [artifact_pack.zip] change no
    score. *)
Theorem repeated_document_adds_only_bundle_name
    (packs : list (string * PackFile)) (name : string) (p : PackFile)
    (f : ArtifactFile) (n : nat) (earlier : list ArtifactFile) (pack_name : string)
    (st : AnalysisState) :
  (name, p) ∈ packs -> f ∈ files_of p ->
  let st1 :=
    (analyze_files earlier pack_name
       (count_artifacts n (analyze_packs packs st).1)).1 in
  only_packs_grow st1 (analyze_artifact_file f pack_name st1).1.
Proof.
  intros Hp Hf st1. rewrite steps_of_run. apply steps_absorbed.
  intros x Hx. subst st1.
  assert (from_catalog x) as Hcat.
  { pose proof (steps_from_catalog f) as Hall. rewrite Forall_forall in Hall.
    by apply Hall. }
  apply seen_analyze_files; [done|].
  apply (seen_context _ _ (analyze_packs packs st).1); try done.
  by apply (seen_after_packs f name p).
Qed.

Lemma repeated_document_adds_only_bundle_name_witness :
  let packs := [("artifact_pack.zip", sigma_bundle)] in
  let st1 :=
    (analyze_files [] "artifact_pack_v2.zip"
       (count_artifacts 1 (analyze_packs packs initial_results).1)).1 in
  ("artifact_pack.zip", sigma_bundle) ∈ packs
  /\ sigma_document ∈ files_of sigma_bundle
  /\ only_packs_grow st1 (analyze_artifact_file sigma_document "artifact_pack_v2.zip" st1).1.
Proof.
  split; [by left|]. split; [by left|].
  apply (repeated_document_adds_only_bundle_name
           [("artifact_pack.zip", sigma_bundle)] "artifact_pack.zip" sigma_bundle
           sigma_document 1 [] "artifact_pack_v2.zip" initial_results);
    by left.
Defined.

(** ** What never changes *)

Lemma same_identity_refl r : same_identity r r.
Proof. by split. Qed.

Lemma same_identity_trans r1 r2 r3 :
  same_identity r1 r2 -> same_identity r2 r3 -> same_identity r1 r3.
Proof. intros [] []. split; try congruence. by etrans. Qed.

Lemma keys_upsert_prefix {V : Type} (f : V -> V) k v (d : dict V) :
  Dict.keys d `prefix_of` Dict.keys (Dict.alter f k (Dict.setdefault k v d)).
Proof.
  rewrite DictFacts.keys_alter. unfold Dict.setdefault.
  destruct (Dict.mem k d); [done|].
  unfold Dict.keys. rewrite fmap_app. by apply prefix_app_r.
Qed.

Lemma registries_extend_refl st : registries_extend st st.
Proof. split; try done. intros key r Hget. exists r. split; [done|by split]. Qed.

Lemma registries_extend_repositories st s f k v :
  (forall w, same_identity w (f w)) ->
  registries_extend st s ->
  registries_extend st
    (with_repositories (fun repos => Dict.alter f k (Dict.setdefault k v repos)) s).
Proof.
  intros Hf [Hr Ht Hd Hrec]. split; cbn; try done.
  - etrans; [exact Hr|apply keys_upsert_prefix].
  - intros key r Hget. apply upsert_keeps; [|by apply Hrec].
    intros w Hw. eapply same_identity_trans; [exact Hw|apply Hf].
Qed.

Lemma registries_extend_packs packs st :
  registries_extend st (analyze_packs packs st).1.
Proof.
  apply invariant_analyze_packs; [..|apply registries_extend_refl].
  - intros name pack s pattern content m _ _ Hs. unfold record_github_match.
    destruct (Re.groups m) as [|org [|repo rest]]; [done..|].
    match goal with
    | |- registries_extend st (add_organization _ ?s') =>
        assert (registries_extend st s') as [Hr Ht Hd Hrec]; [|by split]
    end.
    apply registries_extend_repositories; [|done].
    intros w. split; try done. apply append_new_prefix.
  - intros key info name pack matched s _ _ [Hr Ht Hd Hrec]. split; cbn; try done.
    etrans; [exact Ht|apply keys_upsert_prefix].
  - intros key info name pack s _ Hs. rewrite record_tool_repository_unfold.
    destruct (tool_repository info) as [[org repo]|]; [|done].
    apply registries_extend_repositories; [|done].
    intros w. split; try done. apply append_new_prefix.
  - intros name pack s url [Hr Ht Hd Hrec]. unfold record_download.
    destruct (urlparse_netloc url) as [domain|]; [|done]. split; cbn; try done.
    etrans; [exact Hd|apply keys_upsert_prefix].
  - by intros n s [].
  - by intros info s [].
Qed.

Lemma registries_extend_post_process st s :
  registries_extend st s -> registries_extend st (post_process_analysis s).
Proof.
  intros [Hr Ht Hd Hrec]. split; try done.
  - by rewrite post_process_keys.
  - intros key r Hget. destruct (Hrec key r Hget) as (r' & Hget' & Hsame).
    exists (enrich_record (score_record r')). split.
    + by rewrite post_process_get, Hget'.
    + by destruct Hsame.
Qed.

Lemma score_same_identity r r' : same_identity r r' -> (score r <= score r')%Z.
Proof.
  intros [Ho Hn _ _ Hp]. unfold score. rewrite !tier_bonus_zero.
  unfold organization_bonus, keyword_bonus. rewrite Ho, Hn.
  apply prefix_length in Hp. lia.
Qed.

(** X15.  Analysis only extends the registries.  Whatever bundles are
    analyzed from a state, and after post-processing, the keys that the
    three registries had come first and in their order (a record is never
    removed or moved), and every repository record is still under its key
    with the same organization, name, URL and back-reference and with its
    documents first: a record that the repository pass created never gets
    a [tool_name], however often the tool is named later.  The score of a
    record never goes down. *)
Theorem registries_only_extend
    (packs : list (string * PackFile)) (st : AnalysisState) (key : string) (r : Repo.t) :
  Dict.get key (repositories_found st) = Some r ->
  let st' := post_process_analysis (analyze_packs packs st).1 in
  Dict.keys (repositories_found st) `prefix_of` Dict.keys (repositories_found st')
  /\ Dict.keys (tools_found st) `prefix_of` Dict.keys (tools_found st')
  /\ Dict.keys (dependencies_found st) `prefix_of` Dict.keys (dependencies_found st')
  /\ exists r',
       Dict.get key (repositories_found st') = Some r'
       /\ Repo.organization r' = Repo.organization r
       /\ Repo.repository_name r' = Repo.repository_name r
       /\ Repo.repository_url r' = Repo.repository_url r
       /\ Repo.tool_name r' = Repo.tool_name r
       /\ Repo.referenced_in_artifacts r `prefix_of` Repo.referenced_in_artifacts r'
       /\ (score r <= score r')%Z.
Proof.
  intros Hget st'.
  destruct (registries_extend_post_process st _ (registries_extend_packs packs st))
    as [Hr Ht Hd Hrec].
  split_and!; try done.
  destruct (Hrec key r Hget) as (r' & Hget' & Hsame).
  exists r'. pose proof (score_same_identity r r' Hsame). by destruct Hsame.
Qed.

Lemma registries_only_extend_witness :
  let packs := [("artifact_pack.zip", yara_bundle)] in
  let st' := post_process_analysis (analyze_packs packs yara_linked).1 in
  Dict.get "VirusTotal/yara" (repositories_found yara_linked)
  = Some (default sigma_record
            (Dict.get "VirusTotal/yara" (repositories_found yara_linked)))
  /\ Repo.tool_name
       (default sigma_record (Dict.get "VirusTotal/yara" (repositories_found yara_linked)))
     = None
  /\ Dict.keys (repositories_found yara_linked)
       `prefix_of` Dict.keys (repositories_found st')
  /\ Dict.keys (tools_found yara_linked) `prefix_of` Dict.keys (tools_found st')
  /\ Dict.keys (dependencies_found yara_linked)
       `prefix_of` Dict.keys (dependencies_found st')
  /\ exists r',
       Dict.get "VirusTotal/yara" (repositories_found st') = Some r'
       /\ Repo.organization r' = "VirusTotal"
       /\ Repo.repository_name r' = "yara"
       /\ Repo.repository_url r' = "https://github.com/VirusTotal/yara"
       /\ Repo.tool_name r' = None
       /\ ["Doc.Zero"] `prefix_of` Repo.referenced_in_artifacts r'
       /\ (10 <= score r')%Z.
Proof.
  split; [vm_compute; reflexivity|]. split; [vm_compute; reflexivity|].
  apply (registries_only_extend [("artifact_pack.zip", yara_bundle)] yara_linked
           "VirusTotal/yara"
           (default sigma_record
              (Dict.get "VirusTotal/yara" (repositories_found yara_linked)))).
  vm_compute. reflexivity.
Defined.

(** ** What a tool record lists as matched *)

Lemma tool_patterns_packs packs :
  every_item
    (fun key t =>
       forall matched, matched ∈ Tool.patterns_matched t ->
         exists info, (key, info) ∈ known_tools /\ matches_tool info matched)
    (tools_found (analyze_packs packs initial_results).1).
Proof.
  apply (invariant_analyze_packs
           (fun st =>
              every_item
                (fun key t =>
                   forall matched, matched ∈ Tool.patterns_matched t ->
                     exists info, (key, info) ∈ known_tools /\ matches_tool info matched)
                (tools_found st))).
  - intros name pack st pattern content m _ _. unfold record_github_match.
    by destruct (Re.groups m) as [|org [|repo rest]].
  - intros key info name pack matched st Hin Hmatch Hst. cbn.
    apply every_item_upsert; [| |done].
    + intros w Hw matched' [Hold| ->%elem_of_singleton]%elem_of_union;
        [by apply Hw|by exists info].
    + intros matched' [Hold| ->%elem_of_singleton]%elem_of_union;
        [by apply not_elem_of_empty in Hold|by exists info].
  - intros key info name pack st _. by rewrite tools_found_tool_repository.
  - intros name pack st url. unfold record_download.
    by destruct (urlparse_netloc url).
  - done.
  - done.
  - intros k v Hin. by apply elem_of_nil in Hin.
Qed.

(** X16.  After a run, every entry of the [patterns_matched] of a tool
    record belongs to that tool of the catalog: it is one of the tool's
    patterns (added by the pass over the text), or a token taken from a
    nested query that one of the tool's patterns matches, case being
    ignored. *)
Theorem matched_patterns_belong_to_tool
    (fs : FileSystem) (key : string) (t : Tool.t) (matched : string) :
  Dict.get key (tools_found (run fs).1) = Some t ->
  matched ∈ Tool.patterns_matched t ->
  exists info,
    (key, info) ∈ known_tools
    /\ (matched ∈ ToolInfo.patterns info
        \/ existsb (fun p => Re.found true p matched) (ToolInfo.patterns info) = true).
Proof.
  rewrite run_state. intros Hget%DictFacts.get_elem Hmatched.
  by apply (tool_patterns_packs (present_packs fs) key t Hget).
Qed.

Lemma matched_patterns_belong_to_tool_witness :
  let fs := one_document inventory_document in
  let t := tool_after fs "osquery" in
  Dict.get "osquery" (tools_found (run fs).1) = Some t
  /\ "osqueryi.exe" ∈ Tool.patterns_matched t
  /\ exists info,
       ("osquery", info) ∈ known_tools
       /\ ("osqueryi.exe" ∈ ToolInfo.patterns info
           \/ existsb (fun p => Re.found true p "osqueryi.exe") (ToolInfo.patterns info)
              = true).
Proof.
  assert (Tool.patterns_matched (tool_after (one_document inventory_document) "osquery")
          = {["osqueryi.exe"]}) as Hm by (vm_compute; reflexivity).
  split; [vm_compute; reflexivity|]. split; [rewrite Hm; by apply elem_of_singleton|].
  apply (matched_patterns_belong_to_tool (one_document inventory_document) "osquery"
           (tool_after (one_document inventory_document) "osquery") "osqueryi.exe").
  - vm_compute. reflexivity.
  - rewrite Hm. by apply elem_of_singleton.
Defined.
